(** * libxmlb: the silo builder (src/xb-builder.c)

    A shallow embedding of the XML-to-silo compiler: the string interner,
    the GMarkup callbacks that build the node tree, the four node-table
    passes (size, string table, write, fix-up), the GUID accumulator and the
    [xb_builder_ensure] freshness gate, followed by the properties that the
    specification states about them. *)

From Stdlib Require Import ZArith Lia String Ascii List Bool.
From stdpp Require Import base option list gmap strings.

Local Open Scope string_scope.
Local Open Scope list_scope.
Local Open Scope Z_scope.

(** ** Machine integers and bytes *)

(** A [guint32] is a [Z] reduced modulo 2^32; a byte is a [Z] below 256. *)
Definition u32 (z : Z) : Z := z mod 4294967296.

Definition bytes_of_string (s : string) : list Z :=
  map (fun c => Z.of_N (N_of_ascii c)) (list_ascii_of_string s).

(** ** SHA-1 (FIPS 180-4), as computed by GChecksum and libuuid *)

Module Sha1.

Definition rotl (n : Z) (x : Z) : Z :=
  Z.lor (u32 (Z.shiftl x n)) (Z.shiftr x (32 - n)).

Definition pad (msg : list Z) : list Z :=
  let len := Z.of_nat (length msg) in
  let zeros := Z.to_nat ((55 - len) mod 64) in
  let bits := 8 * len in
  msg ++ 128 :: repeat 0 zeros
      ++ map (fun i => Z.land (Z.shiftr bits (8 * i)) 255) [7; 6; 5; 4; 3; 2; 1; 0].

Fixpoint words (fuel : nat) (bs : list Z) : list Z :=
  match fuel, bs with
  | S k, b0 :: b1 :: b2 :: b3 :: rest =>
      (b0 * 16777216 + b1 * 65536 + b2 * 256 + b3) :: words k rest
  | _, _ => []
  end.

(** The message schedule is kept newest word first. *)
Fixpoint schedule (n : nat) (rev_w : list Z) : list Z :=
  match n with
  | O => rev_w
  | S k =>
      let w := rotl 1 (Z.lxor (Z.lxor (nth 2 rev_w 0) (nth 7 rev_w 0))
                              (Z.lxor (nth 13 rev_w 0) (nth 15 rev_w 0))) in
      schedule k (w :: rev_w)
  end.

Definition lnot32 (x : Z) : Z := 4294967295 - x.

Definition round_f (t : nat) (b c d : Z) : Z :=
  if (t <? 20)%nat then Z.lor (Z.land b c) (Z.land (lnot32 b) d)
  else if (t <? 40)%nat then Z.lxor (Z.lxor b c) d
  else if (t <? 60)%nat then
    Z.lor (Z.lor (Z.land b c) (Z.land b d)) (Z.land c d)
  else Z.lxor (Z.lxor b c) d.

Definition round_k (t : nat) : Z :=
  if (t <? 20)%nat then 1518500249
  else if (t <? 40)%nat then 1859775393
  else if (t <? 60)%nat then 2400959708
  else 3395469782.

Record state := State { ha : Z; hb : Z; hc : Z; hd : Z; he : Z }.

Definition init : state :=
  State 1732584193 4023233417 2562383102 271733878 3285377520.

Fixpoint rounds (t : nat) (ws : list Z) (s : state) : state :=
  match ws with
  | [] => s
  | w :: ws' =>
      let tmp := u32 (rotl 5 (ha s) + round_f t (hb s) (hc s) (hd s)
                      + he s + w + round_k t) in
      rounds (S t) ws' (State tmp (ha s) (rotl 30 (hb s)) (hc s) (hd s))
  end.

Definition block (s : state) (bs : list Z) : state :=
  let ws := rev (schedule 64 (rev (words 16 bs))) in
  let r := rounds 0 ws s in
  State (u32 (ha s + ha r)) (u32 (hb s + hb r)) (u32 (hc s + hc r))
        (u32 (hd s + hd r)) (u32 (he s + he r)).

Fixpoint blocks (fuel : nat) (s : state) (bs : list Z) : state :=
  match fuel with
  | O => s
  | S k =>
      match bs with
      | [] => s
      | _ => blocks k (block s (take 64 bs)) (drop 64 bs)
      end
  end.

Definition word_bytes (w : Z) : list Z :=
  map (fun i => Z.land (Z.shiftr w (8 * i)) 255) [3; 2; 1; 0].

(** The 20-byte digest of a byte string. *)
Definition digest (msg : list Z) : list Z :=
  let p := pad msg in
  let s := blocks (length p) init p in
  word_bytes (ha s) ++ word_bytes (hb s) ++ word_bytes (hc s)
    ++ word_bytes (hd s) ++ word_bytes (he s).

End Sha1.

(** ** GLib values used by the builder *)

(** A [GError]: the error domain, the code within it and the message. *)
Record GError := MkGError {
  err_domain : string;
  err_code : string;
  err_message : string
}.

Inductive gresult (A : Type) : Type :=
| GOk (a : A)
| GFail (e : GError).
Arguments GOk {A} a.
Arguments GFail {A} e.

(** [g_propagate_prefixed_error]: the same error, its message prefixed. *)
Definition g_propagate_prefixed_error (e : GError) (prefix : string) : GError :=
  MkGError (err_domain e) (err_code e) (prefix +:+ err_message e).

(** [g_strv_contains]. *)
Definition g_strv_contains (strv : list string) (s : string) : bool :=
  existsb (String.eqb s) strv.

(** [g_ascii_isspace]: space, tab, line feed, form feed, carriage return. *)
Definition g_ascii_isspace (c : ascii) : bool :=
  match N_of_ascii c with
  | 9%N | 10%N | 12%N | 13%N | 32%N => true
  | _ => false
  end.

(** ** Build configuration

    The record layouts of the silo ([XbSiloHeader], [XbSiloNode],
    [XbSiloAttr]), the magic and the version are declared in
    xb-silo-private.h, and [HAVE_UUID_GENERATE_SHA1] in config.h; the
    builder only uses their sizes and values, which are taken as the fields
    of a configuration. *)
Class SiloConfig := {
  sizeof_XbSiloHeader : Z;
  sizeof_XbSiloNode : Z;
  sizeof_XbSiloAttr : Z;
  sizeof_sentinel : Z;
  XB_SILO_MAGIC_BYTES : Z;
  XB_SILO_VERSION : Z;
  HAVE_UUID_GENERATE_SHA1 : bool
}.

(** ** The GUID accumulator *)

(** [xb_builder_append_guid], on the [GString] [self->guid]. *)
Definition xb_builder_append_guid (guid_acc : string) (guid : string) : string :=
  let acc := if (0 <? String.length guid_acc)%nat
             then guid_acc +:+ "&" else guid_acc in
  acc +:+ guid.

Definition uuid_clear : list Z := repeat 0 16.

(** libuuid's [uuid_generate_sha1] (RFC 4122, version 5): the first sixteen
    bytes of the SHA-1 of the namespace followed by the name, with the
    version and variant bits set. *)
Definition uuid_generate_sha1 (ns name : list Z) : list Z :=
  let h := take 16 (Sha1.digest (ns ++ name)) in
  let h6 := Z.lor (Z.land (nth 6 h 0) 15) 80 in
  let h8 := Z.lor (Z.land (nth 8 h 0) 63) 128 in
  <[8%nat := h8]> (<[6%nat := h6]> h).

(** [_uuid_generate_sha1]: libuuid when available, else the first sixteen
    bytes of the plain SHA-1 of the name (the namespace is then unused). *)
Definition _uuid_generate_sha1 `{cfg : SiloConfig} (ns name : list Z) : list Z :=
  if HAVE_UUID_GENERATE_SHA1 then uuid_generate_sha1 ns name
  else take 16 (Sha1.digest name).

Definition hex_digit (n : Z) : ascii :=
  ascii_of_N (Z.to_N (if n <? 10 then 48 + n else 87 + n)).

Definition hex_byte (b : Z) : list ascii :=
  [hex_digit (b / 16); hex_digit (b mod 16)].

(** [uuid_unparse]: 8-4-4-4-12 lower-case hexadecimal digits. *)
Definition uuid_unparse (uu : list Z) : string :=
  let hx (bs : list Z) := flat_map hex_byte bs in
  let dash := ["-"%char] in
  string_of_list_ascii
    (hx (take 4 uu) ++ dash ++ hx (take 2 (drop 4 uu)) ++ dash
     ++ hx (take 2 (drop 6 uu)) ++ dash ++ hx (take 2 (drop 8 uu)) ++ dash
     ++ hx (take 6 (drop 10 uu))).

(** ** The string interner *)

Definition NUL : ascii := Ascii.zero.

(** [xb_builder_compile_add_to_strtab], on the two fields of the helper it
    uses: the hash table from strings to offsets and the [GString] that
    holds the table. The result is the offset and the updated fields. *)
Definition xb_builder_compile_add_to_strtab
    (strtab_hash : gmap string Z) (strtab : list ascii) (str : string)
    : Z * gmap string Z * list ascii :=
  match strtab_hash !! str with
  | Some val => (val, strtab_hash, strtab)
  | None =>
      let idx := u32 (Z.of_nat (length strtab)) in
      (idx, <[str := idx]> strtab_hash,
       strtab ++ list_ascii_of_string str ++ [NUL])
  end.

(** The NUL-terminated string that starts at an offset of the table. *)
Fixpoint c_string (bytes : list ascii) : list ascii :=
  match bytes with
  | [] => []
  | c :: rest => if Ascii.eqb c NUL then [] else c :: c_string rest
  end.

Definition xb_silo_from_strtab (strtab : list ascii) (off : Z) : list ascii :=
  c_string (drop (Z.to_nat off) strtab).

(** A C string holds no NUL. *)
Definition is_c_string (s : string) : Prop :=
  NUL ∉ list_ascii_of_string s.

(** Interning a sequence of strings, one call after the other. *)
Definition intern_all (strs : list string)
    (st : gmap string Z * list ascii) : gmap string Z * list ascii :=
  fold_left
    (fun st str =>
       let '(_, hash, strtab) :=
         xb_builder_compile_add_to_strtab (fst st) (snd st) str in
       (hash, strtab))
    strs st.

(** ** Builder nodes

    The node object and its accessors belong to xb-builder-node.c; what the
    builder uses of them is modelled from the data model of the
    specification (section 3, BuilderNode, and section 4.1). *)

(** Modelled from the spec: the [IGNORE_CDATA] flag of xb-builder-node.h, a
    single bit of the node's flags. *)
Definition XB_BUILDER_NODE_FLAG_IGNORE_CDATA : Z := 1.

(** Modelled from the spec: the [LITERAL_TEXT] flag of xb-builder-node.h, a
    bit distinct from [IGNORE_CDATA]. *)
Definition XB_BUILDER_NODE_FLAG_LITERAL_TEXT : Z := 2.

(** Modelled from the spec: [XbBuilderNodeAttr] of xb-builder-node-private.h,
    a name and a value with their string-table offsets. *)
Record XbBuilderNodeAttr := MkAttr {
  attr_name : string;
  attr_value : string;
  name_idx : Z;
  value_idx : Z
}.

(** Modelled from the spec: the private data of an [XbBuilderNode] object
    (xb-builder-node.c): tag, optional text, attributes in insertion order,
    flags, and the transient compile slots. The children array is part of
    the reference to the object, [BNode] below. *)
Record XbBuilderNode := MkBn {
  bn_element : string;
  bn_text : option string;
  bn_attrs : list XbBuilderNodeAttr;
  bn_flags : Z;
  bn_element_idx : Z;
  bn_text_idx : Z;
  bn_offset : Z
}.

(** Modelled from the spec: [xb_builder_node_new] (xb-builder-node.c), a
    zero-initialised object with its tag. *)
Definition xb_builder_node_new (element : string) : XbBuilderNode :=
  MkBn element None [] 0 0 0 0.

#[global] Instance XbBuilderNode_inhabited : Inhabited XbBuilderNode :=
  populate (xb_builder_node_new "").

(** Modelled from the spec: [xb_builder_node_has_flag] (xb-builder-node.c),
    the flag test. *)
Definition xb_builder_node_has_flag (bn : XbBuilderNode) (flag : Z) : bool :=
  0 <? Z.land (bn_flags bn) flag.

(** Modelled from the spec: [xb_builder_node_add_flag] (xb-builder-node.c),
    the flag set. *)
Definition xb_builder_node_add_flag (bn : XbBuilderNode) (flag : Z) : XbBuilderNode :=
  MkBn (bn_element bn) (bn_text bn) (bn_attrs bn) (Z.lor (bn_flags bn) flag)
       (bn_element_idx bn) (bn_text_idx bn) (bn_offset bn).

(** Modelled from the spec: [xb_builder_node_add_attribute]
    (xb-builder-node.c), append-attribute; insertion order is kept. *)
Definition xb_builder_node_add_attribute (bn : XbBuilderNode)
    (name value : string) : XbBuilderNode :=
  MkBn (bn_element bn) (bn_text bn) (bn_attrs bn ++ [MkAttr name value 0 0])
       (bn_flags bn) (bn_element_idx bn) (bn_text_idx bn) (bn_offset bn).

(** Modelled from the spec: [xb_builder_node_set_text] (xb-builder-node.c). *)
Definition xb_builder_node_set_text (bn : XbBuilderNode) (text : string) : XbBuilderNode :=
  MkBn (bn_element bn) (Some text) (bn_attrs bn) (bn_flags bn)
       (bn_element_idx bn) (bn_text_idx bn) (bn_offset bn).

(** Modelled from the spec: [xb_builder_node_set_element_idx]
    (xb-builder-node.c), a [guint32] slot. *)
Definition xb_builder_node_set_element_idx (bn : XbBuilderNode) (idx : Z) : XbBuilderNode :=
  MkBn (bn_element bn) (bn_text bn) (bn_attrs bn) (bn_flags bn)
       idx (bn_text_idx bn) (bn_offset bn).

(** Modelled from the spec: [xb_builder_node_set_text_idx]
    (xb-builder-node.c), a [guint32] slot. *)
Definition xb_builder_node_set_text_idx (bn : XbBuilderNode) (idx : Z) : XbBuilderNode :=
  MkBn (bn_element bn) (bn_text bn) (bn_attrs bn) (bn_flags bn)
       (bn_element_idx bn) idx (bn_offset bn).

(** Modelled from the spec: [xb_builder_node_set_offset]
    (xb-builder-node.c), a [guint32] slot. *)
Definition xb_builder_node_set_offset (bn : XbBuilderNode) (off : Z) : XbBuilderNode :=
  MkBn (bn_element bn) (bn_text bn) (bn_attrs bn) (bn_flags bn)
       (bn_element_idx bn) (bn_text_idx bn) (u32 off).

(** The attributes with new string-table offsets (the callbacks assign
    [attr->name_idx] and [attr->value_idx] in place). *)
Definition bn_set_attrs (bn : XbBuilderNode) (attrs : list XbBuilderNodeAttr) : XbBuilderNode :=
  MkBn (bn_element bn) (bn_text bn) attrs (bn_flags bn)
       (bn_element_idx bn) (bn_text_idx bn) (bn_offset bn).

(** Modelled from the spec: [xb_builder_node_size] (xb-builder-node.c), the
    size of the node record with its attribute records. The specification's
    [size_in_output] is this size less the four bytes that
    [xb_builder_nodetab_size_cb] takes off for a node without text. *)
Definition xb_builder_node_size `{cfg : SiloConfig} (bn : XbBuilderNode) : Z :=
  sizeof_XbSiloNode + Z.of_nat (length (bn_attrs bn)) * sizeof_XbSiloAttr.

(** The node objects live in a store, addressed by their identity; an
    object that the store does not hold reads as a zero-initialised one. *)
Abbreviation Store := (list XbBuilderNode).

#[local] Unset Elimination Schemes.

(** A reference to an [XbBuilderNode] object: its identity in the store and
    the references in its children array, which the builder only reads. *)
Inductive BNode := MkBNode {
  b_id : nat;
  b_children : list BNode
}.

(** ** The GNode tree of a compile *)

(** A [GNode]: [data] is [None] for the NULL data of the synthetic root,
    else the identity of the node object it points to. *)
Inductive GNode := MkGNode {
  g_data : option nat;
  g_children : list GNode
}.
#[local] Set Elimination Schemes.

(** A pointer to a [GNode] of the tree is the path of child indices that
    leads to it from the root; [helper->root] is the empty path. A pointer
    that may be NULL is an [option]. *)
Abbreviation GNodePtr := (list nat).

Fixpoint g_node_get (root : GNode) (p : GNodePtr) : option GNode :=
  match p with
  | [] => Some root
  | i :: p' => c ← g_children root !! i; g_node_get c p'
  end.

Fixpoint g_node_alter (f : GNode → GNode) (root : GNode) (p : GNodePtr) : option GNode :=
  match p with
  | [] => Some (f root)
  | i :: p' =>
      c ← g_children root !! i;
      c' ← g_node_alter f c p';
      Some (MkGNode (g_data root) (<[i := c']> (g_children root)))
  end.

(** [n->parent]: NULL for the root. *)
Definition g_node_parent (p : GNodePtr) : option GNodePtr :=
  match p with
  | [] => None
  | _ => Some (removelast p)
  end.

(** [g_node_append_data]: a new last child; the result is the tree and the
    pointer to the new node. *)
Definition g_node_append_data (root : GNode) (parent : GNodePtr)
    (data : option nat) : option (GNode * GNodePtr) :=
  n ← g_node_get root parent;
  root' ← g_node_alter
    (fun n => MkGNode (g_data n) (g_children n ++ [MkGNode data []]))
    root parent;
  Some (root', parent ++ [length (g_children n)]).

(** [xb_builder_compile_node_tree]: a new [GNode] under [parent] that points
    to the object [bn] itself ([g_object_ref]), then the same for the
    children of [bn] under the new node. *)
Fixpoint xb_builder_compile_node_tree (root : GNode) (parent : GNodePtr)
    (bn : BNode) {struct bn} : option GNode :=
  match bn with
  | MkBNode id children =>
      '(root1, n) ← g_node_append_data root parent (Some id);
      (fix loop (children : list BNode) (root : GNode) : option GNode :=
         match children with
         | [] => Some root
         | bn2 :: rest =>
             root' ← xb_builder_compile_node_tree root n bn2;
             loop rest root'
         end) children root1
  end.

(** ** The parser adapter *)

(** Modelled from the spec: the compile flags of xb-builder.h (section 6.2),
    one bit each. *)
Definition XB_BUILDER_COMPILE_FLAG_LITERAL_TEXT : Z := 1.

(** Modelled from the spec: the [NATIVE_LANGS] compile flag of xb-builder.h. *)
Definition XB_BUILDER_COMPILE_FLAG_NATIVE_LANGS : Z := 2.

(** Modelled from the spec: the [IGNORE_INVALID] compile flag of
    xb-builder.h. *)
Definition XB_BUILDER_COMPILE_FLAG_IGNORE_INVALID : Z := 4.

(** The C test [flags & flag]. *)
Definition flag_set (flags flag : Z) : bool := negb (Z.land flags flag =? 0).

Record XbBuilderCompileHelper := MkHelper {
  h_root : GNode;
  h_current : option GNodePtr;
  h_flags : Z;
  h_strtab_hash : gmap string Z;
  h_strtab : list ascii;
  h_info : option BNode;
  h_locales : list string
}.

Definition helper_set_tree (helper : XbBuilderCompileHelper) (root : GNode)
    (current : option GNodePtr) : XbBuilderCompileHelper :=
  MkHelper root current (h_flags helper) (h_strtab_hash helper)
           (h_strtab helper) (h_info helper) (h_locales helper).

Definition helper_set_info (helper : XbBuilderCompileHelper)
    (info : option BNode) : XbBuilderCompileHelper :=
  MkHelper (h_root helper) (h_current helper) (h_flags helper)
           (h_strtab_hash helper) (h_strtab helper) info (h_locales helper).

Definition helper_set_strtab (helper : XbBuilderCompileHelper)
    (hash : gmap string Z) (strtab : list ascii) : XbBuilderCompileHelper :=
  MkHelper (h_root helper) (h_current helper) (h_flags helper)
           hash strtab (h_info helper) (h_locales helper).

(** The callbacks return [None] where the C code dereferences a NULL
    [helper->current] or a pointer that is not in the tree. *)

(** The locale loop of the start-element callback, over the attributes. *)
Definition check_locale (locales : list string) (attrs : list (string * string))
    (bn : XbBuilderNode) : XbBuilderNode :=
  fold_left
    (fun bn (attr : string * string) =>
       if String.eqb (fst attr) "xml:lang" then
         if negb (g_strv_contains locales (snd attr))
         then xb_builder_node_add_flag bn XB_BUILDER_NODE_FLAG_IGNORE_CDATA
         else bn
       else bn)
    attrs bn.

Definition add_attributes (attrs : list (string * string))
    (bn : XbBuilderNode) : XbBuilderNode :=
  fold_left
    (fun bn (attr : string * string) =>
       xb_builder_node_add_attribute bn (fst attr) (snd attr))
    attrs bn.

(** The node object that [xb_builder_compile_start_element_cb] builds;
    [parent] is [helper->current->data]. *)
Definition start_element_node (helper : XbBuilderCompileHelper) (heap : Store)
    (parent : option nat) (element_name : string)
    (attrs : list (string * string)) : XbBuilderNode :=
  let bn := xb_builder_node_new element_name in
  (* parent node is being ignored *)
  let bn :=
    match parent with
    | Some pid =>
        if xb_builder_node_has_flag (heap !!! pid) XB_BUILDER_NODE_FLAG_IGNORE_CDATA
        then xb_builder_node_add_flag bn XB_BUILDER_NODE_FLAG_IGNORE_CDATA
        else bn
    | None => bn
    end in
  (* check if we should ignore the locale *)
  let bn :=
    if negb (xb_builder_node_has_flag bn XB_BUILDER_NODE_FLAG_IGNORE_CDATA)
       && flag_set (h_flags helper) XB_BUILDER_COMPILE_FLAG_NATIVE_LANGS
    then check_locale (h_locales helper) attrs bn
    else bn in
  (* add attributes *)
  if negb (xb_builder_node_has_flag bn XB_BUILDER_NODE_FLAG_IGNORE_CDATA)
  then add_attributes attrs bn
  else bn.

Definition xb_builder_compile_start_element_cb (element_name : string)
    (attrs : list (string * string))
    (helper : XbBuilderCompileHelper) (heap : Store)
    : option (XbBuilderCompileHelper * Store) :=
  current ← h_current helper;
  n ← g_node_get (h_root helper) current;
  let bn := start_element_node helper heap (g_data n) element_name attrs in
  '(root, current') ← g_node_append_data (h_root helper) current
                        (Some (length heap));
  Some (helper_set_tree helper root (Some current'), heap ++ [bn]).

Definition xb_builder_compile_end_element_cb (element_name : string)
    (helper : XbBuilderCompileHelper) (heap : Store)
    : option (XbBuilderCompileHelper * Store) :=
  current ← h_current helper;
  (* add info to root element to allow querying later *)
  root ← (if decide (g_node_parent current = Some []) then
            match h_info helper with
            | Some info => xb_builder_compile_node_tree (h_root helper) current info
            | None => Some (h_root helper)
            end
          else Some (h_root helper));
  Some (helper_set_tree helper root (g_node_parent current), heap).

Definition all_whitespace (text : string) : bool :=
  forallb g_ascii_isspace (list_ascii_of_string text).

(** At the synthetic root [bn] is NULL: the node accessors, which check
    their argument, then do nothing. *)
Definition xb_builder_compile_text_cb (text : string)
    (helper : XbBuilderCompileHelper) (heap : Store)
    : option (XbBuilderCompileHelper * Store) :=
  current ← h_current helper;
  n ← g_node_get (h_root helper) current;
  match g_data n with
  | None => Some (helper, heap)
  | Some id =>
      let bn := heap !!! id in
      if (String.length text =? 0)%nat then Some (helper, heap)
      else if xb_builder_node_has_flag bn XB_BUILDER_NODE_FLAG_IGNORE_CDATA
      then Some (helper, heap)
      else if all_whitespace text then Some (helper, heap)
      else
        let bn := if flag_set (h_flags helper) XB_BUILDER_COMPILE_FLAG_LITERAL_TEXT
                  then xb_builder_node_add_flag bn XB_BUILDER_NODE_FLAG_LITERAL_TEXT
                  else bn in
        Some (helper, <[id := xb_builder_node_set_text bn text]> heap)
  end.

(** What the GMarkup tokenizer reports while it is fed the stream. *)
Inductive XmlEvent :=
| StartElement (element_name : string) (attrs : list (string * string))
| EndElement (element_name : string)
| Text (text : string).

Definition parser_callback (ev : XmlEvent) (helper : XbBuilderCompileHelper)
    (heap : Store) : option (XbBuilderCompileHelper * Store) :=
  match ev with
  | StartElement name attrs => xb_builder_compile_start_element_cb name attrs helper heap
  | EndElement name => xb_builder_compile_end_element_cb name helper heap
  | Text text => xb_builder_compile_text_cb text helper heap
  end.

Fixpoint g_markup_parse_context_parse (events : list XmlEvent)
    (helper : XbBuilderCompileHelper) (heap : Store)
    : option (XbBuilderCompileHelper * Store) :=
  match events with
  | [] => Some (helper, heap)
  | ev :: rest =>
      '(helper', heap') ← parser_callback ev helper heap;
      g_markup_parse_context_parse rest helper' heap'
  end.

(** Modelled from the spec: an [XbBuilderImport] (xb-builder-import.c): its
    identity token, its optional info tree, and its byte stream, given by
    what reading and tokenizing it produces: the callbacks made, in order,
    and the error with which [g_input_stream_read] or
    [g_markup_parse_context_parse] stopped, if any. *)
Record XbBuilderImport := MkImport {
  imp_guid : string;
  imp_info : option BNode;
  imp_events : list XmlEvent;
  imp_error : option GError
}.

Definition mismatched_xml : GError :=
  MkGError "G_IO_ERROR" "G_IO_ERROR_INVALID_DATA" "Mismatched XML".

Definition xb_builder_compile_import (helper : XbBuilderCompileHelper)
    (heap : Store) (import : XbBuilderImport)
    : option (XbBuilderCompileHelper * Store * gresult unit) :=
  (* this is something we can query with later *)
  let helper := helper_set_info helper (imp_info import) in
  (* parse *)
  '(helper, heap) ← g_markup_parse_context_parse (imp_events import) helper heap;
  match imp_error import with
  | Some e => Some (helper, heap, GFail e)
  | None =>
      (* more opening than closing *)
      if decide (h_current helper = Some [])
      then Some (helper, heap, GOk tt)
      else Some (helper, heap, GFail mismatched_xml)
  end.

(** ** Traversals

    [g_node_traverse] calls back with a [GNode]; the callbacks read its
    data, its depth, the data of its parent and the data of its next
    sibling, which a visit records. The tree itself is not modified by the
    passes. *)
Record GNodeVisit := MkVisit {
  v_data : option nat;              (* n->data *)
  v_depth : Z;                      (* g_node_depth (n) *)
  v_parent : option (option nat);   (* n->parent, and its data *)
  v_next : option (option nat)      (* g_node_next_sibling (n), and its data *)
}.

Fixpoint pre_order (depth : Z) (parent next : option (option nat))
    (n : GNode) {struct n} : list GNodeVisit :=
  match n with
  | MkGNode data children =>
      MkVisit data depth parent next ::
      (fix siblings (cs : list GNode) : list GNodeVisit :=
         match cs with
         | [] => []
         | c :: rest =>
             pre_order (depth + 1) (Some data) (g_data <$> head rest) c
               ++ siblings rest
         end) children
  end.

(** [g_node_traverse (root, G_PRE_ORDER, G_TRAVERSE_ALL, -1, ...)]. *)
Definition g_node_traverse_pre_order (root : GNode) : list GNodeVisit :=
  pre_order 1 None None root.

Fixpoint g_node_max_height (n : GNode) : nat :=
  match n with
  | MkGNode _ children =>
      S (fold_right (fun c h => Nat.max (g_node_max_height c) h) O children)
  end.

Fixpoint level_data (level : nat) (n : GNode) : list (option nat) :=
  match level with
  | O => [g_data n]
  | S level' => flat_map (level_data level') (g_children n)
  end.

(** [g_node_traverse (root, G_LEVEL_ORDER, G_TRAVERSE_ALL, -1, ...)]: one
    level after the other, each from left to right. The string-table
    callbacks only read [n->data]. *)
Definition g_node_traverse_level_order (root : GNode) : list (option nat) :=
  flat_map (fun level => level_data level root)
           (seq 0 (g_node_max_height root)).

(** ** String-table passes *)

Abbreviation StrtabState := (gmap string Z * list ascii * Store)%type.

Definition live (heap : Store) (id : nat) : bool :=
  negb (xb_builder_node_has_flag (heap !!! id)
          XB_BUILDER_NODE_FLAG_IGNORE_CDATA).

Definition xb_builder_strtab_element_names_cb (st : StrtabState)
    (data : option nat) : StrtabState :=
  let '(hash, strtab, heap) := st in
  match data with
  | None => st
  | Some id =>
      if negb (live heap id) then st
      else
        let bn := heap !!! id in
        let '(idx, hash', strtab') :=
          xb_builder_compile_add_to_strtab hash strtab (bn_element bn) in
        (hash', strtab', <[id := xb_builder_node_set_element_idx bn idx]> heap)
  end.

(** The loop over the attributes of one node, interning [field attr] and
    storing the offset with [set]. *)
Fixpoint intern_attrs (field : XbBuilderNodeAttr → string)
    (set : XbBuilderNodeAttr → Z → XbBuilderNodeAttr)
    (attrs : list XbBuilderNodeAttr) (hash : gmap string Z)
    (strtab : list ascii)
    : list XbBuilderNodeAttr * gmap string Z * list ascii :=
  match attrs with
  | [] => ([], hash, strtab)
  | attr :: rest =>
      let '(idx, hash', strtab') :=
        xb_builder_compile_add_to_strtab hash strtab (field attr) in
      let '(rest', hash'', strtab'') :=
        intern_attrs field set rest hash' strtab' in
      (set attr idx :: rest', hash'', strtab'')
  end.

Definition attr_set_name_idx (attr : XbBuilderNodeAttr) (idx : Z) : XbBuilderNodeAttr :=
  MkAttr (attr_name attr) (attr_value attr) idx (value_idx attr).

Definition attr_set_value_idx (attr : XbBuilderNodeAttr) (idx : Z) : XbBuilderNodeAttr :=
  MkAttr (attr_name attr) (attr_value attr) (name_idx attr) idx.

Definition xb_builder_strtab_attr_name_cb (st : StrtabState)
    (data : option nat) : StrtabState :=
  let '(hash, strtab, heap) := st in
  match data with
  | None => st
  | Some id =>
      if negb (live heap id) then st
      else
        let bn := heap !!! id in
        let '(attrs, hash', strtab') :=
          intern_attrs attr_name attr_set_name_idx (bn_attrs bn) hash strtab in
        (hash', strtab', <[id := bn_set_attrs bn attrs]> heap)
  end.

Definition xb_builder_strtab_attr_value_cb (st : StrtabState)
    (data : option nat) : StrtabState :=
  let '(hash, strtab, heap) := st in
  match data with
  | None => st
  | Some id =>
      if negb (live heap id) then st
      else
        let bn := heap !!! id in
        let '(attrs, hash', strtab') :=
          intern_attrs attr_value attr_set_value_idx (bn_attrs bn) hash strtab in
        (hash', strtab', <[id := bn_set_attrs bn attrs]> heap)
  end.

Definition xb_builder_strtab_text_cb (st : StrtabState)
    (data : option nat) : StrtabState :=
  let '(hash, strtab, heap) := st in
  match data with
  | None => st
  | Some id =>
      if negb (live heap id) then st
      else
        let bn := heap !!! id in
        match bn_text bn with
        | None => st
        | Some tmp =>
            let '(idx, hash', strtab') :=
              xb_builder_compile_add_to_strtab hash strtab tmp in
            (hash', strtab', <[id := xb_builder_node_set_text_idx bn idx]> heap)
        end
  end.

(** ** Node-table passes *)

Record XbSiloHeader := MkHeader {
  hdr_magic : Z;
  hdr_version : Z;
  hdr_strtab : Z;
  hdr_strtab_ntags : Z;
  hdr_guid : list Z
}.

Record XbSiloNode := MkSiloNode {
  sn_is_node : bool;
  sn_has_text : bool;
  sn_nr_attrs : Z;
  sn_element_name : Z;
  sn_next : Z;
  sn_parent : Z;
  sn_text : Z
}.

Record XbSiloAttr := MkSiloAttr {
  sa_attr_name : Z;
  sa_attr_value : Z
}.

(** The output buffer is the sequence of the records appended to it; the
    bytes of a record are determined by the layout, of which only the sizes
    matter here. *)
Inductive SiloChunk :=
| ChunkHeader (hdr : XbSiloHeader)
| ChunkNode (sn : XbSiloNode)
| ChunkAttr (attr : XbSiloAttr)
| ChunkStrtab (bytes : list ascii).

(** The number of bytes that the builder appends for a record: a node
    without text is written without its last [guint32], a sentinel with
    [xb_silo_node_get_size]. *)
Definition chunk_size `{cfg : SiloConfig} (c : SiloChunk) : Z :=
  match c with
  | ChunkHeader _ => sizeof_XbSiloHeader
  | ChunkNode sn =>
      if sn_is_node sn then
        if sn_has_text sn then sizeof_XbSiloNode else sizeof_XbSiloNode - 4
      else sizeof_sentinel
  | ChunkAttr _ => sizeof_XbSiloAttr
  | ChunkStrtab bytes => Z.of_nat (length bytes)
  end.

(** A sentinel is a node record with [is_node] unset. *)
Definition is_sentinel (c : SiloChunk) : bool :=
  match c with
  | ChunkNode sn => negb (sn_is_node sn)
  | _ => false
  end.

(** [buf->len]. *)
Definition buf_len `{cfg : SiloConfig} (buf : list SiloChunk) : Z :=
  fold_right (fun c n => chunk_size c + n) 0 buf.

Definition xb_builder_nodetab_size_cb `{cfg : SiloConfig} (heap : Store) (sz : Z)
    (n : GNodeVisit) : Z :=
  match v_data n with
  | None => sz
  | Some id =>
      if negb (live heap id) then sz
      else
        let bn := heap !!! id in
        (* +1 for the sentinel *)
        let sz := u32 (sz + (xb_builder_node_size bn + 1)) in
        match bn_text bn with
        | None => u32 (sz - 4)
        | Some _ => sz
        end
  end.

Record XbBuilderNodetabHelper := MkNodetab {
  nt_buf : list SiloChunk;
  nt_level : Z
}.

Definition sentinel : XbSiloNode := MkSiloNode false false 0 0 0 0 0.

Definition xb_builder_nodetab_write_sentinel (helper : XbBuilderNodetabHelper)
    : XbBuilderNodetabHelper :=
  MkNodetab (nt_buf helper ++ [ChunkNode sentinel]) (nt_level helper).

(** The node record, then one record for each attribute; the offset of the
    node record is saved in the node object. *)
Definition xb_builder_nodetab_write_node `{cfg : SiloConfig}
    (helper : XbBuilderNodetabHelper) (heap : Store) (id : nat)
    : XbBuilderNodetabHelper * Store :=
  let bn := heap !!! id in
  let attrs := bn_attrs bn in
  let sn := MkSiloNode true (bool_decide (bn_text bn ≠ None))
              (Z.of_nat (length attrs)) (bn_element_idx bn) 0 0
              (bn_text_idx bn) in
  let heap := <[id := xb_builder_node_set_offset bn (buf_len (nt_buf helper))]> heap in
  (MkNodetab
     (nt_buf helper ++ ChunkNode sn
        :: map (fun ba => ChunkAttr (MkSiloAttr (name_idx ba) (value_idx ba))) attrs)
     (nt_level helper),
   heap).

(** The loop [for (guint i = helper->level; i >= depth; i--)] runs
    [level - depth + 1] times when [level >= depth] and not at all
    otherwise; the depth of a [GNode] is at least one. *)
Definition xb_builder_nodetab_write_cb `{cfg : SiloConfig}
    (st : XbBuilderNodetabHelper * Store) (n : GNodeVisit)
    : XbBuilderNodetabHelper * Store :=
  let '(helper, heap) := st in
  match v_data n with
  | None => st
  | Some id =>
      if negb (live heap id) then st
      else
        let depth := v_depth n in
        let helper :=
          Nat.iter (Z.to_nat (nt_level helper - depth + 1))
                   xb_builder_nodetab_write_sentinel helper in
        let '(helper, heap) := xb_builder_nodetab_write_node helper heap id in
        (MkNodetab (nt_buf helper) depth, heap)
  end.

(** [xb_builder_get_node] followed by an assignment through the pointer:
    the node record that starts at byte [off] of the buffer is changed by
    [f]. [pos] is the offset of the first record of [buf]. *)
Fixpoint buf_alter_node `{cfg : SiloConfig} (f : XbSiloNode → XbSiloNode) (off : Z)
    (pos : Z) (buf : list SiloChunk) : list SiloChunk :=
  match buf with
  | [] => []
  | c :: rest =>
      match c with
      | ChunkNode sn =>
          if pos =? off then ChunkNode (f sn) :: rest
          else c :: buf_alter_node f off (pos + chunk_size c) rest
      | _ => c :: buf_alter_node f off (pos + chunk_size c) rest
      end
  end.

(** The node record that starts at byte [off], if there is one. *)
Fixpoint xb_builder_get_node `{cfg : SiloConfig} (off : Z) (pos : Z)
    (buf : list SiloChunk) : option XbSiloNode :=
  match buf with
  | [] => None
  | c :: rest =>
      match c with
      | ChunkNode sn =>
          if pos =? off then Some sn
          else xb_builder_get_node off (pos + chunk_size c) rest
      | _ => xb_builder_get_node off (pos + chunk_size c) rest
      end
  end.

Definition sn_set_parent (parent : Z) (sn : XbSiloNode) : XbSiloNode :=
  MkSiloNode (sn_is_node sn) (sn_has_text sn) (sn_nr_attrs sn)
             (sn_element_name sn) (sn_next sn) parent (sn_text sn).

Definition sn_set_next (next : Z) (sn : XbSiloNode) : XbSiloNode :=
  MkSiloNode (sn_is_node sn) (sn_has_text sn) (sn_nr_attrs sn)
             (sn_element_name sn) next (sn_parent sn) (sn_text sn).

(** Modelled from the spec: [xb_builder_node_get_offset]
    (xb-builder-node.c), on a pointer that may be NULL (the data of the
    synthetic root). *)
Definition xb_builder_node_get_offset (heap : Store) (data : option nat) : Z :=
  match data with
  | Some id => bn_offset (heap !!! id)
  | None => 0
  end.

Definition xb_builder_nodetab_fix_cb `{cfg : SiloConfig} (heap : Store)
    (buf : list SiloChunk) (n : GNodeVisit) : list SiloChunk :=
  match v_data n with
  | None => buf
  | Some id =>
      if negb (live heap id) then buf
      else
        (* get the position in the buffer *)
        let off := bn_offset (heap !!! id) in
        (* set the parent if the node has one *)
        let buf :=
          match v_parent n with
          | Some (Some id2) =>
              buf_alter_node
                (sn_set_parent (xb_builder_node_get_offset heap (Some id2)))
                off 0 buf
          | _ => buf
          end in
        (* set ->next if the node has one *)
        match v_next n with
        | Some data2 =>
            buf_alter_node (sn_set_next (xb_builder_node_get_offset heap data2))
                           off 0 buf
        | None => buf
        end
  end.

(** ** The silo and the builder *)

(** Modelled from the spec: an [XbSilo] (xb-silo.c), as far as the builder
    looks at it: the blob it is bound to and the GUID read from the header
    of that blob; both are unset in a silo that was never loaded. *)
Record XbSilo := MkSilo {
  silo_blob : option (list SiloChunk);
  silo_guid : option string
}.

(** Modelled from the spec: [xb_silo_new] (xb-silo.c). *)
Definition xb_silo_new : XbSilo := MkSilo None None.

(** Modelled from the spec: [xb_silo_load_from_bytes] (xb-silo.c): a blob is
    accepted when it starts with a header that has the magic and the version
    (section 6.3: [BadMagic], [BadVersion], and [InvalidData] for a truncated
    blob); the silo is then bound to the blob, and its GUID is the [guid]
    field of the header, unparsed. A refused blob leaves the silo as it
    was. *)
Definition xb_silo_load_from_bytes `{cfg : SiloConfig} (self : XbSilo)
    (blob : list SiloChunk) : gresult XbSilo :=
  match blob with
  | ChunkHeader hdr :: _ =>
      if negb (hdr_magic hdr =? XB_SILO_MAGIC_BYTES) then
        GFail (MkGError "G_IO_ERROR" "G_IO_ERROR_INVALID_DATA" "magic incorrect")
      else if negb (hdr_version hdr =? XB_SILO_VERSION) then
        GFail (MkGError "G_IO_ERROR" "G_IO_ERROR_INVALID_DATA" "version incorrect")
      else GOk (MkSilo (Some blob) (Some (uuid_unparse (hdr_guid hdr))))
  | _ => GFail (MkGError "G_IO_ERROR" "G_IO_ERROR_INVALID_DATA" "blob too small")
  end.

Record XbBuilder := MkBuilder {
  b_imports : list XbBuilderImport;
  b_nodes : list BNode;
  b_silo : XbSilo;
  b_guid : string
}.

(** [xb_builder_new] and [xb_builder_init]. *)
Definition xb_builder_new : XbBuilder := MkBuilder [] [] xb_silo_new "".

Definition builder_set_silo (self : XbBuilder) (silo : XbSilo) : XbBuilder :=
  MkBuilder (b_imports self) (b_nodes self) silo (b_guid self).

(** [xb_builder_import_xml] and [xb_builder_import_file], once the import
    object has been created. *)
Definition xb_builder_import (self : XbBuilder) (import : XbBuilderImport) : XbBuilder :=
  MkBuilder (b_imports self ++ [import]) (b_nodes self) (b_silo self)
            (xb_builder_append_guid (b_guid self) (imp_guid import)).

(** [xb_builder_import_node]. *)
Definition xb_builder_import_node (self : XbBuilder) (bn : BNode) : XbBuilder :=
  MkBuilder (b_imports self) (b_nodes self ++ [bn]) (b_silo self) (b_guid self).

(** ** Compile *)

(** The loop of [xb_builder_compile] that builds the node tree. *)
Fixpoint compile_imports (flags : Z) (imports : list XbBuilderImport)
    (helper : XbBuilderCompileHelper) (heap : Store)
    : option (XbBuilderCompileHelper * Store * gresult unit) :=
  match imports with
  | [] => Some (helper, heap, GOk tt)
  | import :: rest =>
      (* don't allow damaged XML files to ruin all the next ones *)
      let helper := helper_set_tree helper (h_root helper) (Some []) in
      '(helper, heap, r) ← xb_builder_compile_import helper heap import;
      match r with
      | GOk _ => compile_imports flags rest helper heap
      | GFail error_local =>
          if flag_set flags XB_BUILDER_COMPILE_FLAG_IGNORE_INVALID
          then compile_imports flags rest helper heap
          else Some (helper, heap,
                     GFail (g_propagate_prefixed_error error_local
                              ("failed to compile " +:+ imp_guid import +:+ ": ")))
      end
  end.

(** The loop that adds the manually built nodes under the root. *)
Fixpoint compile_nodes (nodes : list BNode) (root : GNode) : option GNode :=
  match nodes with
  | [] => Some root
  | bn :: rest =>
      root' ← xb_builder_compile_node_tree root [] bn;
      compile_nodes rest root'
  end.

(** The [guid] field of the header: left zero when the accumulator is
    empty. *)
Definition compile_guid `{cfg : SiloConfig} (guid_acc : string) : list Z :=
  if (0 <? String.length guid_acc)%nat
  then _uuid_generate_sha1 uuid_clear (bytes_of_string guid_acc)
  else repeat 0 16.

(** What the passes of [xb_builder_compile] produce from the node tree:
    the blob and the store. *)
Definition compile_tree `{cfg : SiloConfig} (guid_acc : string) (root : GNode)
    (heap : Store) : list SiloChunk * Store :=
  (* get the size of the nodetab *)
  let nodetabsz :=
    fold_left (xb_builder_nodetab_size_cb heap)
              (g_node_traverse_pre_order root) (u32 sizeof_XbSiloHeader) in
  (* add element names, attr name, attr value, then text to the strtab *)
  let st := fold_left xb_builder_strtab_element_names_cb
              (g_node_traverse_level_order root) (∅, [], heap) in
  let strtab_ntags := Z.of_nat (size (fst (fst st))) in
  let st := fold_left xb_builder_strtab_attr_name_cb
              (g_node_traverse_level_order root) st in
  let st := fold_left xb_builder_strtab_attr_value_cb
              (g_node_traverse_level_order root) st in
  let '(_, strtab, heap) :=
    fold_left xb_builder_strtab_text_cb
              (g_node_traverse_level_order root) st in
  (* add the initial header *)
  let hdr := MkHeader XB_SILO_MAGIC_BYTES XB_SILO_VERSION nodetabsz
               strtab_ntags (compile_guid guid_acc) in
  let buf := [ChunkHeader hdr] in
  (* write nodes to the nodetab *)
  let '(nodetab_helper, heap) :=
    fold_left xb_builder_nodetab_write_cb (g_node_traverse_pre_order root)
              (MkNodetab buf 0, heap) in
  let nodetab_helper :=
    Nat.iter (Z.to_nat (nt_level nodetab_helper - 1))
             xb_builder_nodetab_write_sentinel nodetab_helper in
  (* set all the ->next and ->parent offsets *)
  let buf := fold_left (xb_builder_nodetab_fix_cb heap)
               (g_node_traverse_pre_order root) (nt_buf nodetab_helper) in
  (* append the string table *)
  (buf ++ [ChunkStrtab strtab], heap).

(** [xb_builder_compile]; [locales] is what [g_get_language_names] returns
    when the compile starts. The result is [None] where the C code would
    dereference NULL. *)
Definition xb_builder_compile `{cfg : SiloConfig} (locales : list string)
    (self : XbBuilder) (flags : Z) (heap : Store)
    : option (XbBuilder * Store * gresult XbSilo) :=
  (* create helper used for compiling *)
  let helper := MkHelper (MkGNode None []) None flags ∅ [] None locales in
  (* build node tree *)
  '(helper, heap, r) ← compile_imports flags (b_imports self) helper heap;
  match r with
  | GFail e => Some (self, heap, GFail e)
  | GOk _ =>
      (* add any manually build nodes *)
      root ← compile_nodes (b_nodes self) (h_root helper);
      let '(blob, heap) := compile_tree (b_guid self) root heap in
      (* create data *)
      match xb_silo_load_from_bytes (b_silo self) blob with
      | GFail e => Some (self, heap, GFail e)
      | GOk silo => Some (builder_set_silo self silo, heap, GOk silo)
      end
  end.

(** ** Ensure *)

(** [xb_builder_generate_guid]: always hashes, also an empty accumulator. *)
Definition xb_builder_generate_guid `{cfg : SiloConfig} (self : XbBuilder) : string :=
  uuid_unparse (_uuid_generate_sha1 uuid_clear (bytes_of_string (b_guid self))).

(** The file system, as far as ensure uses it: the blobs stored under the
    paths that can be read, and whether writing fails. *)
Record World := MkWorld {
  w_files : gmap string (list SiloChunk);
  w_readonly : bool
}.

(** What a call did besides computing its result, in order. *)
Inductive Effect :=
| EffCompile
| EffSave (file : string) (blob : list SiloChunk).

(** Modelled from the spec: [xb_silo_load_from_file] (xb-silo.c): reads the
    file and loads its bytes; a file that cannot be read is an error. *)
Definition xb_silo_load_from_file `{cfg : SiloConfig} (self : XbSilo) (file : string)
    (world : World) : gresult XbSilo :=
  match w_files world !! file with
  | None => GFail (MkGError "G_IO_ERROR" "G_IO_ERROR_NOT_FOUND" "no such file")
  | Some blob => xb_silo_load_from_bytes self blob
  end.

(** Modelled from the spec: [xb_silo_save_to_file] (xb-silo.c): writes the
    blob of the silo to the file, or fails with an I/O error. *)
Definition xb_silo_save_to_file (self : XbSilo) (file : string)
    (world : World) : gresult World :=
  match silo_blob self with
  | None => GFail (MkGError "G_IO_ERROR" "G_IO_ERROR_NOT_INITIALIZED" "no data to save")
  | Some blob =>
      if w_readonly world
      then GFail (MkGError "G_IO_ERROR" "G_IO_ERROR_FAILED" "failed to write")
      else GOk (MkWorld (<[file := blob]> (w_files world)) (w_readonly world))
  end.

(** The result of [xb_builder_ensure]: the builder, the store, the file
    system, what was done, and the silo or the error. *)
Abbreviation EnsureResult :=
  (XbBuilder * Store * World * list Effect * gresult XbSilo)%type.

(** The fallback of [xb_builder_ensure]: create a new file. *)
Definition ensure_fallback `{cfg : SiloConfig} (locales : list string)
    (self : XbBuilder) (file : string) (flags : Z) (heap : Store)
    (world : World) : option EnsureResult :=
  '(self', heap', r) ← xb_builder_compile locales self flags heap;
  match r with
  | GFail e => Some (self', heap', world, [EffCompile], GFail e)
  | GOk silo_new =>
      match xb_silo_save_to_file silo_new file world with
      | GFail e => Some (self', heap', world, [EffCompile], GFail e)
      | GOk world' =>
          Some (self', heap', world',
                [EffCompile; EffSave file (default [] (silo_blob silo_new))],
                GOk silo_new)
      end
  end.

(** [xb_builder_ensure]; [g_strcmp0] compares GUIDs that may be NULL. *)
Definition xb_builder_ensure `{cfg : SiloConfig} (locales : list string)
    (self : XbBuilder) (file : string) (flags : Z) (heap : Store)
    (world : World) : option EnsureResult :=
  (* load the file and peek at the GUIDs *)
  match xb_silo_load_from_file xb_silo_new file world with
  | GFail error_local => ensure_fallback locales self file flags heap world
  | GOk silo_tmp =>
      let guid := xb_builder_generate_guid self in
      (* GUIDs match exactly with the thing that's already loaded *)
      if decide (silo_guid silo_tmp = silo_guid (b_silo self))
      then Some (self, heap, world, [], GOk (b_silo self))
      (* reload the cached silo with the new file data *)
      else if decide (silo_guid silo_tmp = Some guid)
      then
        blob ← silo_blob silo_tmp;
        match xb_silo_load_from_bytes (b_silo self) blob with
        | GFail e => Some (self, heap, world, [], GFail e)
        | GOk silo => Some (builder_set_silo self silo, heap, world, [], GOk silo)
        end
      else ensure_fallback locales self file flags heap world
  end.

(** ** Example configurations

    The field widths of section 6.1 of the specification (a 32-byte header,
    an 18-byte node record, an 8-byte attribute record) and the one-byte
    sentinel that the size pass counts; with and without libuuid. *)
Definition example_config : SiloConfig := {|
  sizeof_XbSiloHeader := 32;
  sizeof_XbSiloNode := 18;
  sizeof_XbSiloAttr := 8;
  sizeof_sentinel := 1;
  XB_SILO_MAGIC_BYTES := 1213420376;
  XB_SILO_VERSION := 1;
  HAVE_UUID_GENERATE_SHA1 := true
|}.

Definition example_config_no_libuuid : SiloConfig := {|
  sizeof_XbSiloHeader := 32;
  sizeof_XbSiloNode := 18;
  sizeof_XbSiloAttr := 8;
  sizeof_sentinel := 1;
  XB_SILO_MAGIC_BYTES := 1213420376;
  XB_SILO_VERSION := 1;
  HAVE_UUID_GENERATE_SHA1 := false
|}.

(** ** Example inputs *)

(** [<r><x xml:lang="en">hi</x><x xml:lang="fr">bonjour</x>
    <x xml:lang="en">yo</x></r>], as the tokenizer reports it. *)
Definition langs_import : XbBuilderImport :=
  MkImport "langs.xml" None
    [StartElement "r" [];
     StartElement "x" [("xml:lang", "en")]; Text "hi"; EndElement "x";
     StartElement "x" [("xml:lang", "fr")]; Text "bonjour"; EndElement "x";
     StartElement "x" [("xml:lang", "en")]; Text "yo"; EndElement "x";
     EndElement "r"]
    None.

(** An info tree [<info><filename>f.xml</filename></info>]: two node
    objects, with identities 0 and 1 in [info_store]. *)
Definition info_tree : BNode := MkBNode 0 [MkBNode 1 []].

Definition info_store : Store :=
  [xb_builder_node_new "info";
   xb_builder_node_set_text (xb_builder_node_new "filename") "f.xml"].

(** [<r xml:lang="fr"/>], imported with the info tree. *)
Definition foreign_root_import : XbBuilderImport :=
  MkImport "fr.xml" (Some info_tree)
    [StartElement "r" [("xml:lang", "fr")]; EndElement "r"]
    None.

(** [<a/>], imported with the info tree. *)
Definition plain_import : XbBuilderImport :=
  MkImport "a.xml" (Some info_tree)
    [StartElement "a" []; EndElement "a"]
    None.

(** [<a><b>hello</b></a>] (scenario S1 of the specification). *)
Definition hello_import : XbBuilderImport :=
  MkImport "hello.xml" None
    [StartElement "a" []; StartElement "b" []; Text "hello";
     EndElement "b"; EndElement "a"]
    None.

(** [<r><x xml:lang="fr">bonjour</x><x xml:lang="en">hi</x></r>]
    (scenario S2 of the specification). *)
Definition bonjour_import : XbBuilderImport :=
  MkImport "bonjour.xml" None
    [StartElement "r" [];
     StartElement "x" [("xml:lang", "fr")]; Text "bonjour"; EndElement "x";
     StartElement "x" [("xml:lang", "en")]; Text "hi"; EndElement "x";
     EndElement "r"]
    None.

(** The tree and the store that the parser builds for [hello_import]. *)
Definition hello_root : GNode :=
  MkGNode None [MkGNode (Some 0%nat) [MkGNode (Some 1%nat) []]].

Definition hello_store : Store :=
  [xb_builder_node_new "a";
   xb_builder_node_set_text (xb_builder_node_new "b") "hello"].

(** [<b/>], imported with the same info tree as [plain_import]. *)
Definition second_plain_import : XbBuilderImport :=
  MkImport "b.xml" (Some info_tree)
    [StartElement "b" []; EndElement "b"]
    None.

(** The node records, the sentinels and the strings of a blob. *)
Definition blob_nodes (blob : list SiloChunk) : list XbSiloNode :=
  flat_map (fun c => match c with
                     | ChunkNode sn => if sn_is_node sn then [sn] else []
                     | _ => []
                     end) blob.

Definition blob_header (blob : list SiloChunk) : option XbSiloHeader :=
  match blob with
  | ChunkHeader hdr :: _ => Some hdr
  | _ => None
  end.

Definition blob_strtab (blob : list SiloChunk) : list ascii :=
  flat_map (fun c => match c with
                     | ChunkStrtab bytes => bytes
                     | _ => []
                     end) blob.

(** The blob that a compile returns, empty when it fails. *)
Definition compiled_blob `{cfg : SiloConfig} (locales : list string)
    (self : XbBuilder) (flags : Z) (heap : Store) : list SiloChunk :=
  match xb_builder_compile locales self flags heap with
  | Some (_, _, GOk silo) => default [] (silo_blob silo)
  | _ => []
  end.

(** ** Predicates and measures used in the statements *)

(** Every recorded offset is the position of its string in the table,
    where the string is followed by a NUL. *)
Definition strtab_inv (hash : gmap string Z) (strtab : list ascii) : Prop :=
  ∀ s o, hash !! s = Some o →
    ∃ pre post,
      strtab = pre ++ list_ascii_of_string s ++ NUL :: post
      ∧ o = Z.of_nat (length pre).

(** [root'] has every node of [root], at the same place and with the same
    data: nodes are only ever added. *)
Definition grows (root root' : GNode) : Prop :=
  ∀ q n, g_node_get root q = Some n →
    ∃ n', g_node_get root' q = Some n' ∧ g_data n' = g_data n.

(** The size that the size pass computes for a tree. *)
Definition nodetab_size `{cfg : SiloConfig} (root : GNode) (heap : Store) : Z :=
  fold_left (xb_builder_nodetab_size_cb heap)
            (g_node_traverse_pre_order root) (u32 sizeof_XbSiloHeader).

(** The number of elements that are open after the events, from [depth]
    open elements; [None] when an element is closed that was not open (the
    tokenizer reports an end tag only for the element that is open). *)
Fixpoint open_depth (depth : nat) (events : list XmlEvent) : option nat :=
  match events with
  | [] => Some depth
  | StartElement _ _ :: rest => open_depth (S depth) rest
  | EndElement _ :: rest =>
      match depth with
      | O => None
      | S depth' => open_depth depth' rest
      end
  | Text _ :: rest => open_depth depth rest
  end.

(** The cursor of the helper points to the node at [p] of its tree. *)
Definition cursor_at (helper : XbBuilderCompileHelper) (p : GNodePtr) : Prop :=
  h_current helper = Some p ∧ is_Some (g_node_get (h_root helper) p).

(** The callbacks only change the tree and the cursor of the helper. *)
Definition same_settings (helper helper' : XbBuilderCompileHelper) : Prop :=
  h_flags helper' = h_flags helper
  ∧ h_info helper' = h_info helper
  ∧ h_locales helper' = h_locales helper
  ∧ h_strtab_hash helper' = h_strtab_hash helper
  ∧ h_strtab helper' = h_strtab helper.

(** What a node object holds apart from its transient compile slots: tag,
    text, attribute names and values in order, and flags. *)
Definition bn_content (bn : XbBuilderNode)
    : string * option string * list (string * string) * Z :=
  (bn_element bn, bn_text bn,
   map (fun attr => (attr_name attr, attr_value attr)) (bn_attrs bn),
   bn_flags bn).

(** The identities of the objects of a node tree. *)
Fixpoint bnode_ids (bn : BNode) : list nat :=
  match bn with
  | MkBNode id children => id :: flat_map bnode_ids children
  end.

(** The [GNode] tree that mirrors a node tree: each [GNode] points to the
    object of the node tree itself. *)
Fixpoint gnode_of_bnode (bn : BNode) : GNode :=
  match bn with
  | MkBNode id children => MkGNode (Some id) (map gnode_of_bnode children)
  end.

(** Every node on the way from the root (excluded) to [p] points to an
    object that the parser allocated, that is with an identity from [n0]
    on. *)
Definition fresh_path (n0 : nat) (root : GNode) (p : GNodePtr) : Prop :=
  ∀ q r, p = q ++ r → q ≠ [] →
    ∃ n id, g_node_get root q = Some n ∧ g_data n = Some id ∧ (n0 ≤ id)%nat.

(** The state of the parser while it builds the tree over a store that
    held [n0] objects when the compile started. *)
Definition parse_inv (n0 : nat) (helper : XbBuilderCompileHelper)
    (heap : Store) : Prop :=
  (n0 ≤ length heap)%nat
  ∧ g_data (h_root helper) = None
  ∧ ∀ p, h_current helper = Some p →
      is_Some (g_node_get (h_root helper) p) ∧ fresh_path n0 (h_root helper) p.

(** The objects of the store keep their content. *)
Definition content_kept (heap heap' : Store) : Prop :=
  length heap' = length heap
  ∧ ∀ id, bn_content (heap' !!! id) = bn_content (heap !!! id).

(** The visits of a list of siblings, as [pre_order] makes them. *)
Fixpoint pre_order_forest (depth : Z) (parent : option (option nat))
    (cs : list GNode) : list GNodeVisit :=
  match cs with
  | [] => []
  | c :: rest =>
      pre_order depth parent (g_data <$> head rest) c
        ++ pre_order_forest depth parent rest
  end.

(** A node is written to the node table when it has a node object that is
    not ignored. *)
Definition emitted (heap : Store) (data : option nat) : bool :=
  match data with
  | Some id => live heap id
  | None => false
  end.

(** The bytes of the records of a node: its node record, four bytes
    shorter without text, and its attribute records. *)
Definition node_bytes `{cfg : SiloConfig} (heap : Store) (data : option nat) : Z :=
  match data with
  | Some id =>
      let bn := heap !!! id in
      (match bn_text bn with
       | Some _ => sizeof_XbSiloNode
       | None => sizeof_XbSiloNode - 4
       end)
      + Z.of_nat (length (bn_attrs bn)) * sizeof_XbSiloAttr
  | None => 0
  end.

(** Over a traversal: the bytes of the nodes written, their number, the
    number of sentinels that the write callback emits from [level], and the
    level it ends with. *)
Fixpoint bytes_written `{cfg : SiloConfig} (heap : Store)
    (visits : list GNodeVisit) : Z :=
  match visits with
  | [] => 0
  | v :: rest =>
      (if emitted heap (v_data v) then node_bytes heap (v_data v) else 0)
      + bytes_written heap rest
  end.

Fixpoint count_emitted (heap : Store) (visits : list GNodeVisit) : nat :=
  match visits with
  | [] => O
  | v :: rest =>
      ((if emitted heap (v_data v) then 1 else 0) + count_emitted heap rest)%nat
  end.

Fixpoint sentinels_written (heap : Store) (level : Z)
    (visits : list GNodeVisit) : nat :=
  match visits with
  | [] => O
  | v :: rest =>
      if emitted heap (v_data v)
      then (Z.to_nat (level - v_depth v + 1)
            + sentinels_written heap (v_depth v) rest)%nat
      else sentinels_written heap level rest
  end.

Fixpoint level_after (heap : Store) (level : Z)
    (visits : list GNodeVisit) : Z :=
  match visits with
  | [] => level
  | v :: rest =>
      if emitted heap (v_data v) then level_after heap (v_depth v) rest
      else level_after heap level rest
  end.

(** Every node written is at depth two or more, and at most one level
    below the node written before it. *)
Fixpoint depth_chain (heap : Store) (level : Z)
    (visits : list GNodeVisit) : Prop :=
  match visits with
  | [] => True
  | v :: rest =>
      if emitted heap (v_data v)
      then 2 ≤ v_depth v ≤ Z.max level 1 + 1
           ∧ depth_chain heap (v_depth v) rest
      else depth_chain heap level rest
  end.

(** No node of the subtree is written. *)
Fixpoint none_emitted (heap : Store) (n : GNode) : bool :=
  match n with
  | MkGNode data children =>
      negb (emitted heap data) && forallb (none_emitted heap) children
  end.

(** Below a node that is not written, no node is written. *)
Fixpoint live_closed (heap : Store) (n : GNode) : bool :=
  match n with
  | MkGNode data children =>
      if emitted heap data then forallb (live_closed heap) children
      else forallb (none_emitted heap) children
  end.

(** The sizes of the layout are sensible: a node record is longer than the
    text offset that may be left out, and a sentinel is not empty. *)
Definition layout_ok `{cfg : SiloConfig} : Prop :=
  0 ≤ sizeof_XbSiloHeader ∧ 4 < sizeof_XbSiloNode
  ∧ 0 ≤ sizeof_XbSiloAttr ∧ 0 < sizeof_sentinel.

(** The offsets at which the node records and sentinels of a buffer
    start; [pos] is the offset of its first record. *)
Fixpoint node_positions `{cfg : SiloConfig} (pos : Z)
    (buf : list SiloChunk) : list Z :=
  match buf with
  | [] => []
  | c :: rest =>
      match c with
      | ChunkNode _ => pos :: node_positions (pos + chunk_size c) rest
      | _ => node_positions (pos + chunk_size c) rest
      end
  end.

(** The identities of the nodes written, in the order of the traversal. *)
Fixpoint emitted_ids (heap : Store) (visits : list GNodeVisit) : list nat :=
  match visits with
  | [] => []
  | v :: rest =>
      match v_data v with
      | Some id =>
          if live heap id then id :: emitted_ids heap rest
          else emitted_ids heap rest
      | None => emitted_ids heap rest
      end
  end.

(** What the fix-up callback assigns to the [parent] and [next] fields of
    the record of a visited node; a field that it does not assign keeps the
    zero that the write pass put there. *)
Definition fixed_parent (heap : Store) (n : GNodeVisit) : Z :=
  match v_parent n with
  | Some (Some id2) => bn_offset (heap !!! id2)
  | _ => 0
  end.

Definition fixed_next (heap : Store) (n : GNodeVisit) : Z :=
  match v_next n with
  | Some data2 => xb_builder_node_get_offset heap data2
  | None => 0
  end.

(** The state of the write pass once it has written the nodes [ids]: the
    offset slot of each holds the offset of its own record, whose [parent]
    and [next] fields are still zero, and no two of the nodes share an
    offset. *)
Definition written_inv `{cfg : SiloConfig} (buf : list SiloChunk)
    (heap : Store) (ids : list nat) : Prop :=
  (∀ id, id ∈ ids →
     ∃ sn, xb_builder_get_node (bn_offset (heap !!! id)) 0 buf = Some sn
           ∧ sn_is_node sn = true ∧ sn_parent sn = 0 ∧ sn_next sn = 0)
  ∧ (∀ id1 id2, id1 ∈ ids → id2 ∈ ids →
       bn_offset (heap !!! id1) = bn_offset (heap !!! id2) → id1 = id2).

(** The record of a visited node after its fix-up. *)
Definition fix_record (heap : Store) (n : GNodeVisit) (sn : XbSiloNode) : XbSiloNode :=
  let sn :=
    match v_parent n with
    | Some (Some id2) => sn_set_parent (bn_offset (heap !!! id2)) sn
    | _ => sn
    end in
  match v_next n with
  | Some data2 => sn_set_next (xb_builder_node_get_offset heap data2) sn
  | None => sn
  end.

(** ** Definitions used by the further properties *)

(** The tokens that leave a trace in the accumulator:
    [xb_builder_append_guid] tests the length of the accumulator, not
    whether a token was appended before, so the empty tokens that come
    first are not separated from what follows. *)
Fixpoint skip_empty (tokens : list string) : list string :=
  match tokens with
  | "" :: rest => skip_empty rest
  | _ => tokens
  end.

(** The strings of a sequence in the order of their first occurrence,
    without those in [seen]. *)
Fixpoint first_occurrences (seen : list string) (strs : list string)
    : list string :=
  match strs with
  | [] => []
  | s :: rest =>
      if decide (s ∈ seen) then first_occurrences seen rest
      else s :: first_occurrences (s :: seen) rest
  end.

(** The bytes that the interner appends for a new string. *)
Definition strtab_entry (s : string) : list ascii :=
  list_ascii_of_string s ++ [NUL].

(** The events of an import never close an element that is not open. *)
Definition well_nested (import : XbBuilderImport) : Prop :=
  is_Some (open_depth 0 (imp_events import)).

(** The identities of the objects that the nodes of a tree point to, in
    pre-order. *)
Fixpoint gnode_ids (n : GNode) : list nat :=
  match n with
  | MkGNode data children =>
      match data with
      | Some id => [id]
      | None => []
      end ++ flat_map gnode_ids children
  end.

(** A subtree as the start-element callback builds it over a store that
    held [n0] objects when the compile started: every node points to an
    object that the parser allocated, and a node under an ignored node is
    ignored; [parent_live] tells whether the parent is written. *)
Fixpoint parsed_ok (heap : Store) (n0 : nat) (parent_live : bool)
    (n : GNode) : bool :=
  match n with
  | MkGNode data children =>
      match data with
      | None => false
      | Some id =>
          (n0 <=? id)%nat && (id <? length heap)%nat
          && (parent_live || negb (live heap id))
          && forallb (parsed_ok heap n0 (live heap id)) children
      end
  end.

(** The tree that the parser has built so far from imports without an info
    tree, over a store that held [n0] objects when the compile started. *)
Definition parsed_tree (n0 : nat) (heap : Store) (root : GNode) : Prop :=
  (n0 ≤ length heap)%nat
  ∧ g_data root = None
  ∧ forallb (parsed_ok heap n0 true) (g_children root) = true
  ∧ NoDup (gnode_ids root).

(** A manually built node tree whose objects are in the store and in which
    no live node lies under an ignored one. *)
Definition manual_node_ok (heap : Store) (bn : BNode) : Prop :=
  Forall (fun id => (id < length heap)%nat) (bnode_ids bn)
  ∧ live_closed heap (gnode_of_bnode bn) = true.

(** The helper that [xb_builder_compile] creates. *)
Definition compile_helper_new (flags : Z) (locales : list string)
    : XbBuilderCompileHelper :=
  MkHelper (MkGNode None []) None flags ∅ [] None locales.

(** The tags of the nodes of a traversal that are written, in its order. *)
Definition live_tags (heap : Store) (datas : list (option nat)) : list string :=
  flat_map
    (fun data =>
       match data with
       | Some id => if live heap id then [bn_element (heap !!! id)] else []
       | None => []
       end)
    datas.

(** The state of the string-table passes of [xb_builder_compile] after the
    first one, and after the last one. *)
Definition strtab_tags_pass (root : GNode) (heap : Store) : StrtabState :=
  fold_left xb_builder_strtab_element_names_cb
            (g_node_traverse_level_order root) (∅, [], heap).

Definition strtab_passes (root : GNode) (heap : Store) : StrtabState :=
  fold_left xb_builder_strtab_text_cb (g_node_traverse_level_order root)
    (fold_left xb_builder_strtab_attr_value_cb (g_node_traverse_level_order root)
       (fold_left xb_builder_strtab_attr_name_cb (g_node_traverse_level_order root)
          (strtab_tags_pass root heap))).

(** ** Importing files and directories *)

(** [g_str_has_suffix]: false when the string is shorter than the suffix,
    else the comparison of its end with the suffix. *)
Definition g_str_has_suffix (str suffix : string) : bool :=
  let str_len := String.length str in
  let suffix_len := String.length suffix in
  if (str_len <? suffix_len)%nat then false
  else String.eqb (substring (str_len - suffix_len) suffix_len str) suffix.

(** The test of [xb_builder_import_dir] on a name of the directory. *)
Definition is_xml_name (fn : string) : bool :=
  g_str_has_suffix fn ".xml" || g_str_has_suffix fn ".xml.gz".

Section ImportFiles.

(** The constructor of an import from a file belongs to
    xb-builder-import.c, and the directory is read through GLib: what they
    return is a parameter here. [g_dir_open] gives the names that
    [g_dir_read_name] returns, in its order, or the error. *)
Variable xb_builder_import_new_file :
  string → option BNode → gresult XbBuilderImport.
Variable g_dir_open : string → gresult (list string).
Variable g_build_filename : string → string → string.

(** [xb_builder_import_file]: the builder is left as it was when the import
    cannot be created. *)
Definition xb_builder_import_file (self : XbBuilder) (file : string)
    (info : option BNode) : XbBuilder * gresult unit :=
  (* add import *)
  match xb_builder_import_new_file file info with
  | GFail e => (self, GFail e)
  | GOk import =>
      (* success *)
      (xb_builder_import self import, GOk tt)
  end.

(** The loop of [xb_builder_import_dir] over the names of the directory. *)
Fixpoint import_dir_names (self : XbBuilder) (path : string)
    (info : option BNode) (names : list string) : XbBuilder * gresult unit :=
  match names with
  | [] => (self, GOk tt)
  | fn :: rest =>
      if is_xml_name fn then
        let filename := g_build_filename path fn in
        match xb_builder_import_file self filename info with
        | (self', GFail e) => (self', GFail e)
        | (self', GOk _) => import_dir_names self' path info rest
        end
      else import_dir_names self path info rest
  end.

(** [xb_builder_import_dir]. *)
Definition xb_builder_import_dir (self : XbBuilder) (path : string)
    (info : option BNode) : XbBuilder * gresult unit :=
  match g_dir_open path with
  | GFail e => (self, GFail e)
  | GOk names => import_dir_names self path info names
  end.

End ImportFiles.

(** The node record that [xb_builder_nodetab_write_node] writes for a node
    object, and its attribute records. *)
Definition node_record (bn : XbBuilderNode) : XbSiloNode :=
  MkSiloNode true (bool_decide (bn_text bn ≠ None))
             (Z.of_nat (length (bn_attrs bn))) (bn_element_idx bn) 0 0
             (bn_text_idx bn).

Definition attr_records (bn : XbBuilderNode) : list SiloChunk :=
  map (fun ba => ChunkAttr (MkSiloAttr (name_idx ba) (value_idx ba)))
      (bn_attrs bn).

(** What the write callback appends over a traversal, from [level]. *)
Fixpoint written_chunks (heap : Store) (level : Z)
    (visits : list GNodeVisit) : list SiloChunk :=
  match visits with
  | [] => []
  | v :: rest =>
      match v_data v with
      | Some id =>
          if live heap id then
            repeat (ChunkNode sentinel) (Z.to_nat (level - v_depth v + 1))
            ++ ChunkNode (node_record (heap !!! id))
            :: attr_records (heap !!! id)
            ++ written_chunks heap (v_depth v) rest
          else written_chunks heap level rest
      | None => written_chunks heap level rest
      end
  end.

(** The stores agree but for the offset slots of their objects. *)
Definition same_but_offset (heap heap' : Store) : Prop :=
  length heap' = length heap
  ∧ ∀ id, xb_builder_node_set_offset (heap' !!! id) 0
          = xb_builder_node_set_offset (heap !!! id) 0.

(** A record without the links that the fix-up pass assigns. *)
Definition strip_links (c : SiloChunk) : SiloChunk :=
  match c with
  | ChunkNode sn => ChunkNode (sn_set_next 0 (sn_set_parent 0 sn))
  | _ => c
  end.

(** Reading the node table front to back: a node record opens an element
    and a sentinel closes the element that is open. [depth_walk depth buf]
    is the number of elements open after [buf], from [depth] open elements,
    and [None] when a sentinel comes while no element is open. *)
Fixpoint depth_walk (depth : nat) (buf : list SiloChunk) : option nat :=
  match buf with
  | [] => Some depth
  | ChunkNode sn :: rest =>
      if sn_is_node sn then depth_walk (S depth) rest
      else match depth with
           | O => None
           | S depth' => depth_walk depth' rest
           end
  | _ :: rest => depth_walk depth rest
  end.










(** ** Documents

    A well-formed piece of XML, as the tokenizer walks it: text, or an
    element with its attributes and its content in document order. *)
#[local] Unset Elimination Schemes.
Inductive XmlNode :=
| XmlText (text : string)
| XmlElement (name : string) (attrs : list (string * string))
             (content : list XmlNode).
#[local] Set Elimination Schemes.

(** The callbacks that the tokenizer makes for a piece of XML. *)
Fixpoint xml_events (x : XmlNode) : list XmlEvent :=
  match x with
  | XmlText text => [Text text]
  | XmlElement name attrs content =>
      StartElement name attrs :: flat_map xml_events content
        ++ [EndElement name]
  end.

(** The number of elements of a piece of XML. *)
Fixpoint xml_size (x : XmlNode) : nat :=
  match x with
  | XmlText _ => O
  | XmlElement _ _ content => S (list_sum (map xml_size content))
  end.

(** The node object of an element as [xb_builder_compile_start_element_cb]
    makes it, given whether the parent is ignored. *)
Definition element_object (flags : Z) (locales : list string)
    (parent_ignored : bool) (name : string) (attrs : list (string * string))
    : XbBuilderNode :=
  let bn := xb_builder_node_new name in
  let bn := if parent_ignored
            then xb_builder_node_add_flag bn XB_BUILDER_NODE_FLAG_IGNORE_CDATA
            else bn in
  let bn :=
    if negb (xb_builder_node_has_flag bn XB_BUILDER_NODE_FLAG_IGNORE_CDATA)
       && flag_set flags XB_BUILDER_COMPILE_FLAG_NATIVE_LANGS
    then check_locale locales attrs bn
    else bn in
  if negb (xb_builder_node_has_flag bn XB_BUILDER_NODE_FLAG_IGNORE_CDATA)
  then add_attributes attrs bn
  else bn.

(** What [xb_builder_compile_text_cb] does to the node object of the open
    element. *)
Definition text_update (flags : Z) (bn : XbBuilderNode) (text : string)
    : XbBuilderNode :=
  if (String.length text =? 0)%nat then bn
  else if xb_builder_node_has_flag bn XB_BUILDER_NODE_FLAG_IGNORE_CDATA then bn
  else if all_whitespace text then bn
  else
    xb_builder_node_set_text
      (if flag_set flags XB_BUILDER_COMPILE_FLAG_LITERAL_TEXT
       then xb_builder_node_add_flag bn XB_BUILDER_NODE_FLAG_LITERAL_TEXT
       else bn)
      text.

(** The node object of an element after the text chunks that are directly
    in its content: each chunk that counts replaces the text. *)
Definition apply_texts (flags : Z) (content : list XmlNode)
    (bn : XbBuilderNode) : XbBuilderNode :=
  fold_left
    (fun bn x =>
       match x with
       | XmlText text => text_update flags bn text
       | XmlElement _ _ _ => bn
       end)
    content bn.

(** The node objects of the elements of a piece of XML, in document
    order. *)
Fixpoint xml_objects (flags : Z) (locales : list string)
    (parent_ignored : bool) (x : XmlNode) : list XbBuilderNode :=
  match x with
  | XmlText _ => []
  | XmlElement name attrs content =>
      let bn := element_object flags locales parent_ignored name attrs in
      apply_texts flags content bn
      :: flat_map
           (xml_objects flags locales
              (xb_builder_node_has_flag bn XB_BUILDER_NODE_FLAG_IGNORE_CDATA))
           content
  end.

(** The [GNode] tree of a piece of XML whose elements have the identities
    [first], [first + 1], ... in document order; [graft] is what is put
    after the children of the element (the info tree, at the top level). *)
Fixpoint xml_gnode (graft : list GNode) (first : nat) (x : XmlNode)
    : list GNode :=
  match x with
  | XmlText _ => []
  | XmlElement _ _ content =>
      [MkGNode (Some first)
         ((fix siblings (first : nat) (cs : list XmlNode) : list GNode :=
             match cs with
             | [] => []
             | c :: rest =>
                 xml_gnode [] first c ++ siblings (first + xml_size c)%nat rest
             end) (S first) content
          ++ graft)]
  end.

Fixpoint xml_gnodes (first : nat) (cs : list XmlNode) : list GNode :=
  match cs with
  | [] => []
  | c :: rest => xml_gnode [] first c ++ xml_gnodes (first + xml_size c)%nat rest
  end.

(** The info tree of the import, mirrored. *)
Definition info_graft (info : option BNode) : list GNode :=
  match info with
  | Some bn => [gnode_of_bnode bn]
  | None => []
  end.

(** The text chunks directly in the content of an element that the text
    callback does not drop: neither empty nor all white space. *)
Definition significant_texts (content : list XmlNode) : list string :=
  flat_map
    (fun x =>
       match x with
       | XmlText text =>
           if (String.length text =? 0)%nat || all_whitespace text then []
           else [text]
       | XmlElement _ _ _ => []
       end)
    content.

(** The number of start tags among the callbacks of a stream. *)
Fixpoint count_starts (events : list XmlEvent) : nat :=
  match events with
  | [] => O
  | StartElement _ _ :: rest => S (count_starts rest)
  | _ :: rest => count_starts rest
  end.

(** * Properties *)

(** FIPS 180-4 test vectors: the empty message, ["abc"], and a message of
    two blocks. *)
Example sha1_empty :
  Sha1.digest [] =
  [218; 57; 163; 238; 94; 107; 75; 13; 50; 85;
   191; 239; 149; 96; 24; 144; 175; 216; 7; 9].
Proof. vm_compute. reflexivity. Qed.

Example sha1_abc :
  Sha1.digest (bytes_of_string "abc") =
  [169; 153; 62; 54; 71; 6; 129; 106; 186; 62;
   37; 113; 120; 80; 194; 108; 156; 208; 216; 157].
Proof. vm_compute. reflexivity. Qed.

Example sha1_two_blocks :
  Sha1.digest
    (bytes_of_string "abcdbcdecdefdefgefghfghighijhijkijkljklmklmnlmnomnopnopq") =
  [132; 152; 62; 68; 28; 59; 210; 110; 186; 174;
   74; 161; 249; 81; 41; 229; 229; 70; 112; 241].
Proof. vm_compute. reflexivity. Qed.

(** ** The string interner *)

Lemma c_string_app (s post : list ascii) :
  NUL ∉ s → c_string (s ++ NUL :: post) = s.
Proof.
  induction s as [|c s IH]; intros Hnul; simpl.
  - reflexivity.
  - destruct (Ascii.eqb c NUL) eqn:E.
    + apply Ascii.eqb_eq in E. subst c. exfalso. apply Hnul. left.
    + f_equal. apply IH. intros Hin. apply Hnul. by right.
Qed.

Lemma strtab_inv_read hash strtab s o :
  strtab_inv hash strtab → is_c_string s → hash !! s = Some o →
  xb_silo_from_strtab strtab o = list_ascii_of_string s.
Proof.
  intros Hinv Hc Hs. destruct (Hinv s o Hs) as (pre & post & -> & ->).
  unfold xb_silo_from_strtab. rewrite Nat2Z.id, drop_app_length.
  by apply c_string_app.
Qed.

Lemma add_to_strtab_length hash strtab str :
  (length strtab ≤
   length (snd (xb_builder_compile_add_to_strtab hash strtab str)))%nat.
Proof.
  unfold xb_builder_compile_add_to_strtab.
  destruct (hash !! str); simpl; [lia|]. rewrite length_app. lia.
Qed.

Lemma add_to_strtab_inv hash strtab str :
  strtab_inv hash strtab →
  Z.of_nat (length strtab) < 4294967296 →
  strtab_inv (snd (fst (xb_builder_compile_add_to_strtab hash strtab str)))
             (snd (xb_builder_compile_add_to_strtab hash strtab str)).
Proof.
  intros Hinv Hlen. unfold xb_builder_compile_add_to_strtab.
  destruct (hash !! str) eqn:E; simpl; [exact Hinv|].
  intros s o Hs. destruct (decide (str = s)) as [->|Hne].
  - rewrite lookup_insert_eq in Hs. injection Hs as <-.
    exists strtab, []. split; [reflexivity|].
    unfold u32. rewrite Z.mod_small; lia.
  - rewrite lookup_insert_ne in Hs by done.
    destruct (Hinv s o Hs) as (pre & post & -> & ->).
    exists pre, (post ++ list_ascii_of_string str ++ [NUL]). split; [|done].
    by rewrite <- !app_assoc.
Qed.

Lemma intern_all_cons str strs hash strtab :
  intern_all (str :: strs) (hash, strtab) =
  intern_all strs
    (snd (fst (xb_builder_compile_add_to_strtab hash strtab str)),
     snd (xb_builder_compile_add_to_strtab hash strtab str)).
Proof.
  unfold intern_all. simpl.
  by destruct (xb_builder_compile_add_to_strtab hash strtab str) as [[? ?] ?].
Qed.

Lemma intern_all_length strs hash strtab :
  (length strtab ≤ length (snd (intern_all strs (hash, strtab))))%nat.
Proof.
  revert hash strtab. induction strs as [|str strs IH]; intros hash strtab.
  - reflexivity.
  - rewrite intern_all_cons.
    etrans; [apply (add_to_strtab_length hash strtab str)|apply IH].
Qed.

Lemma intern_all_inv strs hash strtab :
  strtab_inv hash strtab →
  Z.of_nat (length (snd (intern_all strs (hash, strtab)))) < 4294967296 →
  strtab_inv (fst (intern_all strs (hash, strtab)))
             (snd (intern_all strs (hash, strtab))).
Proof.
  revert hash strtab. induction strs as [|str strs IH]; intros hash strtab.
  - intros Hinv _. exact Hinv.
  - rewrite intern_all_cons. intros Hinv Hlen.
    pose proof (add_to_strtab_length hash strtab str) as Hle.
    pose proof (intern_all_length strs
      (snd (fst (xb_builder_compile_add_to_strtab hash strtab str)))
      (snd (xb_builder_compile_add_to_strtab hash strtab str))) as Hle'.
    apply IH; [|exact Hlen]. apply add_to_strtab_inv; [exact Hinv|lia].
Qed.

Lemma intern_all_keys strs hash strtab s :
  Forall is_c_string strs → (∀ k, is_Some (hash !! k) → is_c_string k) →
  is_Some (fst (intern_all strs (hash, strtab)) !! s) → is_c_string s.
Proof.
  revert hash strtab. induction strs as [|str strs IH]; intros hash strtab.
  - intros _ Hk Hs. by apply Hk.
  - intros Hall Hk. apply Forall_cons_1 in Hall as [Hstr Hall].
    rewrite intern_all_cons.
    unfold xb_builder_compile_add_to_strtab.
    destruct (hash !! str) eqn:E; simpl.
    + by apply IH.
    + apply IH; [done|]. intros k Hsome.
      destruct (decide (str = k)) as [<-|Hne]; [done|].
      rewrite lookup_insert_ne in Hsome by done. by apply Hk.
Qed.

(** C7. The interner deduplicates: a string interned before comes back with
    its recorded offset and the table untouched; a new string is appended
    with its NUL at the end of the table and that offset is recorded; and in
    the table built by any sequence of interned C strings, the strings read
    at two distinct recorded offsets differ. *)
Theorem C7_strtab_dedup (strs : list string) :
  Forall is_c_string strs →
  let hash := fst (intern_all strs (∅, [])) in
  let strtab := snd (intern_all strs (∅, [])) in
  Z.of_nat (length strtab) < 4294967296 →
  (∀ s o, hash !! s = Some o →
     xb_builder_compile_add_to_strtab hash strtab s = (o, hash, strtab))
  ∧ (∀ s, hash !! s = None →
     xb_builder_compile_add_to_strtab hash strtab s =
       (Z.of_nat (length strtab),
        <[s := Z.of_nat (length strtab)]> hash,
        strtab ++ list_ascii_of_string s ++ [NUL]))
  ∧ (∀ s1 s2 o1 o2, hash !! s1 = Some o1 → hash !! s2 = Some o2 →
     o1 ≠ o2 →
     xb_silo_from_strtab strtab o1 = list_ascii_of_string s1
     ∧ xb_silo_from_strtab strtab o2 = list_ascii_of_string s2
     ∧ xb_silo_from_strtab strtab o1 ≠ xb_silo_from_strtab strtab o2).
Proof.
  intros Hall hash strtab Hlen.
  assert (Hinv : strtab_inv hash strtab).
  { apply intern_all_inv; [|exact Hlen]. intros s o Hs.
    by rewrite lookup_empty in Hs. }
  assert (Hkeys : ∀ s, is_Some (hash !! s) → is_c_string s).
  { intros s. apply intern_all_keys; [done|]. intros k Hk.
    rewrite lookup_empty in Hk. by destruct Hk. }
  split; [|split].
  - intros s o Hs. unfold xb_builder_compile_add_to_strtab. by rewrite Hs.
  - intros s Hs. unfold xb_builder_compile_add_to_strtab. rewrite Hs.
    unfold u32. rewrite Z.mod_small by lia. reflexivity.
  - intros s1 s2 o1 o2 H1 H2 Hne.
    assert (R1 := strtab_inv_read hash strtab s1 o1 Hinv (Hkeys s1 (mk_is_Some _ _ H1)) H1).
    assert (R2 := strtab_inv_read hash strtab s2 o2 Hinv (Hkeys s2 (mk_is_Some _ _ H2)) H2).
    split; [exact R1|]. split; [exact R2|].
    rewrite R1, R2. intros Heq. apply Hne.
    assert (s1 = s2) as ->.
    { rewrite <- (string_of_list_ascii_of_string s1),
              <- (string_of_list_ascii_of_string s2). by rewrite Heq. }
    congruence.
Qed.

Lemma C7_strtab_dedup_witness :
  let strs := ["a"; "b"; "a"; "hello"; "b"] in
  let hash := fst (intern_all strs (∅, [])) in
  let strtab := snd (intern_all strs (∅, [])) in
  strtab = list_ascii_of_string "a" ++ NUL :: list_ascii_of_string "b"
           ++ NUL :: list_ascii_of_string "hello" ++ [NUL]
  ∧ (∀ s1 s2 o1 o2, hash !! s1 = Some o1 → hash !! s2 = Some o2 →
     o1 ≠ o2 →
     xb_silo_from_strtab strtab o1 = list_ascii_of_string s1
     ∧ xb_silo_from_strtab strtab o2 = list_ascii_of_string s2
     ∧ xb_silo_from_strtab strtab o1 ≠ xb_silo_from_strtab strtab o2).
Proof.
  split; [vm_compute; reflexivity|].
  refine (proj2 (proj2 (C7_strtab_dedup ["a"; "b"; "a"; "hello"; "b"] _ _))).
  - repeat constructor; vm_compute; intros Hin;
      repeat (inversion Hin as [|? ? ? Hin']; subst; clear Hin; rename Hin' into Hin).
  - vm_compute. reflexivity.
Defined.

(** ** The GUID accumulator *)

Lemma string_append_assoc (s1 s2 s3 : string) :
  (s1 +:+ s2) +:+ s3 = s1 +:+ (s2 +:+ s3).
Proof.
  induction s1 as [|c s1 IH]; [reflexivity|].
  change (String c ((s1 +:+ s2) +:+ s3) = String c (s1 +:+ (s2 +:+ s3))).
  by rewrite IH.
Qed.

(** The [guid] field for the accumulator ["u&v"], with libuuid (a version 5
    UUID in the zero namespace) and without (the head of the plain SHA-1). *)
Example compile_guid_libuuid :
  compile_guid (cfg := example_config) "u&v"
  = [65; 68; 102; 8; 203; 63; 83; 137; 171; 123; 113; 217; 202; 74; 46; 120].
Proof. vm_compute. reflexivity. Qed.

Example compile_guid_no_libuuid :
  compile_guid (cfg := example_config_no_libuuid) "u&v"
  = [152; 161; 114; 149; 74; 196; 48; 139; 131; 196; 187; 147; 253; 131;
     226; 7].
Proof. vm_compute. reflexivity. Qed.

Example uuid_unparse_example :
  uuid_unparse (compile_guid (cfg := example_config) "u&v")
  = "41446608-cb3f-5389-ab7b-71d9ca4a2e78".
Proof. vm_compute. reflexivity. Qed.

(** C6. A token is appended after an ["&"] exactly when the accumulator is
    not empty; imports ["u"] then ["v"] give the accumulator ["u&v"], the
    other order gives ["v&u"], and the [guid] field that compile computes
    from the accumulator differs between the two. *)
Theorem C6_append_guid_order `{cfg : SiloConfig}
    (info_u info_v : option BNode) (events_u events_v : list XmlEvent)
    (error_u error_v : option GError) :
  let import_u := MkImport "u" info_u events_u error_u in
  let import_v := MkImport "v" info_v events_v error_v in
  (∀ acc token,
     xb_builder_append_guid acc token =
       if decide (acc = "") then token else acc +:+ "&" +:+ token)
  ∧ b_guid (xb_builder_import (xb_builder_import xb_builder_new import_u) import_v)
    = "u&v"
  ∧ b_guid (xb_builder_import (xb_builder_import xb_builder_new import_v) import_u)
    = "v&u"
  ∧ compile_guid "u&v" ≠ compile_guid "v&u".
Proof.
  intros import_u import_v. split; [|split; [|split]].
  - intros acc token. unfold xb_builder_append_guid.
    destruct acc as [|c acc]; case_decide; try done.
    change (0 <? String.length (String c acc))%nat with true. cbv iota.
    by rewrite string_append_assoc.
  - reflexivity.
  - reflexivity.
  - unfold compile_guid, _uuid_generate_sha1.
    destruct HAVE_UUID_GENERATE_SHA1; vm_compute; discriminate.
Qed.

(** ** Pointers into the GNode tree *)

Lemma grows_refl root : grows root root.
Proof. intros q n Hq. eauto. Qed.

Lemma grows_trans r1 r2 r3 : grows r1 r2 → grows r2 r3 → grows r1 r3.
Proof.
  intros H12 H23 q n Hq. destruct (H12 q n Hq) as (n2 & Hq2 & Hd2).
  destruct (H23 q n2 Hq2) as (n3 & Hq3 & Hd3). exists n3. split; congruence.
Qed.

Lemma grows_valid root root' p :
  grows root root' → is_Some (g_node_get root p) → is_Some (g_node_get root' p).
Proof. intros Hg [n Hn]. destruct (Hg p n Hn) as (n' & Hn' & _). eauto. Qed.

Lemma g_node_get_app root p q :
  g_node_get root (p ++ q) = n ← g_node_get root p; g_node_get n q.
Proof.
  revert root. induction p as [|i p IH]; intros root; simpl; [done|].
  destruct (g_children root !! i); simpl; [apply IH|done].
Qed.

(** Appending children to the node at [p] keeps every node in place. *)
Lemma g_node_alter_append (cs : list GNode) root p n :
  g_node_get root p = Some n →
  ∃ root',
    g_node_alter (fun n => MkGNode (g_data n) (g_children n ++ cs)) root p
      = Some root'
    ∧ grows root root'
    ∧ g_node_get root' p = Some (MkGNode (g_data n) (g_children n ++ cs)).
Proof.
  revert root. induction p as [|i p IH]; intros root Hp; simpl in *.
  - injection Hp as ->. eexists. split; [reflexivity|]. split; [|reflexivity].
    intros q m Hq. destruct q as [|j q]; simpl in *.
    + injection Hq as <-. eauto.
    + destruct (g_children n !! j) as [c|] eqn:Hj; [|done]. simpl in Hq.
      rewrite (lookup_app_l_Some _ _ _ _ Hj). simpl. eauto.
  - destruct (g_children root !! i) as [c|] eqn:Hi; [|done]. simpl in *.
    destruct (IH c Hp) as (c' & Hc' & Hgrow & Hget). rewrite Hc'. simpl.
    eexists. split; [reflexivity|]. split.
    + intros q m Hq. destruct q as [|j q]; simpl in *.
      * injection Hq as <-. eauto.
      * destruct (decide (i = j)) as [<-|Hne].
        -- rewrite Hi in Hq. simpl in Hq.
           rewrite list_lookup_insert_eq by (by eapply lookup_lt_Some). simpl.
           by apply Hgrow.
        -- rewrite list_lookup_insert_ne by done.
           destruct (g_children root !! j); [|done]. simpl in *. eauto.
    + simpl. rewrite list_lookup_insert_eq by (by eapply lookup_lt_Some).
      simpl. exact Hget.
Qed.

Lemma g_node_append_data_spec root parent data n :
  g_node_get root parent = Some n →
  ∃ root',
    g_node_append_data root parent data
      = Some (root', parent ++ [length (g_children n)])
    ∧ grows root root'
    ∧ g_node_get root' parent
      = Some (MkGNode (g_data n) (g_children n ++ [MkGNode data []]))
    ∧ g_node_get root' (parent ++ [length (g_children n)])
      = Some (MkGNode data []).
Proof.
  intros Hn. unfold g_node_append_data. rewrite Hn. simpl.
  destruct (g_node_alter_append [MkGNode data []] root parent n Hn)
    as (root' & Halter & Hgrow & Hget).
  rewrite Halter. simpl. exists root'. split; [done|]. split; [done|].
  split; [done|]. rewrite g_node_get_app, Hget. simpl.
  rewrite lookup_app_r by lia. by rewrite Nat.sub_diag.
Qed.

Lemma BNode_ind (P : BNode → Prop) :
  (∀ id children, Forall P children → P (MkBNode id children)) →
  ∀ bn, P bn.
Proof.
  intros Hstep. fix IH 1. intros [id children]. apply Hstep.
  induction children as [|c cs IHcs]; constructor; [apply IH|exact IHcs].
Qed.

(** Grafting a node tree under a node of the tree always succeeds, and
    keeps every node in place. *)
Lemma xb_builder_compile_node_tree_grows bn :
  ∀ root parent, is_Some (g_node_get root parent) →
  ∃ root', xb_builder_compile_node_tree root parent bn = Some root'
           ∧ grows root root'.
Proof.
  induction bn as [id children IH] using BNode_ind.
  intros root parent [n Hn]. simpl.
  destruct (g_node_append_data_spec root parent (Some id) n Hn)
    as (root1 & -> & Hgrow1 & _ & Hnew). simpl.
  set (p := parent ++ [length (g_children n)]) in *.
  assert (Hp : is_Some (g_node_get root1 p)) by eauto.
  clear Hnew Hn. revert root1 Hgrow1 Hp.
  induction IH as [|c cs Hc _ IHcs]; intros root1 Hgrow1 Hp.
  - eauto.
  - destruct (Hc root1 p Hp) as (root2 & -> & Hgrow2). simpl.
    apply IHcs; [by eapply grows_trans; [exact Hgrow1|]|].
    by eapply grows_valid.
Qed.

Lemma compile_nodes_grows nodes :
  ∀ root, ∃ root', compile_nodes nodes root = Some root' ∧ grows root root'.
Proof.
  induction nodes as [|bn rest IH]; intros root; simpl.
  - eauto using grows_refl.
  - destruct (xb_builder_compile_node_tree_grows bn root [])
      as (root1 & -> & Hg1); [by eexists|]. simpl.
    destruct (IH root1) as (root2 & -> & Hg2).
    eauto using grows_trans.
Qed.

(** ** The shape of the blob *)

Lemma iter_write_sentinel k helper :
  Nat.iter k xb_builder_nodetab_write_sentinel helper =
  MkNodetab (nt_buf helper ++ repeat (ChunkNode sentinel) k) (nt_level helper).
Proof.
  induction k as [|k IH]; simpl.
  - rewrite app_nil_r. by destruct helper.
  - rewrite IH. unfold xb_builder_nodetab_write_sentinel. simpl.
    by rewrite <- app_assoc, <- repeat_cons.
Qed.

(** The write pass only appends to the buffer. *)
Lemma write_cb_appends `{cfg : SiloConfig} st n :
  ∃ suffix,
    nt_buf (fst (xb_builder_nodetab_write_cb st n)) = nt_buf (fst st) ++ suffix.
Proof.
  destruct st as [helper heap]. unfold xb_builder_nodetab_write_cb.
  destruct (v_data n) as [id|]; [|exists []; by rewrite app_nil_r].
  destruct (negb (live heap id)); [exists []; by rewrite app_nil_r|].
  rewrite iter_write_sentinel. unfold xb_builder_nodetab_write_node. simpl.
  rewrite <- app_assoc. eauto.
Qed.

Lemma write_pass_appends `{cfg : SiloConfig} visits st :
  ∃ suffix,
    nt_buf (fst (fold_left xb_builder_nodetab_write_cb visits st))
    = nt_buf (fst st) ++ suffix.
Proof.
  revert st. induction visits as [|n visits IH]; intros st; simpl.
  - exists []. by rewrite app_nil_r.
  - destruct (IH (xb_builder_nodetab_write_cb st n)) as (s2 & ->).
    destruct (write_cb_appends st n) as (s1 & ->).
    rewrite <- app_assoc. eauto.
Qed.

(** The fix-up pass leaves the header in place. *)
Lemma buf_alter_node_header `{cfg : SiloConfig} f off pos hdr rest :
  buf_alter_node f off pos (ChunkHeader hdr :: rest) =
  ChunkHeader hdr :: buf_alter_node f off (pos + sizeof_XbSiloHeader) rest.
Proof. reflexivity. Qed.

Lemma fix_cb_header `{cfg : SiloConfig} heap hdr rest n :
  ∃ rest', xb_builder_nodetab_fix_cb heap (ChunkHeader hdr :: rest) n
           = ChunkHeader hdr :: rest'.
Proof.
  unfold xb_builder_nodetab_fix_cb.
  destruct (v_data n) as [id|]; [|eauto].
  destruct (negb (live heap id)); [eauto|].
  destruct (v_parent n) as [[id2|]|], (v_next n) as [data2|];
    rewrite ?buf_alter_node_header; eauto.
Qed.

Lemma fix_pass_header `{cfg : SiloConfig} heap visits hdr rest :
  ∃ rest', fold_left (xb_builder_nodetab_fix_cb heap) visits
             (ChunkHeader hdr :: rest)
           = ChunkHeader hdr :: rest'.
Proof.
  revert rest. induction visits as [|n visits IH]; intros rest; simpl.
  - eauto.
  - destruct (fix_cb_header heap hdr rest n) as (rest1 & ->). apply IH.
Qed.

(** The blob starts with the header, whose [strtab] field is the result of
    the size pass and whose [guid] field is computed from the accumulator. *)
Lemma compile_tree_header `{cfg : SiloConfig} guid_acc root heap :
  ∃ hdr rest,
    fst (compile_tree guid_acc root heap) = ChunkHeader hdr :: rest
    ∧ hdr_magic hdr = XB_SILO_MAGIC_BYTES
    ∧ hdr_version hdr = XB_SILO_VERSION
    ∧ hdr_strtab hdr = nodetab_size root heap
    ∧ hdr_guid hdr = compile_guid guid_acc.
Proof.
  unfold compile_tree.
  set (st3 := fold_left xb_builder_strtab_text_cb _ _).
  destruct st3 as [[hash strtab] heap1].
  set (hdr := MkHeader _ _ _ _ _).
  destruct (write_pass_appends (g_node_traverse_pre_order root)
              (MkNodetab [ChunkHeader hdr] 0, heap1)) as (suffix & Hbuf).
  destruct (fold_left xb_builder_nodetab_write_cb _ _) as [helper heap2].
  simpl in Hbuf. rewrite iter_write_sentinel. simpl. rewrite Hbuf. simpl.
  destruct (fix_pass_header heap2 (g_node_traverse_pre_order root) hdr
              (suffix ++ repeat (ChunkNode sentinel)
                                (Z.to_nat (nt_level helper - 1))))
    as (rest & ->).
  exists hdr, (rest ++ [ChunkStrtab strtab]). done.
Qed.

(** ** Compile with an empty accumulator *)

(** C10. When the accumulator is empty, the [guid] field of the header of a
    compiled silo is sixteen zero bytes: no hash is computed (the hash of
    the empty accumulator is not zero); and with no imports, compile
    succeeds and gives a silo. *)
Theorem C10_empty_guid_zero `{cfg : SiloConfig} (locales : list string)
    (self : XbBuilder) (flags : Z) (heap : Store) :
  b_guid self = "" →
  compile_guid (b_guid self) = repeat 0 16
  ∧ _uuid_generate_sha1 uuid_clear (bytes_of_string (b_guid self))
    ≠ repeat 0 16
  ∧ (∀ self' heap' silo,
       xb_builder_compile locales self flags heap = Some (self', heap', GOk silo) →
       ∃ hdr rest,
         silo_blob silo = Some (ChunkHeader hdr :: rest)
         ∧ hdr_guid hdr = repeat 0 16
         ∧ b_silo self' = silo)
  ∧ (b_imports self = [] →
     ∃ self' heap' silo,
       xb_builder_compile locales self flags heap = Some (self', heap', GOk silo)).
Proof.
  intros Hguid. split; [by rewrite Hguid|]. split.
  { rewrite Hguid. unfold _uuid_generate_sha1.
    destruct HAVE_UUID_GENERATE_SHA1; vm_compute; discriminate. }
  split.
  - intros self' heap' silo. unfold xb_builder_compile.
    destruct (compile_imports _ _ _ _) as [[[helper heap1] r]|]; [|done].
    simpl. destruct r as [u|e]; [|done].
    destruct (compile_nodes _ _) as [root|]; [|done]. simpl.
    destruct (compile_tree_header (b_guid self) root heap1)
      as (hdr & rest & Hblob & Hmagic & Hver & _ & Hg).
    destruct (compile_tree (b_guid self) root heap1) as [blob heap2].
    simpl in Hblob. subst blob. unfold xb_silo_load_from_bytes.
    rewrite Hmagic, Hver, !Z.eqb_refl. simpl.
    intros [= <- <- <-]. exists hdr, rest. simpl.
    rewrite Hg, Hguid. done.
  - intros Himports. unfold xb_builder_compile. rewrite Himports. simpl.
    destruct (compile_nodes_grows (b_nodes self) (MkGNode None []))
      as (root & -> & _). simpl.
    destruct (compile_tree_header (b_guid self) root heap)
      as (hdr & rest & Hblob & Hmagic & Hver & _ & Hg).
    destruct (compile_tree (b_guid self) root heap) as [blob heap2].
    simpl in Hblob. subst blob. unfold xb_silo_load_from_bytes.
    rewrite Hmagic, Hver, !Z.eqb_refl. simpl. eauto.
Qed.

Lemma C10_empty_guid_zero_witness :
  ∃ self' heap' silo,
    xb_builder_compile (cfg := example_config) ["en"; "C"]
      (xb_builder_import_node xb_builder_new (MkBNode 0 [])) 0
      [xb_builder_node_new "a"]
    = Some (self', heap', GOk silo).
Proof.
  exact (proj2 (proj2 (proj2 (C10_empty_guid_zero (cfg := example_config)
           ["en"; "C"]
           (xb_builder_import_node xb_builder_new (MkBNode 0 [])) 0
           [xb_builder_node_new "a"] eq_refl))) eq_refl).
Defined.

(** ** The parser adapter *)

Lemma g_node_get_prefix root p q :
  is_Some (g_node_get root (p ++ q)) → is_Some (g_node_get root p).
Proof.
  rewrite g_node_get_app. destruct (g_node_get root p); [eauto|].
  intros [? ?]. done.
Qed.

Lemma g_node_get_removelast root p :
  is_Some (g_node_get root p) → is_Some (g_node_get root (removelast p)).
Proof.
  destruct (decide (p = [])) as [->|Hne]; [done|].
  rewrite (app_removelast_last 0%nat Hne) at 1. apply g_node_get_prefix.
Qed.

Lemma same_settings_refl helper : same_settings helper helper.
Proof. by repeat split. Qed.

Lemma same_settings_trans h1 h2 h3 :
  same_settings h1 h2 → same_settings h2 h3 → same_settings h1 h3.
Proof.
  intros (?&?&?&?&?) (?&?&?&?&?). repeat split; congruence.
Qed.

Lemma start_element_cb_spec name attrs helper heap p :
  cursor_at helper p →
  ∃ helper' n,
    g_node_get (h_root helper) p = Some n
    ∧ xb_builder_compile_start_element_cb name attrs helper heap
      = Some (helper',
              heap ++ [start_element_node helper heap (g_data n) name attrs])
    ∧ cursor_at helper' (p ++ [length (g_children n)])
    ∧ g_node_get (h_root helper') (p ++ [length (g_children n)])
      = Some (MkGNode (Some (length heap)) [])
    ∧ grows (h_root helper) (h_root helper')
    ∧ same_settings helper helper'.
Proof.
  intros [Hcur [n Hn]]. unfold xb_builder_compile_start_element_cb.
  rewrite Hcur. simpl. rewrite Hn. simpl.
  destruct (g_node_append_data_spec (h_root helper) p (Some (length heap)) n Hn)
    as (root' & -> & Hgrow & _ & Hnew). simpl.
  eexists _, n. split; [done|]. split; [reflexivity|].
  split; [split; simpl; [done|by rewrite Hnew]|].
  split; [exact Hnew|]. split; [exact Hgrow|]. by repeat split.
Qed.

Lemma end_element_cb_spec name helper heap p :
  cursor_at helper p → p ≠ [] →
  ∃ helper',
    xb_builder_compile_end_element_cb name helper heap = Some (helper', heap)
    ∧ cursor_at helper' (removelast p)
    ∧ grows (h_root helper) (h_root helper')
    ∧ same_settings helper helper'.
Proof.
  intros [Hcur Hvalid] Hne. unfold xb_builder_compile_end_element_cb.
  rewrite Hcur. simpl.
  assert (Hparent : g_node_parent p = Some (removelast p)).
  { destruct p; [done|reflexivity]. }
  assert (∃ root',
    (if decide (g_node_parent p = Some []) then
       match h_info helper with
       | Some info => xb_builder_compile_node_tree (h_root helper) p info
       | None => Some (h_root helper)
       end
     else Some (h_root helper)) = Some root'
    ∧ grows (h_root helper) root') as (root' & -> & Hgrow).
  { case_decide; [|eauto using grows_refl].
    destruct (h_info helper) as [info|]; [|eauto using grows_refl].
    by apply xb_builder_compile_node_tree_grows. }
  simpl. eexists. split; [reflexivity|]. rewrite Hparent.
  split; [|split; [exact Hgrow|by repeat split]].
  split; [done|]. simpl. eapply grows_valid; [exact Hgrow|].
  by apply g_node_get_removelast.
Qed.

Lemma text_cb_spec text helper heap p :
  cursor_at helper p →
  ∃ heap',
    xb_builder_compile_text_cb text helper heap = Some (helper, heap')
    ∧ length heap' = length heap.
Proof.
  intros [Hcur [n Hn]]. unfold xb_builder_compile_text_cb.
  rewrite Hcur. simpl. rewrite Hn. simpl.
  destruct (g_data n) as [id|]; [|eauto].
  destruct (String.length text =? 0)%nat; [eauto|].
  destruct (xb_builder_node_has_flag _ _); [eauto|].
  destruct (all_whitespace text); [eauto|].
  eexists. split; [reflexivity|]. by rewrite length_insert.
Qed.

Local Ltac close_parse_step :=
  split; [reflexivity|]; split; [assumption|]; split; [assumption|];
  split; [eauto using grows_trans|];
  split; [eauto using same_settings_trans|]; lia.

(** Feeding the tokenizer never dereferences NULL when no element is closed
    that was not open; the cursor ends as deep as elements are left open. *)
Lemma g_markup_parse_context_parse_total events :
  ∀ helper heap p d,
    cursor_at helper p → open_depth (length p) events = Some d →
    ∃ helper' heap' p',
      g_markup_parse_context_parse events helper heap = Some (helper', heap')
      ∧ cursor_at helper' p' ∧ length p' = d
      ∧ grows (h_root helper) (h_root helper')
      ∧ same_settings helper helper'
      ∧ (length heap ≤ length heap')%nat.
Proof.
  induction events as [|ev events IH]; intros helper heap p d Hcur Hd.
  - simpl in *. injection Hd as <-. exists helper, heap, p.
    eauto 10 using grows_refl, same_settings_refl.
  - destruct ev as [name attrs|name|text]; simpl in Hd |- *.
    + destruct (start_element_cb_spec name attrs helper heap p Hcur)
        as (helper1 & n & _ & -> & Hcur1 & _ & Hg1 & Hs1). simpl.
      set (heap1 := heap ++ [_]).
      assert (Hl1 : (length heap ≤ length heap1)%nat).
      { unfold heap1. rewrite length_app. lia. }
      destruct (IH helper1 heap1 _ d Hcur1)
        as (h2 & heap2 & p2 & -> & ? & ? & ? & ? & Hl).
      { by rewrite length_app, Nat.add_1_r. }
      exists h2, heap2, p2. close_parse_step.
    + destruct p as [|i p] using rev_ind; [done|]. clear IHp.
      rewrite length_app, Nat.add_1_r in Hd.
      destruct (end_element_cb_spec name helper heap (p ++ [i]) Hcur)
        as (helper1 & -> & Hcur1 & Hg1 & Hs1); [by destruct p|]. simpl.
      rewrite removelast_last in Hcur1.
      destruct (IH helper1 heap p d Hcur1 Hd) as (h2 & heap2 & p2 & -> & ? & ? & ? & ? & Hl).
      exists h2, heap2, p2. close_parse_step.
    + destruct (text_cb_spec text helper heap p Hcur) as (heap1 & -> & Hlen).
      simpl. destruct (IH helper heap1 p d Hcur Hd)
        as (h2 & heap2 & p2 & -> & ? & ? & ? & ? & Hl).
      exists h2, heap2, p2. close_parse_step.
Qed.

(** C9. Parsing an import whose stream ends without a read or parse error
    fails with "Mismatched XML" exactly when the cursor is not back at the
    root, that is when some element is still open; with the cursor at the
    root the import succeeds. *)
Theorem C9_mismatched_xml (helper : XbBuilderCompileHelper) (heap : Store)
    (import : XbBuilderImport) (p : GNodePtr) (d : nat) :
  cursor_at helper p →
  open_depth (length p) (imp_events import) = Some d →
  imp_error import ≠ Some mismatched_xml →
  ∃ helper' heap' r,
    xb_builder_compile_import helper heap import = Some (helper', heap', r)
    ∧ (r = GFail mismatched_xml
       ↔ imp_error import = None ∧ h_current helper' ≠ Some [])
    ∧ (h_current helper' = Some [] ↔ d = O)
    ∧ (imp_error import = None → h_current helper' = Some [] → r = GOk tt).
Proof.
  intros Hcur Hd Herr. unfold xb_builder_compile_import.
  destruct (g_markup_parse_context_parse_total (imp_events import)
              (helper_set_info helper (imp_info import)) heap p d)
    as (helper' & heap' & p' & -> & [Hcur' _] & Hlen & _); [exact Hcur|exact Hd|].
  simpl.
  assert (Hroot : h_current helper' = Some [] ↔ d = O).
  { rewrite Hcur'. split.
    - intros [= ->]. by rewrite <- Hlen.
    - intros ->. by destruct p'. }
  destruct (imp_error import) as [e|] eqn:He.
  - exists helper', heap', (GFail e). split; [done|]. split.
    + split; [intros [= ->]; done|]. intros [? _]. done.
    + split; [exact Hroot|done].
  - case_decide as Hc.
    + exists helper', heap', (GOk tt). split; [done|]. split.
      * split; [done|]. intros [_ ?]. done.
      * split; [exact Hroot|done].
    + exists helper', heap', (GFail mismatched_xml). split; [done|]. split.
      * split; done.
      * split; [exact Hroot|]. intros _ ?. done.
Qed.

Lemma C9_mismatched_xml_witness :
  ∃ helper' heap' r,
    xb_builder_compile_import
      (MkHelper (MkGNode None []) (Some []) 0 ∅ [] None ["en"; "C"]) []
      (MkImport "u" None [StartElement "a" []; StartElement "b" [];
                          EndElement "b"] None)
    = Some (helper', heap', r)
    ∧ (r = GFail mismatched_xml
       ↔ None = (None : option GError) ∧ h_current helper' ≠ Some [])
    ∧ (h_current helper' = Some [] ↔ 1%nat = O)
    ∧ (None = (None : option GError) → h_current helper' = Some [] → r = GOk tt).
Proof.
  apply (C9_mismatched_xml
           (MkHelper (MkGNode None []) (Some []) 0 ∅ [] None ["en"; "C"]) []
           (MkImport "u" None [StartElement "a" []; StartElement "b" [];
                               EndElement "b"] None) [] 1).
  - split; [reflexivity|]. simpl. eauto.
  - reflexivity.
  - simpl. discriminate.
Defined.

(** ** The import loop of compile *)

Lemma compile_imports_app flags before after helper heap :
  compile_imports flags (before ++ after) helper heap =
  '(helper1, heap1, r) ← compile_imports flags before helper heap;
  match r with
  | GOk _ => compile_imports flags after helper1 heap1
  | GFail e => Some (helper1, heap1, GFail e)
  end.
Proof.
  revert helper heap. induction before as [|import before IH];
    intros helper heap; simpl; [done|].
  destruct (xb_builder_compile_import _ heap import)
    as [[[helper1 heap1] r]|]; simpl; [|done].
  destruct r as [u|e]; [apply IH|].
  destruct (flag_set flags XB_BUILDER_COMPILE_FLAG_IGNORE_INVALID);
    [apply IH|done].
Qed.

(** The loop does not look at the cursor it is entered with. *)
Lemma compile_imports_resets_cursor flags import rest helper heap current :
  compile_imports flags (import :: rest)
    (helper_set_tree helper (h_root helper) current) heap
  = compile_imports flags (import :: rest) helper heap.
Proof. reflexivity. Qed.

(** With [IGNORE_INVALID] the loop never fails. *)
Lemma compile_imports_ignore_invalid flags imports :
  flag_set flags XB_BUILDER_COMPILE_FLAG_IGNORE_INVALID = true →
  ∀ helper heap helper' heap' r,
    compile_imports flags imports helper heap = Some (helper', heap', r) →
    r = GOk tt.
Proof.
  intros Hflag. induction imports as [|import rest IH];
    intros helper heap helper' heap' r; simpl.
  - by intros [= _ _ <-].
  - destruct (xb_builder_compile_import _ heap import)
      as [[[helper1 heap1] r1]|]; simpl; [|done].
    rewrite Hflag. destruct r1; apply IH.
Qed.

(** C8. Every import is parsed with the cursor reset to the root. When the
    parse of an import fails, then with [IGNORE_INVALID] the loop goes on
    with the imports that follow (and never fails), and without it compile
    stops and returns the error of the import, its message prefixed with the
    identity of the import. *)
Theorem C8_invalid_import `{cfg : SiloConfig} (locales : list string)
    (self : XbBuilder) (flags : Z) (heap : Store)
    (before after : list XbBuilderImport) (import : XbBuilderImport)
    (helper1 helper2 : XbBuilderCompileHelper) (heap1 heap2 : Store)
    (e : GError) :
  let helper0 := MkHelper (MkGNode None []) None flags ∅ [] None locales in
  let reset helper := helper_set_tree helper (h_root helper) (Some []) in
  let prefixed :=
    MkGError (err_domain e) (err_code e)
      ("failed to compile " +:+ imp_guid import +:+ ": " +:+ err_message e) in
  b_imports self = before ++ import :: after →
  compile_imports flags before helper0 heap = Some (helper1, heap1, GOk tt) →
  xb_builder_compile_import (reset helper1) heap1 import
    = Some (helper2, heap2, GFail e) →
  (∀ current,
     compile_imports flags (import :: after)
       (helper_set_tree helper1 (h_root helper1) current) heap1
     = compile_imports flags (import :: after) (reset helper1) heap1)
  ∧ (flag_set flags XB_BUILDER_COMPILE_FLAG_IGNORE_INVALID = true →
     compile_imports flags (b_imports self) helper0 heap
       = compile_imports flags after helper2 heap2
     ∧ ∀ helper' heap' r,
         compile_imports flags (b_imports self) helper0 heap
           = Some (helper', heap', r) → r = GOk tt)
  ∧ (flag_set flags XB_BUILDER_COMPILE_FLAG_IGNORE_INVALID = false →
     compile_imports flags (b_imports self) helper0 heap
       = Some (helper2, heap2, GFail prefixed)
     ∧ xb_builder_compile locales self flags heap
       = Some (self, heap2, GFail prefixed)).
Proof.
  intros helper0 reset prefixed Himports Hbefore Himport.
  assert (Hloop : compile_imports flags (b_imports self) helper0 heap =
                  compile_imports flags (import :: after) helper1 heap1).
  { rewrite Himports, compile_imports_app, Hbefore. reflexivity. }
  assert (Hstep : compile_imports flags (import :: after) helper1 heap1 =
                  if flag_set flags XB_BUILDER_COMPILE_FLAG_IGNORE_INVALID
                  then compile_imports flags after helper2 heap2
                  else Some (helper2, heap2, GFail prefixed)).
  { simpl. fold (reset helper1). rewrite Himport. simpl.
    destruct (flag_set _ _); [done|].
    unfold g_propagate_prefixed_error, prefixed.
    by rewrite !string_append_assoc. }
  split; [reflexivity|]. split.
  - intros Hflag. rewrite Hloop, Hstep, Hflag. split; [done|].
    intros helper' heap' r. by apply compile_imports_ignore_invalid.
  - intros Hflag. rewrite Hflag in Hstep. split; [by rewrite Hloop|].
    unfold xb_builder_compile. fold helper0. rewrite Hloop, Hstep. done.
Qed.

Lemma C8_invalid_import_witness :
  let bad := MkImport "bad.xml" None [StartElement "a" []] None in
  let good := MkImport "good.xml" None [StartElement "b" []; EndElement "b"] None in
  let self := xb_builder_import (xb_builder_import xb_builder_new bad) good in
  xb_builder_compile (cfg := example_config) ["en"; "C"] self 0 []
  = Some (self, [xb_builder_node_new "a"],
          GFail (MkGError "G_IO_ERROR" "G_IO_ERROR_INVALID_DATA"
                          "failed to compile bad.xml: Mismatched XML")).
Proof.
  intros bad good self.
  refine (proj2 (proj2 (proj2 (C8_invalid_import (cfg := example_config)
    ["en"; "C"] self 0 [] [] [good] bad
    (MkHelper (MkGNode None []) None 0 ∅ [] None ["en"; "C"])
    (MkHelper (MkGNode None [MkGNode (Some 0%nat) []]) (Some [0%nat]) 0 ∅ []
              None ["en"; "C"])
    [] [xb_builder_node_new "a"] mismatched_xml _ _ _)) _)).
  - reflexivity.
  - reflexivity.
  - vm_compute. reflexivity.
  - reflexivity.
Defined.

(** ** The start-element callback *)

Lemma has_flag_add_flag bn :
  xb_builder_node_has_flag
    (xb_builder_node_add_flag bn XB_BUILDER_NODE_FLAG_IGNORE_CDATA)
    XB_BUILDER_NODE_FLAG_IGNORE_CDATA = true.
Proof.
  unfold xb_builder_node_has_flag, xb_builder_node_add_flag,
    XB_BUILDER_NODE_FLAG_IGNORE_CDATA. simpl.
  apply Z.ltb_lt.
  assert (Z.land (Z.lor (bn_flags bn) 1) 1 = 1) as ->; [|lia].
  apply Z.bits_inj'. intros k Hk.
  rewrite Z.land_spec, Z.lor_spec.
  destruct (decide (k = 0)) as [->|Hne].
  - simpl. by rewrite orb_true_r.
  - assert (Z.testbit 1 k = false) as ->.
    { change 1 with (2 ^ 0). apply Z.pow2_bits_false. lia. }
    by rewrite andb_false_r.
Qed.

Lemma g_strv_contains_In strv s : g_strv_contains strv s = true ↔ In s strv.
Proof.
  unfold g_strv_contains. rewrite existsb_exists. split.
  - intros (x & Hin & Heq). apply String.eqb_eq in Heq. by subst.
  - intros Hin. exists s. split; [done|apply String.eqb_refl].
Qed.

(** The locale loop sets the flag when some [xml:lang] attribute has a
    value outside the list, and changes nothing else. *)
Lemma check_locale_spec locales attrs bn :
  let bn' := check_locale locales attrs bn in
  (xb_builder_node_has_flag bn' XB_BUILDER_NODE_FLAG_IGNORE_CDATA = true
   ↔ xb_builder_node_has_flag bn XB_BUILDER_NODE_FLAG_IGNORE_CDATA = true
     ∨ ∃ value, In ("xml:lang", value) attrs ∧ ¬ In value locales)
  ∧ bn_attrs bn' = bn_attrs bn
  ∧ bn_element bn' = bn_element bn
  ∧ bn_text bn' = bn_text bn.
Proof.
  revert bn. induction attrs as [|[name value] attrs IH]; intros bn; simpl.
  - split; [|done]. split; [by left|]. intros [?|(? & [] & _)]. done.
  - destruct (IH (if String.eqb name "xml:lang" then
                    if negb (g_strv_contains locales value)
                    then xb_builder_node_add_flag bn XB_BUILDER_NODE_FLAG_IGNORE_CDATA
                    else bn
                  else bn)) as (Hflag & Hattrs & Helem & Htext).
    unfold check_locale in *. simpl.
    destruct (String.eqb name "xml:lang") eqn:Hname.
    + apply String.eqb_eq in Hname. subst name.
      destruct (g_strv_contains locales value) eqn:Hc; simpl in *.
      * split; [|done]. rewrite Hflag. split.
        -- intros [?|(v & Hin & Hnot)]; [by left|]. right. eauto.
        -- intros [?|(v & [[= <-]|Hin] & Hnot)]; [by left| |right; eauto].
           exfalso. apply Hnot. by apply g_strv_contains_In.
      * split; [|done]. rewrite Hflag, has_flag_add_flag. split.
        -- intros _. right. exists value. split; [by left|].
           intros Hin. apply g_strv_contains_In in Hin. congruence.
        -- intros _. by left.
    + split; [|done]. rewrite Hflag. split.
      * intros [?|(v & Hin & Hnot)]; [by left|]. right. eauto.
      * intros [?|(v & [[= -> <-]|Hin] & Hnot)]; [by left| |right; eauto].
        by rewrite String.eqb_refl in Hname.
Qed.

Lemma add_attributes_spec attrs bn :
  bn_attrs (add_attributes attrs bn) =
    bn_attrs bn ++ map (fun attr => MkAttr (fst attr) (snd attr) 0 0) attrs
  ∧ bn_flags (add_attributes attrs bn) = bn_flags bn
  ∧ bn_element (add_attributes attrs bn) = bn_element bn
  ∧ bn_text (add_attributes attrs bn) = bn_text bn.
Proof.
  revert bn. induction attrs as [|attr attrs IH]; intros bn; simpl.
  - by rewrite app_nil_r.
  - destruct (IH (xb_builder_node_add_attribute bn (fst attr) (snd attr)))
      as (Ha & Hf & He & Ht).
    unfold add_attributes in *. simpl. rewrite Ha, Hf, He, Ht. simpl.
    by rewrite <- app_assoc.
Qed.

(** C4. With [NATIVE_LANGS], a start-element event under a parent that is
    not ignored creates a node that is ignored exactly when it has an
    [xml:lang] attribute whose value is not in the locale list; the node
    gets all the attributes, in their order, when it is not ignored, and
    none when it is. *)
Theorem C4_native_langs (element_name : string) (attrs : list (string * string))
    (helper : XbBuilderCompileHelper) (heap : Store) (p : GNodePtr) (n : GNode) :
  flag_set (h_flags helper) XB_BUILDER_COMPILE_FLAG_NATIVE_LANGS = true →
  h_current helper = Some p →
  g_node_get (h_root helper) p = Some n →
  (∀ parent, g_data n = Some parent → live heap parent = true) →
  ∃ helper' bn,
    xb_builder_compile_start_element_cb element_name attrs helper heap
      = Some (helper', heap ++ [bn])
    ∧ h_current helper' = Some (p ++ [length (g_children n)])
    ∧ g_node_get (h_root helper') (p ++ [length (g_children n)])
      = Some (MkGNode (Some (length heap)) [])
    ∧ bn_element bn = element_name
    ∧ (xb_builder_node_has_flag bn XB_BUILDER_NODE_FLAG_IGNORE_CDATA = true
       ↔ ∃ value, In ("xml:lang", value) attrs ∧ ¬ In value (h_locales helper))
    ∧ bn_attrs bn =
        if xb_builder_node_has_flag bn XB_BUILDER_NODE_FLAG_IGNORE_CDATA
        then []
        else map (fun attr => MkAttr (fst attr) (snd attr) 0 0) attrs.
Proof.
  intros Hnative Hcur Hn Hparent.
  destruct (start_element_cb_spec element_name attrs helper heap p)
    as (helper' & n' & Hn' & Hcb & [Hcur' _] & Hnew & _); [by split; eauto|].
  rewrite Hn in Hn'. injection Hn' as <-.
  exists helper', (start_element_node helper heap (g_data n) element_name attrs).
  split; [exact Hcb|]. split; [exact Hcur'|]. split; [exact Hnew|].
  unfold start_element_node.
  set (bn0 := match g_data n with
              | Some pid =>
                  if xb_builder_node_has_flag (heap !!! pid)
                       XB_BUILDER_NODE_FLAG_IGNORE_CDATA
                  then xb_builder_node_add_flag (xb_builder_node_new element_name)
                         XB_BUILDER_NODE_FLAG_IGNORE_CDATA
                  else xb_builder_node_new element_name
              | None => xb_builder_node_new element_name
              end).
  assert (Hbn0 : bn0 = xb_builder_node_new element_name).
  { unfold bn0. destruct (g_data n) as [pid|]; [|done].
    specialize (Hparent pid eq_refl). unfold live in Hparent.
    apply negb_true_iff in Hparent. by rewrite Hparent. }
  rewrite Hbn0, Hnative. simpl.
  destruct (check_locale_spec (h_locales helper) attrs
              (xb_builder_node_new element_name))
    as (Hflag & Hattrs & Helem & Htext).
  assert (Hflag' :
    xb_builder_node_has_flag
      (check_locale (h_locales helper) attrs (xb_builder_node_new element_name))
      XB_BUILDER_NODE_FLAG_IGNORE_CDATA = true
    ↔ ∃ value, In ("xml:lang", value) attrs ∧ ¬ In value (h_locales helper)).
  { rewrite Hflag. split; [|by right]. intros [Hf|?]; [|done].
    by vm_compute in Hf. }
  destruct (xb_builder_node_has_flag (check_locale _ _ _) _) eqn:Hignored; simpl.
  - rewrite Hignored. split; [exact Helem|]. split; [exact Hflag'|exact Hattrs].
  - destruct (add_attributes_spec attrs
                (check_locale (h_locales helper) attrs
                   (xb_builder_node_new element_name)))
      as (Ha & Hf & He & Ht).
    assert (Hsame :
      xb_builder_node_has_flag
        (add_attributes attrs
           (check_locale (h_locales helper) attrs
              (xb_builder_node_new element_name)))
        XB_BUILDER_NODE_FLAG_IGNORE_CDATA = false).
    { unfold xb_builder_node_has_flag in *. by rewrite Hf. }
    rewrite Hsame, He, Helem, Ha, Hattrs. split; [done|].
    split; [|done]. rewrite <- Hflag'. done.
Qed.

Lemma C4_native_langs_witness :
  ∃ helper' bn,
    xb_builder_compile_start_element_cb "x" [("xml:lang", "fr"); ("id", "1")]
      (MkHelper (MkGNode None [MkGNode (Some 0%nat) []]) (Some [0%nat])
                XB_BUILDER_COMPILE_FLAG_NATIVE_LANGS ∅ [] None ["en"; "C"])
      [xb_builder_node_new "r"]
    = Some (helper', [xb_builder_node_new "r"] ++ [bn])
    ∧ xb_builder_node_has_flag bn XB_BUILDER_NODE_FLAG_IGNORE_CDATA = true
    ∧ bn_attrs bn = [].
Proof.
  destruct (C4_native_langs "x" [("xml:lang", "fr"); ("id", "1")]
    (MkHelper (MkGNode None [MkGNode (Some 0%nat) []]) (Some [0%nat])
              XB_BUILDER_COMPILE_FLAG_NATIVE_LANGS ∅ [] None ["en"; "C"])
    [xb_builder_node_new "r"] [0%nat] (MkGNode (Some 0%nat) []))
    as (helper' & bn & Hcb & _ & _ & _ & Hflag & Hattrs).
  - reflexivity.
  - reflexivity.
  - reflexivity.
  - intros parent [= <-]. reflexivity.
  - exists helper', bn. split; [exact Hcb|].
    assert (Hignored :
      xb_builder_node_has_flag bn XB_BUILDER_NODE_FLAG_IGNORE_CDATA = true).
    { apply Hflag. exists "fr". split; [by left|].
      simpl. intros [?|[?|[]]]; discriminate. }
    split; [exact Hignored|]. by rewrite Hignored in Hattrs.
Defined.

(** ** Ensure *)

(** Whether a blob is accepted does not depend on the silo it is loaded
    into, nor does the silo that results. *)
Lemma xb_silo_load_from_bytes_any `{cfg : SiloConfig} silo1 silo2 blob :
  xb_silo_load_from_bytes silo1 blob = xb_silo_load_from_bytes silo2 blob.
Proof. reflexivity. Qed.

Lemma xb_silo_load_from_bytes_blob `{cfg : SiloConfig} self blob silo :
  xb_silo_load_from_bytes self blob = GOk silo → silo_blob silo = Some blob.
Proof.
  unfold xb_silo_load_from_bytes. destruct blob as [|[hdr| | |] rest]; try done.
  repeat case_match; try done. by intros [= <-].
Qed.

(** C5. The decisions of ensure, in order: a file whose GUID is that of the
    current silo gives the current silo back, with nothing compiled and
    nothing written; else a file whose GUID is the one computed from the
    accumulator is loaded into the current silo, again with nothing compiled
    and nothing written; in every other case, also when the file cannot be
    loaded, ensure compiles, writes the blob to the file and returns the new
    silo, and a failure of the write is returned to the caller. *)
Theorem C5_ensure_decision `{cfg : SiloConfig} (locales : list string)
    (self : XbBuilder) (file : string) (flags : Z) (heap : Store)
    (world : World) :
  let loaded := xb_silo_load_from_file xb_silo_new file world in
  (∀ silo_tmp,
     loaded = GOk silo_tmp →
     silo_guid silo_tmp = silo_guid (b_silo self) →
     xb_builder_ensure locales self file flags heap world
       = Some (self, heap, world, [], GOk (b_silo self)))
  ∧ (∀ silo_tmp,
       loaded = GOk silo_tmp →
       silo_guid silo_tmp ≠ silo_guid (b_silo self) →
       silo_guid silo_tmp = Some (xb_builder_generate_guid self) →
       ∃ blob silo,
         w_files world !! file = Some blob
         ∧ silo_blob silo = Some blob
         ∧ silo_guid silo = Some (xb_builder_generate_guid self)
         ∧ xb_builder_ensure locales self file flags heap world
           = Some (builder_set_silo self silo, heap, world, [], GOk silo))
  ∧ ((∀ silo_tmp,
        loaded = GOk silo_tmp →
        silo_guid silo_tmp ≠ silo_guid (b_silo self)
        ∧ silo_guid silo_tmp ≠ Some (xb_builder_generate_guid self)) →
     ∀ self' heap' silo_new,
       xb_builder_compile locales self flags heap
         = Some (self', heap', GOk silo_new) →
       (∀ world',
          xb_silo_save_to_file silo_new file world = GOk world' →
          ∃ blob,
            silo_blob silo_new = Some blob
            ∧ w_files world' !! file = Some blob
            ∧ xb_builder_ensure locales self file flags heap world
              = Some (self', heap', world',
                      [EffCompile; EffSave file blob], GOk silo_new))
       ∧ (∀ e,
            xb_silo_save_to_file silo_new file world = GFail e →
            xb_builder_ensure locales self file flags heap world
              = Some (self', heap', world, [EffCompile], GFail e))).
Proof.
  intros loaded. split; [|split].
  - intros silo_tmp Hload Hguid. unfold xb_builder_ensure.
    fold loaded. rewrite Hload. by rewrite decide_True.
  - intros silo_tmp Hload Hne Hguid. unfold xb_builder_ensure.
    fold loaded. rewrite Hload.
    rewrite decide_False by done. rewrite decide_True by done.
    unfold loaded, xb_silo_load_from_file in Hload.
    destruct (w_files world !! file) as [blob|] eqn:Hfile; [|done].
    rewrite (xb_silo_load_from_bytes_blob _ _ _ Hload). simpl.
    rewrite (xb_silo_load_from_bytes_any (b_silo self) xb_silo_new), Hload.
    exists blob, silo_tmp. split; [done|].
    split; [by eapply xb_silo_load_from_bytes_blob|]. done.
  - intros Hother self' heap' silo_new Hcompile.
    assert (Hfb : xb_builder_ensure locales self file flags heap world =
                  ensure_fallback locales self file flags heap world).
    { unfold xb_builder_ensure. fold loaded.
      destruct loaded as [silo_tmp|e] eqn:Hload; [|done].
      destruct (Hother silo_tmp eq_refl) as [Hne1 Hne2].
      rewrite decide_False by done. by rewrite decide_False by done. }
    rewrite Hfb. unfold ensure_fallback. rewrite Hcompile. simpl. split.
    + intros world' Hsave. rewrite Hsave.
      unfold xb_silo_save_to_file in Hsave.
      destruct (silo_blob silo_new) as [blob|]; [|done].
      destruct (w_readonly world); [done|]. injection Hsave as <-.
      exists blob. split; [done|]. split; [|done]. simpl.
      apply lookup_insert_eq.
    + intros e Hsave. by rewrite Hsave.
Qed.

Lemma C5_ensure_decision_witness :
  let self := xb_builder_import xb_builder_new
                (MkImport "u" None [StartElement "a" []; EndElement "a"] None) in
  let world := MkWorld ∅ false in
  ∃ self' heap' world' effects silo,
    xb_builder_ensure (cfg := example_config) ["en"; "C"] self "f.xmlb" 0 [] world
      = Some (self', heap', world', effects, GOk silo)
    ∧ effects = [EffCompile; EffSave "f.xmlb" (default [] (silo_blob silo))]
    ∧ xb_builder_ensure (cfg := example_config) ["en"; "C"] self' "f.xmlb" 0
        heap' world'
      = Some (self', heap', world', [], GOk (b_silo self')).
Proof.
  intros self world.
  destruct (xb_builder_compile (cfg := example_config) ["en"; "C"] self 0 [])
    as [[[self' heap'] [silo|e]]|] eqn:Hcompile;
    [|by vm_compute in Hcompile..].
  destruct (xb_silo_save_to_file silo "f.xmlb" world) as [world'|e] eqn:Hsave.
  2:{ vm_compute in Hcompile. injection Hcompile as <- <- <-.
      by vm_compute in Hsave. }
  destruct (C5_ensure_decision (cfg := example_config) ["en"; "C"] self
              "f.xmlb" 0 [] world) as (_ & _ & Hfallback).
  destruct (Hfallback (fun silo_tmp H => ltac:(by vm_compute in H))
              self' heap' silo Hcompile) as [Hwrite _].
  destruct (Hwrite world' Hsave) as (blob & Hblob & Hfile & Hensure).
  exists self', heap', world', [EffCompile; EffSave "f.xmlb" blob], silo.
  split; [exact Hensure|]. split; [by rewrite Hblob|].
  destruct (C5_ensure_decision (cfg := example_config) ["en"; "C"] self'
              "f.xmlb" 0 heap' world') as (Hsame & _ & _).
  vm_compute in Hcompile. injection Hcompile as <- <- <-.
  vm_compute in Hsave. injection Hsave as <-.
  eapply Hsame; vm_compute; reflexivity.
Defined.

(** ** The fix-up pass on a document with an ignored middle sibling *)

(** C1 (evaluation). With [NATIVE_LANGS] and the locales [en], [C], the
    document of [langs_import] gives the tree [r] with three children [x], of
    which the second is ignored. The first [x] is written at offset 46 and
    the third, its next live sibling, at offset 73; the fix-up pass leaves
    the [next] field of the first at 0, the offset slot of the ignored
    sibling, and does not set it to 73. *)
Theorem C1_next_stops_at_ignored_sibling :
  let helper0 := MkHelper (MkGNode None []) None
                   XB_BUILDER_COMPILE_FLAG_NATIVE_LANGS ∅ [] None ["en"; "C"] in
  ∃ helper heap blob heap' sn1 sn3,
    compile_imports XB_BUILDER_COMPILE_FLAG_NATIVE_LANGS [langs_import] helper0 []
      = Some (helper, heap, GOk tt)
    ∧ h_root helper
      = MkGNode None [MkGNode (Some 0%nat)
                        [MkGNode (Some 1%nat) []; MkGNode (Some 2%nat) [];
                         MkGNode (Some 3%nat) []]]
    ∧ compile_tree (cfg := example_config) "langs.xml" (h_root helper) heap
      = (blob, heap')
    ∧ live heap' 1 = true ∧ live heap' 2 = false ∧ live heap' 3 = true
    ∧ bn_offset (heap' !!! 1%nat) = 46
    ∧ bn_offset (heap' !!! 2%nat) = 0
    ∧ bn_offset (heap' !!! 3%nat) = 73
    ∧ xb_builder_get_node (cfg := example_config) 46 0 blob = Some sn1
    ∧ xb_builder_get_node (cfg := example_config) 73 0 blob = Some sn3
    ∧ sn_is_node sn1 = true ∧ sn_is_node sn3 = true
    ∧ sn_parent sn1 = 32 ∧ sn_parent sn3 = 32
    ∧ sn_next sn1 = 0 ∧ sn_next sn3 = 0.
Proof.
  intros helper0. do 6 eexists.
  split; [vm_compute; reflexivity|].
  split; [reflexivity|].
  split; [vm_compute; reflexivity|].
  repeat split; vm_compute; reflexivity.
Qed.

(** ** The size pass on a live node under an ignored one *)

(** C2 (evaluation). With [NATIVE_LANGS] and the locales [en], [C], the
    document [<r xml:lang="fr"/>] imported with an info tree gives an
    ignored [r] with the two live info nodes beneath it. The size pass
    counts two sentinels, the write pass emits three: the [strtab] field of
    the header is 66 and the string table starts at byte 67. *)
Theorem C2_strtab_field_off_by_a_sentinel :
  let self := xb_builder_import xb_builder_new foreign_root_import in
  ∃ self' heap' silo hdr nodetab strtab,
    xb_builder_compile (cfg := example_config) ["en"; "C"] self
      XB_BUILDER_COMPILE_FLAG_NATIVE_LANGS info_store
      = Some (self', heap', GOk silo)
    ∧ silo_blob silo = Some (ChunkHeader hdr :: nodetab ++ [ChunkStrtab strtab])
    ∧ length (filter (fun c => is_sentinel c = true) nodetab)
      = 3%nat
    ∧ length nodetab = 5%nat
    ∧ hdr_strtab hdr = 66
    ∧ buf_len (cfg := example_config) (ChunkHeader hdr :: nodetab) = 67.
Proof.
  intros self. do 3 eexists.
  eexists. exists (take 5 (drop 1 (default [] (silo_blob
    (match xb_builder_compile (cfg := example_config) ["en"; "C"] self
             XB_BUILDER_COMPILE_FLAG_NATIVE_LANGS info_store with
     | Some (_, _, GOk silo) => silo
     | _ => xb_silo_new
     end))))).
  eexists.
  split; [vm_compute; reflexivity|].
  split; [vm_compute; reflexivity|].
  repeat split; vm_compute; reflexivity.
Qed.

(** ** The store during a compile *)

Lemma grows_root_data root root' :
  grows root root' → g_data root' = g_data root.
Proof.
  intros Hg. destruct (Hg [] root eq_refl) as (n' & Hn' & Hd).
  simpl in Hn'. by injection Hn' as <-.
Qed.

Lemma fresh_path_grows n0 root root' p :
  grows root root' → fresh_path n0 root p → fresh_path n0 root' p.
Proof.
  intros Hg Hf q r Hp Hq. destruct (Hf q r Hp Hq) as (n & id & Hn & Hd & Hle).
  destruct (Hg q n Hn) as (n' & Hn' & Hd'). exists n', id.
  split; [done|]. split; [congruence|done].
Qed.

Lemma fresh_path_removelast n0 root p :
  fresh_path n0 root p → fresh_path n0 root (removelast p).
Proof.
  intros Hf q r Hp Hq. destruct (decide (p = [])) as [->|Hne].
  - simpl in Hp. destruct q; [done|discriminate].
  - apply (Hf q (r ++ [List.last p 0%nat])); [|done].
    rewrite app_assoc, <- Hp. by apply app_removelast_last.
Qed.

Lemma fresh_path_snoc n0 root p k n id :
  fresh_path n0 root p →
  g_node_get root (p ++ [k]) = Some n → g_data n = Some id → (n0 ≤ id)%nat →
  fresh_path n0 root (p ++ [k]).
Proof.
  intros Hf Hn Hd Hle q r Hp Hq.
  destruct r as [|x r _] using rev_ind.
  - rewrite app_nil_r in Hp. subst q. eauto.
  - rewrite app_assoc in Hp. apply app_inj_tail in Hp as [-> _].
    by apply (Hf q r).
Qed.

Lemma store_lookup_app_l (heap : Store) bn id :
  (id < length heap)%nat → (heap ++ [bn]) !!! id = heap !!! id.
Proof. intros Hlt. by apply lookup_total_app_l. Qed.

(** A callback of the parser keeps the invariant, and leaves the objects
    that the store held before the compile as they are. *)
Lemma parser_callback_inv n0 ev helper heap helper' heap' :
  parse_inv n0 helper heap →
  parser_callback ev helper heap = Some (helper', heap') →
  parse_inv n0 helper' heap'
  ∧ (∀ id, (id < n0)%nat → heap' !!! id = heap !!! id).
Proof.
  intros Hinv Hcb. pose proof Hinv as (Hlen & Hroot & Hcur).
  destruct (h_current helper) as [p|] eqn:Hp.
  2:{ destruct ev; simpl in Hcb;
        unfold xb_builder_compile_start_element_cb,
          xb_builder_compile_end_element_cb, xb_builder_compile_text_cb in Hcb;
        rewrite Hp in Hcb; done. }
  destruct (Hcur p eq_refl) as [Hvalid Hfresh].
  assert (Hat : cursor_at helper p) by done.
  destruct ev as [name attrs|name|text]; simpl in Hcb.
  - destruct (start_element_cb_spec name attrs helper heap p Hat)
      as (h1 & n & Hn & Hcb1 & [Hcur1 Hvalid1] & Hnew & Hg & _).
    rewrite Hcb1 in Hcb. injection Hcb as <- <-. split.
    + split; [rewrite length_app; lia|].
      split; [by rewrite (grows_root_data _ _ Hg)|].
      intros p' Hp'. rewrite Hcur1 in Hp'. injection Hp' as <-.
      split; [done|].
      eapply fresh_path_snoc; [by eapply fresh_path_grows|exact Hnew|done..].
    + intros id Hid. apply store_lookup_app_l. lia.
  - unfold xb_builder_compile_end_element_cb in Hcb. rewrite Hp in Hcb.
    simpl in Hcb.
    destruct (decide (p = [])) as [->|Hne].
    + simpl in Hcb. injection Hcb as <- <-. split; [|done].
      split; [done|]. split; [done|]. intros p'. simpl. done.
    + destruct (end_element_cb_spec name helper heap p Hat Hne)
        as (h1 & Hcb1 & [Hcur1 Hvalid1] & Hg & _).
      unfold xb_builder_compile_end_element_cb in Hcb1. rewrite Hp in Hcb1.
      simpl in Hcb1. rewrite Hcb1 in Hcb. injection Hcb as <- <-.
      split; [|done]. split; [done|].
      split; [by rewrite (grows_root_data _ _ Hg)|].
      intros p' Hp'. rewrite Hcur1 in Hp'. injection Hp' as <-.
      split; [done|].
      by eapply fresh_path_grows; [|apply fresh_path_removelast].
  - unfold xb_builder_compile_text_cb in Hcb. rewrite Hp in Hcb. simpl in Hcb.
    destruct Hvalid as [n Hn]. rewrite Hn in Hcb. simpl in Hcb.
    destruct (g_data n) as [id|] eqn:Hd.
    2:{ injection Hcb as <- <-. by split. }
    assert (Hid : (n0 ≤ id)%nat).
    { destruct (decide (p = [])) as [->|Hne].
      - simpl in Hn. injection Hn as <-. congruence.
      - destruct (Hfresh p [] (eq_sym (app_nil_r p)) Hne)
          as (n' & id' & Hn' & Hd' & Hle). congruence. }
    assert (Hkeep : ∀ bn,
      parse_inv n0 helper (<[id := bn]> heap)
      ∧ (∀ j, (j < n0)%nat → <[id := bn]> heap !!! j = heap !!! j)).
    { intros bn. split.
      - split; [by rewrite length_insert|]. exact (proj2 Hinv).
      - intros j Hj. apply list_lookup_total_insert_ne. lia. }
    destruct (String.length text =? 0)%nat;
      [injection Hcb as <- <-; by split|].
    destruct (xb_builder_node_has_flag _ _);
      [injection Hcb as <- <-; by split|].
    destruct (all_whitespace text); [injection Hcb as <- <-; by split|].
    injection Hcb as <- <-. apply Hkeep.
Qed.

Lemma g_markup_parse_context_parse_inv n0 events :
  ∀ helper heap helper' heap',
    parse_inv n0 helper heap →
    g_markup_parse_context_parse events helper heap = Some (helper', heap') →
    parse_inv n0 helper' heap'
    ∧ (∀ id, (id < n0)%nat → heap' !!! id = heap !!! id).
Proof.
  induction events as [|ev events IH]; intros helper heap helper' heap' Hinv;
    simpl.
  - by intros [= <- <-].
  - destruct (parser_callback ev helper heap) as [[h1 heap1]|] eqn:Hcb; [|done].
    simpl. intros Hrest.
    destruct (parser_callback_inv n0 ev helper heap h1 heap1 Hinv Hcb)
      as [Hinv1 Hkeep1].
    destruct (IH h1 heap1 helper' heap' Hinv1 Hrest) as [Hinv2 Hkeep2].
    split; [done|]. intros id Hid. rewrite Hkeep2, Hkeep1; done.
Qed.

Lemma compile_imports_inv n0 flags imports :
  ∀ helper heap helper' heap' r,
    (n0 ≤ length heap)%nat → g_data (h_root helper) = None →
    compile_imports flags imports helper heap = Some (helper', heap', r) →
    (n0 ≤ length heap')%nat
    ∧ (∀ id, (id < n0)%nat → heap' !!! id = heap !!! id).
Proof.
  induction imports as [|import rest IH];
    intros helper heap helper' heap' r Hlen Hroot; simpl.
  - by intros [= <- <- <-].
  - unfold xb_builder_compile_import.
    set (h0 := helper_set_info _ _).
    assert (Hinv0 : parse_inv n0 h0 heap).
    { split; [done|]. split; [done|]. intros p [= <-]. split; [by eexists|].
      intros q r' Hp Hq. by destruct q. }
    destruct (g_markup_parse_context_parse (imp_events import) h0 heap)
      as [[h1 heap1]|] eqn:Hparse; [|done]. simpl.
    destruct (g_markup_parse_context_parse_inv n0 _ _ _ _ _ Hinv0 Hparse)
      as [(Hlen1 & Hroot1 & _) Hkeep1].
    assert (Hrest : ∀ res,
      compile_imports flags rest h1 heap1 = Some (helper', heap', res) →
      (n0 ≤ length heap')%nat
      ∧ (∀ id, (id < n0)%nat → heap' !!! id = heap !!! id)).
    { intros res Hres.
      destruct (IH h1 heap1 helper' heap' res Hlen1 Hroot1 Hres) as [Hl Hk].
      split; [done|]. intros id Hid. rewrite Hk, Hkeep1; done. }
    destruct (imp_error import) as [e|]; simpl.
    + destruct (flag_set flags _); [apply Hrest|]. by intros [= <- <- <-].
    + case_decide; simpl; [apply Hrest|].
      destruct (flag_set flags _); [apply Hrest|]. by intros [= <- <- <-].
Qed.

(** ** The passes only write the transient slots *)

Lemma content_kept_refl heap : content_kept heap heap.
Proof. by split. Qed.

Lemma content_kept_trans h1 h2 h3 :
  content_kept h1 h2 → content_kept h2 h3 → content_kept h1 h3.
Proof.
  intros [Hl1 Hc1] [Hl2 Hc2]. split; [congruence|].
  intros id. by rewrite Hc2, Hc1.
Qed.

Lemma content_kept_insert (heap : Store) id bn :
  bn_content bn = bn_content (heap !!! id) →
  content_kept heap (<[id := bn]> heap).
Proof.
  intros Hbn. split; [apply length_insert|]. intros j.
  destruct (decide (id = j)) as [<-|Hne].
  - destruct (decide (id < length heap)%nat) as [Hlt|Hge].
    + by rewrite list_lookup_total_insert_eq.
    + by rewrite list_insert_ge by lia.
  - by rewrite list_lookup_total_insert_ne.
Qed.

Lemma content_kept_live heap heap' id :
  content_kept heap heap' → live heap' id = live heap id.
Proof.
  intros [_ Hc]. specialize (Hc id). unfold bn_content in Hc.
  unfold live, xb_builder_node_has_flag. by injection Hc as _ _ _ ->.
Qed.

Lemma intern_attrs_content field set attrs hash strtab :
  (∀ attr idx, attr_name (set attr idx) = attr_name attr
               ∧ attr_value (set attr idx) = attr_value attr) →
  map (fun attr => (attr_name attr, attr_value attr))
      (fst (fst (intern_attrs field set attrs hash strtab)))
  = map (fun attr => (attr_name attr, attr_value attr)) attrs.
Proof.
  intros Hset. revert hash strtab.
  induction attrs as [|attr attrs IH]; intros hash strtab; simpl; [done|].
  destruct (xb_builder_compile_add_to_strtab hash strtab (field attr))
    as [[idx hash1] strtab1].
  specialize (IH hash1 strtab1).
  destruct (intern_attrs field set attrs hash1 strtab1)
    as [[attrs' hash2] strtab2].
  simpl in *. destruct (Hset attr idx) as [-> ->]. by rewrite IH.
Qed.

Lemma strtab_element_names_cb_content st data :
  content_kept (snd st) (snd (xb_builder_strtab_element_names_cb st data)).
Proof.
  destruct st as [[hash strtab] heap]. simpl.
  destruct data as [id|]; [|apply content_kept_refl].
  destruct (negb (live heap id)); [apply content_kept_refl|].
  destruct (xb_builder_compile_add_to_strtab _ _ _) as [[idx h] s]. simpl.
  by apply content_kept_insert.
Qed.

Lemma strtab_attr_name_cb_content st data :
  content_kept (snd st) (snd (xb_builder_strtab_attr_name_cb st data)).
Proof.
  destruct st as [[hash strtab] heap]. simpl.
  destruct data as [id|]; [|apply content_kept_refl].
  destruct (negb (live heap id)); [apply content_kept_refl|].
  pose proof (intern_attrs_content attr_name attr_set_name_idx
                (bn_attrs (heap !!! id)) hash strtab) as Hmap.
  destruct (intern_attrs _ _ _ _ _) as [[attrs h] s]. simpl in *.
  apply content_kept_insert. unfold bn_content. simpl.
  by rewrite Hmap.
Qed.

Lemma strtab_attr_value_cb_content st data :
  content_kept (snd st) (snd (xb_builder_strtab_attr_value_cb st data)).
Proof.
  destruct st as [[hash strtab] heap]. simpl.
  destruct data as [id|]; [|apply content_kept_refl].
  destruct (negb (live heap id)); [apply content_kept_refl|].
  pose proof (intern_attrs_content attr_value attr_set_value_idx
                (bn_attrs (heap !!! id)) hash strtab) as Hmap.
  destruct (intern_attrs _ _ _ _ _) as [[attrs h] s]. simpl in *.
  apply content_kept_insert. unfold bn_content. simpl.
  by rewrite Hmap.
Qed.

Lemma strtab_text_cb_content st data :
  content_kept (snd st) (snd (xb_builder_strtab_text_cb st data)).
Proof.
  destruct st as [[hash strtab] heap]. simpl.
  destruct data as [id|]; [|apply content_kept_refl].
  destruct (negb (live heap id)); [apply content_kept_refl|].
  destruct (bn_text (heap !!! id)) as [tmp|]; [|apply content_kept_refl].
  destruct (xb_builder_compile_add_to_strtab _ _ _) as [[idx h] s]. simpl.
  by apply content_kept_insert.
Qed.

Lemma fold_content_kept {S V : Type} (cb : S → V → S) (store : S → Store) :
  (∀ st v, content_kept (store st) (store (cb st v))) →
  ∀ visits st, content_kept (store st) (store (fold_left cb visits st)).
Proof.
  intros Hcb visits. induction visits as [|v visits IH]; intros st; simpl.
  - apply content_kept_refl.
  - eapply content_kept_trans; [apply Hcb|apply IH].
Qed.

Lemma write_cb_content `{cfg : SiloConfig} st n :
  content_kept (snd st) (snd (xb_builder_nodetab_write_cb st n)).
Proof.
  destruct st as [helper heap]. unfold xb_builder_nodetab_write_cb.
  destruct (v_data n) as [id|]; [|apply content_kept_refl].
  destruct (negb (live heap id)); [apply content_kept_refl|].
  simpl. by apply content_kept_insert.
Qed.

Lemma strtab_passes_content lv heap :
  content_kept heap
    (snd (fold_left xb_builder_strtab_text_cb lv
           (fold_left xb_builder_strtab_attr_value_cb lv
             (fold_left xb_builder_strtab_attr_name_cb lv
               (fold_left xb_builder_strtab_element_names_cb lv
                  (∅, [], heap)))))).
Proof.
  set (st1 := fold_left xb_builder_strtab_element_names_cb lv (∅, [], heap)).
  set (st2 := fold_left xb_builder_strtab_attr_name_cb lv st1).
  set (st3 := fold_left xb_builder_strtab_attr_value_cb lv st2).
  apply (content_kept_trans _ (snd st1));
    [exact (fold_content_kept _ snd strtab_element_names_cb_content lv
              (∅, [], heap))|].
  apply (content_kept_trans _ (snd st2));
    [exact (fold_content_kept _ snd strtab_attr_name_cb_content lv st1)|].
  apply (content_kept_trans _ (snd st3));
    [exact (fold_content_kept _ snd strtab_attr_value_cb_content lv st2)|].
  exact (fold_content_kept _ snd strtab_text_cb_content lv st3).
Qed.

(** The passes leave the content of every object as it is. *)
Lemma compile_tree_content `{cfg : SiloConfig} guid_acc root heap :
  content_kept heap (snd (compile_tree guid_acc root heap)).
Proof.
  unfold compile_tree.
  pose proof (strtab_passes_content (g_node_traverse_level_order root) heap)
    as H4.
  destruct (fold_left xb_builder_strtab_text_cb _ _) as [[hash strtab] heap4].
  simpl in H4.
  set (hdr := MkHeader _ _ _ _ _).
  pose proof (fold_content_kept _ snd write_cb_content
                (g_node_traverse_pre_order root)
                (MkNodetab [ChunkHeader hdr] 0, heap4)) as H5.
  destruct (fold_left xb_builder_nodetab_write_cb _ _) as [nt heap5].
  simpl in *. by eapply content_kept_trans.
Qed.

(** ** Grafting a node tree *)

Lemma g_node_alter_child (G : GNode → GNode) (c : GNode) p :
  ∀ root root1 n,
    g_node_get root p = Some n →
    g_node_alter (fun m => MkGNode (g_data m) (g_children m ++ [c])) root p
      = Some root1 →
    g_node_alter G root1 (p ++ [length (g_children n)])
    = g_node_alter (fun m => MkGNode (g_data m) (g_children m ++ [G c])) root p.
Proof.
  induction p as [|i p IH]; intros root root1 n Hn Halter; simpl in *.
  - injection Hn as ->. injection Halter as <-. simpl.
    rewrite lookup_app_r by lia. rewrite Nat.sub_diag. simpl.
    rewrite insert_app_r_alt by lia. by rewrite Nat.sub_diag.
  - destruct (g_children root !! i) as [ch|] eqn:Hi; [|done]. simpl in *.
    destruct (g_node_alter _ ch p) as [ch1|] eqn:Hch1; [|done].
    simpl in Halter. injection Halter as <-. simpl.
    rewrite list_lookup_insert_eq by (by eapply lookup_lt_Some). simpl.
    rewrite (IH ch ch1 n Hn Hch1).
    destruct (g_node_alter
                (fun m => MkGNode (g_data m) (g_children m ++ [G c])) ch p)
      as [ch2|]; [|done]. simpl.
    by rewrite list_insert_insert_eq.
Qed.

(** Grafting a node tree under [parent] adds, as the last child of
    [parent], the [GNode] tree that mirrors it: no node object is copied. *)
Lemma xb_builder_compile_node_tree_spec bn :
  ∀ root parent n,
    g_node_get root parent = Some n →
    xb_builder_compile_node_tree root parent bn
    = g_node_alter
        (fun m => MkGNode (g_data m) (g_children m ++ [gnode_of_bnode bn]))
        root parent.
Proof.
  induction bn as [id children IH] using BNode_ind.
  intros root parent n Hn. simpl.
  unfold g_node_append_data. rewrite Hn. simpl.
  set (pn := parent ++ [length (g_children n)]).
  set (loop := fix loop (children : list BNode) (root : GNode) : option GNode :=
         match children with
         | [] => Some root
         | bn2 :: rest =>
             root' ← xb_builder_compile_node_tree root pn bn2; loop rest root'
         end).
  assert (Hloop : ∀ rest done root_k,
    Forall (fun bn => ∀ root parent n,
              g_node_get root parent = Some n →
              xb_builder_compile_node_tree root parent bn
              = g_node_alter
                  (fun m => MkGNode (g_data m)
                              (g_children m ++ [gnode_of_bnode bn]))
                  root parent) rest →
    g_node_alter
      (fun m => MkGNode (g_data m)
                  (g_children m ++ [MkGNode (Some id) (map gnode_of_bnode done)]))
      root parent = Some root_k →
    loop rest root_k
    = g_node_alter
        (fun m => MkGNode (g_data m)
                    (g_children m
                     ++ [MkGNode (Some id) (map gnode_of_bnode (done ++ rest))]))
        root parent).
  { induction rest as [|c rest IHrest]; intros done root_k Hall Hk.
    - simpl. by rewrite app_nil_r.
    - apply Forall_cons_1 in Hall as [Hc Hall].
      change (loop (c :: rest) root_k)
        with (root' ← xb_builder_compile_node_tree root_k pn c; loop rest root').
      destruct (g_node_alter_append
                  [MkGNode (Some id) (map gnode_of_bnode done)] root parent n Hn)
        as (root_k' & Hk' & _ & Hget).
      rewrite Hk in Hk'. injection Hk' as <-.
      assert (Hpn : g_node_get root_k pn
                    = Some (MkGNode (Some id) (map gnode_of_bnode done))).
      { unfold pn. rewrite g_node_get_app, Hget. simpl.
        rewrite lookup_app_r by lia. by rewrite Nat.sub_diag. }
      rewrite (Hc root_k pn _ Hpn).
      rewrite (g_node_alter_child _ _ parent root root_k n Hn Hk). simpl.
      destruct (g_node_alter_append
                  [MkGNode (Some id)
                     (map gnode_of_bnode done ++ [gnode_of_bnode c])]
                  root parent n Hn) as (root2 & Hk2 & _).
      rewrite Hk2. simpl.
      rewrite (IHrest (done ++ [c]) root2 Hall).
      + by rewrite <- app_assoc.
      + by rewrite map_app. }
  destruct (g_node_alter_append [MkGNode (Some id) []] root parent n Hn)
    as (root1 & Hk1 & _).
  rewrite Hk1. simpl. exact (Hloop children [] root1 IH Hk1).
Qed.

(** ** The info tree of an import *)

(** C3 (as stated, refuted). Compile does not leave the node objects of the
    info tree of an import as they were: for [<a/>] imported with the info
    tree, the object of the [info] node has its offset slot overwritten. *)
Lemma C3_info_tree_is_written :
  ¬ (∀ (cfg : SiloConfig) (locales : list string) (self : XbBuilder)
       (flags : Z) (heap : Store) self' heap' r import info id,
       In import (b_imports self) → imp_info import = Some info →
       In id (bnode_ids info) →
       xb_builder_compile locales self flags heap = Some (self', heap', r) →
       heap' !!! id = heap !!! id).
Proof.
  intros Hclaim.
  destruct (xb_builder_compile (cfg := example_config) ["en"; "C"]
              (xb_builder_import xb_builder_new plain_import) 0 info_store)
    as [[[self' heap'] r]|] eqn:Hcompile; [|by vm_compute in Hcompile].
  specialize (Hclaim example_config ["en"; "C"]
                (xb_builder_import xb_builder_new plain_import) 0 info_store
                self' heap' r plain_import info_tree 0%nat
                (or_introl eq_refl) eq_refl (or_introl eq_refl) Hcompile).
  vm_compute in Hcompile. injection Hcompile as <- <- <-.
  vm_compute in Hclaim. discriminate Hclaim.
Qed.

(** C3 (amended). When the parser closes a top-level element of an import
    with an info tree, the callback leaves the store alone and adds, as the
    last child of that element, [GNode]s that point to the node objects of
    the info tree itself (nothing is copied); and a compile leaves the tag,
    the text, the attribute names and values and the flags of every object
    that the store held before as they were, so that it only writes their
    transient slots, and leaves the imports of the builder as they were. *)
Theorem C3_info_tree_shared `{cfg : SiloConfig} :
  (∀ element_name helper heap i n info,
     h_current helper = Some [i] →
     g_node_get (h_root helper) [i] = Some n →
     h_info helper = Some info →
     ∃ root',
       xb_builder_compile_end_element_cb element_name helper heap
         = Some (helper_set_tree helper root' (Some []), heap)
       ∧ g_node_get root' [i]
         = Some (MkGNode (g_data n) (g_children n ++ [gnode_of_bnode info]))
       ∧ grows (h_root helper) root')
  ∧ (∀ locales self flags heap self' heap' r,
       xb_builder_compile locales self flags heap = Some (self', heap', r) →
       b_imports self' = b_imports self
       ∧ (length heap ≤ length heap')%nat
       ∧ ∀ id, (id < length heap)%nat →
           bn_content (heap' !!! id) = bn_content (heap !!! id)).
Proof.
  split.
  - intros name helper heap i n info Hcur Hn Hinfo.
    unfold xb_builder_compile_end_element_cb. rewrite Hcur. simpl.
    rewrite Hinfo.
    rewrite (xb_builder_compile_node_tree_spec info (h_root helper) [i] n Hn).
    destruct (g_node_alter_append [gnode_of_bnode info] (h_root helper) [i] n Hn)
      as (root' & -> & Hg & Hget).
    simpl. exists root'. done.
  - intros locales self flags heap self' heap' r. unfold xb_builder_compile.
    set (helper0 := MkHelper _ _ _ _ _ _ _).
    destruct (compile_imports flags (b_imports self) helper0 heap)
      as [[[helper1 heap1] r1]|] eqn:Himports; [|done]. simpl.
    destruct (compile_imports_inv (length heap) flags (b_imports self)
                helper0 heap helper1 heap1 r1) as [Hlen1 Hkeep1]; [done..|].
    destruct r1 as [u|e].
    2:{ intros [= <- <- <-]. split; [done|]. split; [done|].
        intros id Hid. by rewrite Hkeep1. }
    destruct (compile_nodes (b_nodes self) (h_root helper1)) as [root|];
      [|done]. simpl.
    pose proof (compile_tree_content (b_guid self) root heap1) as [Hlen2 Hkeep2].
    destruct (compile_tree (b_guid self) root heap1) as [blob heap2].
    simpl in Hlen2, Hkeep2.
    assert (Hres : (length heap ≤ length heap2)%nat
                   ∧ ∀ id, (id < length heap)%nat →
                       bn_content (heap2 !!! id) = bn_content (heap !!! id)).
    { split; [lia|]. intros id Hid. by rewrite Hkeep2, Hkeep1. }
    destruct (xb_silo_load_from_bytes (b_silo self) blob) as [silo|e];
      intros [= <- <- <-]; by split.
Qed.

Lemma C3_info_tree_shared_witness :
  (∃ root',
     xb_builder_compile_end_element_cb "a"
       (MkHelper (MkGNode None [MkGNode (Some 2%nat) []]) (Some [0%nat]) 0 ∅ []
                 (Some info_tree) ["en"; "C"])
       (info_store ++ [xb_builder_node_new "a"])
     = Some (MkHelper root' (Some []) 0 ∅ [] (Some info_tree) ["en"; "C"],
             info_store ++ [xb_builder_node_new "a"])
     ∧ g_node_get root' [0%nat]
       = Some (MkGNode (Some 2%nat)
                 [MkGNode (Some 0%nat) [MkGNode (Some 1%nat) []]]))
  ∧ ∃ self' heap' silo,
      xb_builder_compile (cfg := example_config) ["en"; "C"]
        (xb_builder_import xb_builder_new plain_import) 0 info_store
      = Some (self', heap', GOk silo)
      ∧ bn_content (heap' !!! 0%nat) = bn_content (info_store !!! 0%nat)
      ∧ bn_content (heap' !!! 1%nat) = bn_content (info_store !!! 1%nat)
      ∧ heap' !!! 0%nat ≠ info_store !!! 0%nat.
Proof.
  split.
  - destruct (proj1 (C3_info_tree_shared (cfg := example_config)) "a"
      (MkHelper (MkGNode None [MkGNode (Some 2%nat) []]) (Some [0%nat]) 0 ∅ []
                (Some info_tree) ["en"; "C"])
      (info_store ++ [xb_builder_node_new "a"]) 0%nat
      (MkGNode (Some 2%nat) []) info_tree eq_refl eq_refl eq_refl)
      as (root' & Hcb & Hget & _).
    exists root'. split; [exact Hcb|exact Hget].
  - destruct (xb_builder_compile (cfg := example_config) ["en"; "C"]
                (xb_builder_import xb_builder_new plain_import) 0 info_store)
      as [[[self' heap'] [silo|e]]|] eqn:Hcompile;
      [|by vm_compute in Hcompile..].
    destruct (proj2 (C3_info_tree_shared (cfg := example_config)) ["en"; "C"]
                (xb_builder_import xb_builder_new plain_import) 0 info_store
                self' heap' (GOk silo) Hcompile) as (_ & _ & Hkeep).
    exists self', heap', silo. split; [reflexivity|].
    split; [apply Hkeep; simpl; lia|]. split; [apply Hkeep; simpl; lia|].
    vm_compute in Hcompile. injection Hcompile as <- <- <-.
    vm_compute. discriminate.
Defined.

(** ** The size of the node table *)

Lemma u32_add_l a b : u32 (u32 a + b) = u32 (a + b).
Proof. unfold u32. by rewrite Z.add_mod_idemp_l. Qed.

Lemma u32_sub_l a b : u32 (u32 a - b) = u32 (a - b).
Proof. unfold u32. by rewrite Zminus_mod_idemp_l. Qed.

Lemma buf_len_cons `{cfg : SiloConfig} c (buf : list SiloChunk) :
  buf_len (c :: buf) = chunk_size c + buf_len buf.
Proof. reflexivity. Qed.

Lemma buf_len_app `{cfg : SiloConfig} (b1 b2 : list SiloChunk) :
  buf_len (b1 ++ b2) = buf_len b1 + buf_len b2.
Proof.
  induction b1 as [|c b1 IH]; simpl; [done|].
  unfold buf_len in *. simpl. rewrite IH. lia.
Qed.

Lemma buf_len_sentinels `{cfg : SiloConfig} k :
  buf_len (repeat (ChunkNode sentinel) k) = Z.of_nat k * sizeof_sentinel.
Proof.
  induction k as [|k IH]; [done|].
  change (repeat (ChunkNode sentinel) (S k))
    with ([ChunkNode sentinel] ++ repeat (ChunkNode sentinel) k).
  rewrite buf_len_app, IH. unfold buf_len. simpl. lia.
Qed.

Lemma buf_len_attrs `{cfg : SiloConfig} (attrs : list XbBuilderNodeAttr) :
  buf_len (map (fun ba => ChunkAttr (MkSiloAttr (name_idx ba) (value_idx ba)))
               attrs)
  = Z.of_nat (length attrs) * sizeof_XbSiloAttr.
Proof.
  induction attrs as [|a attrs IH]; [done|].
  unfold buf_len in *. simpl map. simpl fold_right. rewrite IH.
  simpl length. simpl chunk_size. lia.
Qed.

Lemma emitted_content heap heap' data :
  content_kept heap heap' → emitted heap' data = emitted heap data.
Proof.
  intros Hc. destruct data as [id|]; [|done]. by apply content_kept_live.
Qed.

Lemma node_bytes_content `{cfg : SiloConfig} heap heap' data :
  content_kept heap heap' → node_bytes heap' data = node_bytes heap data.
Proof.
  intros [_ Hc]. destruct data as [id|]; [|done]. simpl.
  specialize (Hc id). unfold bn_content in Hc.
  injection Hc as _ Htext Hattrs _. rewrite Htext.
  apply (f_equal length) in Hattrs. rewrite !length_map in Hattrs.
  by rewrite Hattrs.
Qed.

(** The size pass adds, for each node written, the bytes of its records
    and one byte for its sentinel, modulo 2^32. *)
Lemma size_pass `{cfg : SiloConfig} heap visits :
  ∀ sz sz', sz = u32 sz' →
    fold_left (xb_builder_nodetab_size_cb heap) visits sz
    = u32 (sz' + bytes_written heap visits
           + Z.of_nat (count_emitted heap visits)).
Proof.
  induction visits as [|v visits IH]; intros sz sz' Hsz; simpl.
  - rewrite Hsz. f_equal; lia.
  - unfold xb_builder_nodetab_size_cb at 2. unfold emitted.
    destruct (v_data v) as [id|]; simpl.
    2:{ rewrite (IH sz sz' Hsz). f_equal; lia. }
    destruct (live heap id); simpl.
    2:{ rewrite (IH sz sz' Hsz). f_equal; lia. }
    unfold xb_builder_node_size.
    destruct (bn_text (heap !!! id)) as [t|].
    + erewrite IH; [|rewrite Hsz, u32_add_l; reflexivity]. f_equal; lia.
    + erewrite IH; [|rewrite Hsz, u32_add_l, u32_sub_l; reflexivity].
      f_equal; lia.
Qed.

(** The write pass appends the records of the nodes written and the
    sentinels that close the nodes before them. *)
Lemma write_pass_len `{cfg : SiloConfig} heap0 visits :
  ∀ helper heap,
    content_kept heap0 heap →
    let st := fold_left xb_builder_nodetab_write_cb visits (helper, heap) in
    buf_len (nt_buf (fst st))
    = buf_len (nt_buf helper) + bytes_written heap0 visits
      + Z.of_nat (sentinels_written heap0 (nt_level helper) visits)
        * sizeof_sentinel
    ∧ nt_level (fst st) = level_after heap0 (nt_level helper) visits.
Proof.
  induction visits as [|v visits IH]; intros helper heap Hkept; simpl.
  - split; [lia|done].
  - pose proof (write_cb_content (helper, heap) v) as Hstep.
    unfold xb_builder_nodetab_write_cb in *.
    rewrite <- (emitted_content heap0 heap (v_data v) Hkept).
    rewrite <- (node_bytes_content heap0 heap (v_data v) Hkept).
    unfold emitted, node_bytes.
    destruct (v_data v) as [id|]; simpl in *.
    2:{ destruct (IH helper heap Hkept) as [-> ->]. split; [lia|done]. }
    destruct (live heap id); simpl in *.
    2:{ destruct (IH helper heap Hkept) as [-> ->]. split; [lia|done]. }
    rewrite iter_write_sentinel in *. simpl in *.
    edestruct IH as [-> ->]; [by eapply content_kept_trans|]. simpl.
    split; [|done].
    rewrite !buf_len_app, buf_len_sentinels.
    change (ChunkNode ?x :: ?y) with ([ChunkNode x] ++ y).
    rewrite buf_len_app, buf_len_attrs.
    unfold buf_len at 2. simpl.
    destruct (bn_text (heap !!! id)) as [t|]; simpl.
    + lia.
    + lia.
Qed.

(** The fix-up pass does not change the size of any record. *)
Lemma buf_alter_node_len `{cfg : SiloConfig} f off buf :
  (∀ sn, chunk_size (ChunkNode (f sn)) = chunk_size (ChunkNode sn)) →
  ∀ pos, buf_len (buf_alter_node f off pos buf) = buf_len buf.
Proof.
  intros Hf. induction buf as [|c buf IH]; intros pos; [done|].
  destruct c as [hdr|sn|attr|bytes]; cbn [buf_alter_node];
    try (by rewrite !buf_len_cons, IH).
  destruct (pos =? off); rewrite !buf_len_cons; [by rewrite Hf|by rewrite IH].
Qed.

Lemma fix_cb_len `{cfg : SiloConfig} heap buf n :
  buf_len (xb_builder_nodetab_fix_cb heap buf n) = buf_len buf.
Proof.
  unfold xb_builder_nodetab_fix_cb.
  destruct (v_data n) as [id|]; [|done].
  destruct (negb (live heap id)); [done|].
  destruct (v_parent n) as [[id2|]|], (v_next n) as [data2|];
    rewrite ?buf_alter_node_len; done.
Qed.

Lemma fix_pass_len `{cfg : SiloConfig} heap visits :
  ∀ buf, buf_len (fold_left (xb_builder_nodetab_fix_cb heap) visits buf)
         = buf_len buf.
Proof.
  induction visits as [|v visits IH]; intros buf; simpl; [done|].
  by rewrite IH, fix_cb_len.
Qed.

Lemma GNode_ind (P : GNode → Prop) :
  (∀ data children, Forall P children → P (MkGNode data children)) →
  ∀ n, P n.
Proof.
  intros Hstep. fix IH 1. intros [data children]. apply Hstep.
  induction children as [|c cs IHcs]; constructor; [apply IH|exact IHcs].
Qed.

Lemma pre_order_unfold depth parent next data children :
  pre_order depth parent next (MkGNode data children)
  = MkVisit data depth parent next
      :: pre_order_forest (depth + 1) (Some data) children.
Proof.
  simpl. f_equal. induction children as [|c cs IH]; [done|].
  simpl. by rewrite IH.
Qed.

Lemma level_after_app heap level v1 v2 :
  level_after heap level (v1 ++ v2)
  = level_after heap (level_after heap level v1) v2.
Proof.
  revert level. induction v1 as [|v v1 IH]; intros level; simpl; [done|].
  destruct (emitted heap (v_data v)); apply IH.
Qed.

Lemma depth_chain_app heap level v1 v2 :
  depth_chain heap level (v1 ++ v2)
  ↔ depth_chain heap level v1
    ∧ depth_chain heap (level_after heap level v1) v2.
Proof.
  revert level. induction v1 as [|v v1 IH]; intros level; simpl.
  - tauto.
  - destruct (emitted heap (v_data v)); rewrite IH; tauto.
Qed.

Lemma depth_chain_quiet heap level visits :
  Forall (fun v => emitted heap (v_data v) = false) visits →
  depth_chain heap level visits ∧ level_after heap level visits = level.
Proof.
  induction 1 as [|v visits Hv _ IH]; simpl; [done|]. by rewrite Hv.
Qed.

Lemma none_emitted_quiet heap n :
  ∀ depth parent next, none_emitted heap n = true →
    Forall (fun v => emitted heap (v_data v) = false)
           (pre_order depth parent next n).
Proof.
  induction n as [data children IH] using GNode_ind.
  intros depth parent next Hnone. rewrite pre_order_unfold.
  simpl in Hnone. apply andb_true_iff in Hnone as [Hdata Hchildren].
  constructor; [by apply negb_true_iff in Hdata|].
  generalize (depth + 1) (Some data). intros e par.
  induction IH as [|c cs Hc _ IHcs]; simpl; [constructor|].
  simpl in Hchildren. apply andb_true_iff in Hchildren as [Hc' Hcs'].
  apply Forall_app. split; [by apply Hc|by apply IHcs].
Qed.

(** In a tree where nothing is written below a node that is not written,
    the nodes written follow each other at most one level down. *)
Lemma live_closed_chain heap n :
  ∀ depth parent next level,
    live_closed heap n = true → 2 ≤ depth → depth - 1 ≤ Z.max level 1 →
    depth_chain heap level (pre_order depth parent next n)
    ∧ depth - 1
      ≤ Z.max (level_after heap level (pre_order depth parent next n)) 1.
Proof.
  induction n as [data children IH] using GNode_ind.
  intros depth parent next level Hclosed Hdepth Hlevel.
  rewrite pre_order_unfold. simpl in Hclosed |- *.
  destruct (emitted heap data) eqn:Hdata.
  - assert (Hforest : ∀ lv,
      depth ≤ Z.max lv 1 →
      depth_chain heap lv (pre_order_forest (depth + 1) (Some data) children)
      ∧ depth ≤ Z.max (level_after heap lv
                         (pre_order_forest (depth + 1) (Some data) children)) 1).
    { induction IH as [|c cs Hc _ IHcs]; intros lv Hlv; simpl; [done|].
      simpl in Hclosed. apply andb_true_iff in Hclosed as [Hc' Hcs'].
      destruct (Hc (depth + 1) (Some data) (g_data <$> head cs) lv Hc')
        as [Hchain1 Hlevel1]; [lia..|].
      rewrite depth_chain_app, level_after_app.
      destruct (IHcs Hcs' (level_after heap lv
                  (pre_order (depth + 1) (Some data) (g_data <$> head cs) c)))
        as [Hchain2 Hlevel2]; [lia|]. done. }
    destruct (Hforest depth) as [Hchain Hafter]; [lia|].
    split; [split; [lia|done]|lia].
  - assert (Hquiet : Forall (fun v => emitted heap (v_data v) = false)
                       (pre_order_forest (depth + 1) (Some data) children)).
    { generalize (depth + 1) (Some data). intros e par. clear IH.
      induction children as [|c cs IHcs]; simpl; [constructor|].
      simpl in Hclosed. apply andb_true_iff in Hclosed as [Hc' Hcs'].
      apply Forall_app. split; [by apply none_emitted_quiet|by apply IHcs]. }
    destruct (depth_chain_quiet heap level _ Hquiet) as [Hchain ->]. done.
Qed.

(** Along such a chain every node written is closed by one sentinel, once
    the nodes still open at the end are closed too. *)
Lemma sentinels_balance heap visits :
  ∀ level, 0 ≤ level → depth_chain heap level visits →
    Z.of_nat (sentinels_written heap level visits)
    + Z.max (level_after heap level visits - 1) 0
    = Z.of_nat (count_emitted heap visits) + Z.max (level - 1) 0.
Proof.
  induction visits as [|v visits IH]; intros level Hlevel Hchain; simpl in *.
  - lia.
  - destruct (emitted heap (v_data v)).
    + destruct Hchain as [Hd Hchain].
      specialize (IH (v_depth v) ltac:(lia) Hchain). lia.
    + specialize (IH level Hlevel Hchain). lia.
Qed.

Lemma live_closed_forest_chain heap children :
  ∀ depth parent level,
    forallb (live_closed heap) children = true →
    2 ≤ depth → depth - 1 ≤ Z.max level 1 →
    depth_chain heap level (pre_order_forest depth parent children)
    ∧ depth - 1
      ≤ Z.max (level_after heap level
                 (pre_order_forest depth parent children)) 1.
Proof.
  induction children as [|c cs IH]; intros depth parent level Hclosed Hd Hl;
    simpl; [done|].
  simpl in Hclosed. apply andb_true_iff in Hclosed as [Hc Hcs].
  destruct (live_closed_chain heap c depth parent (g_data <$> head cs) level
              Hc Hd Hl) as [Hchain1 Hlevel1].
  rewrite depth_chain_app, level_after_app.
  destruct (IH depth parent _ Hcs Hd Hlevel1) as [Hchain2 Hlevel2]. done.
Qed.

(** Where no node is written below an ignored one, the size pass is exact:
    the [strtab] field of the header is the offset at which the string table
    starts, reduced modulo 2^32. *)
Theorem nodetab_size_exact `{cfg : SiloConfig} (guid_acc : string)
    (root : GNode) (heap : Store) :
  sizeof_sentinel = 1 →
  g_data root = None →
  forallb (live_closed heap) (g_children root) = true →
  ∃ hdr nodetab strtab,
    fst (compile_tree guid_acc root heap)
      = ChunkHeader hdr :: nodetab ++ [ChunkStrtab strtab]
    ∧ hdr_strtab hdr = u32 (buf_len (ChunkHeader hdr :: nodetab)).
Proof.
  intros Hsentinel Hroot Hclosed.
  set (visits := g_node_traverse_pre_order root).
  assert (Hchain : depth_chain heap 0 visits).
  { unfold visits, g_node_traverse_pre_order. destruct root as [data children].
    simpl in Hroot, Hclosed. subst data. rewrite pre_order_unfold. simpl.
    by apply live_closed_forest_chain. }
  pose proof (sentinels_balance heap visits 0 ltac:(lia) Hchain) as Hbalance.
  unfold compile_tree. fold visits.
  rewrite (size_pass heap visits (u32 sizeof_XbSiloHeader) sizeof_XbSiloHeader
             eq_refl).
  pose proof (strtab_passes_content (g_node_traverse_level_order root) heap)
    as H4.
  destruct (fold_left xb_builder_strtab_text_cb _ _) as [[hash strtab] heap4].
  simpl in H4.
  set (hdr := MkHeader _ _ _ _ _).
  destruct (write_pass_len heap visits (MkNodetab [ChunkHeader hdr] 0) heap4 H4)
    as [Hlen Hlevel].
  destruct (write_pass_appends visits (MkNodetab [ChunkHeader hdr] 0, heap4))
    as (suffix & Hbuf).
  destruct (fold_left xb_builder_nodetab_write_cb visits _) as [helper heap5].
  simpl in Hlen, Hlevel, Hbuf. rewrite iter_write_sentinel. simpl.
  set (buf := nt_buf helper ++ repeat (ChunkNode sentinel) _).
  assert (Hbuflen : buf_len buf
                    = sizeof_XbSiloHeader + bytes_written heap visits
                      + Z.of_nat (count_emitted heap visits)).
  { unfold buf. rewrite buf_len_app, buf_len_sentinels, Hlen, Hlevel.
    rewrite Hsentinel. lia. }
  pose proof (fix_pass_len heap5 visits buf) as Hfixlen.
  assert (Hbuf' : buf = ChunkHeader hdr
                          :: (suffix ++ repeat (ChunkNode sentinel)
                                          (Z.to_nat (nt_level helper - 1)))).
  { unfold buf. by rewrite Hbuf. }
  destruct (fix_pass_header heap5 visits hdr
              (suffix ++ repeat (ChunkNode sentinel)
                           (Z.to_nat (nt_level helper - 1))))
    as (nodetab & Hfix).
  rewrite <- Hbuf' in Hfix. rewrite Hfix in Hfixlen |- *.
  exists hdr, nodetab, strtab. split; [done|].
  rewrite buf_len_cons in Hfixlen. simpl in Hfixlen.
  rewrite Hfixlen, Hbuflen. reflexivity.
Qed.

(** ** The scenarios of the specification *)

(** S1: two nodes and two sentinels; [a] has no parent and no next, [b] has
    [a] (at offset 32) for parent and no next; the string table holds [a],
    [b] and [hello]; two tags. *)
Example scenario_S1 :
  let blob := compiled_blob (cfg := example_config) ["en"; "C"]
                (xb_builder_import xb_builder_new hello_import) 0 [] in
  map (fun sn => (sn_element_name sn, sn_parent sn, sn_next sn, sn_has_text sn))
      (blob_nodes blob)
    = [(0, 0, 0, false); (2, 32, 0, true)]
  ∧ length (filter (fun c => is_sentinel c = true) blob) = 2%nat
  ∧ blob_strtab blob
    = list_ascii_of_string "a" ++ NUL :: list_ascii_of_string "b"
      ++ NUL :: list_ascii_of_string "hello" ++ [NUL]
  ∧ hdr_strtab_ntags <$> blob_header blob = Some 2.
Proof. repeat split; vm_compute; reflexivity. Qed.

(** S2: with [NATIVE_LANGS] and the locales [en], [C], only [r] and the
    [en] node are written, the latter with its [xml:lang] attribute; two
    tags. *)
Example scenario_S2 :
  let blob := compiled_blob (cfg := example_config) ["en"; "C"]
                (xb_builder_import xb_builder_new bonjour_import)
                XB_BUILDER_COMPILE_FLAG_NATIVE_LANGS [] in
  map (fun sn => (sn_element_name sn, sn_nr_attrs sn)) (blob_nodes blob)
    = [(0, 0); (2, 1)]
  ∧ blob_strtab blob
    = list_ascii_of_string "r" ++ NUL :: list_ascii_of_string "x"
      ++ NUL :: list_ascii_of_string "xml:lang" ++ NUL
      :: list_ascii_of_string "en" ++ NUL :: list_ascii_of_string "hi" ++ [NUL]
  ∧ hdr_strtab_ntags <$> blob_header blob = Some 2.
Proof. repeat split; vm_compute; reflexivity. Qed.

(** ** Records and their offsets *)

Lemma chunk_size_nonneg `{cfg : SiloConfig} c :
  layout_ok → 0 ≤ chunk_size c.
Proof.
  intros (Hh & Hn & Ha & Hs). destruct c as [hdr|sn|attr|bytes]; simpl;
    [lia| |lia|lia].
  destruct (sn_is_node sn), (sn_has_text sn); lia.
Qed.

Lemma chunk_size_node_pos `{cfg : SiloConfig} sn :
  layout_ok → 0 < chunk_size (ChunkNode sn).
Proof.
  intros (Hh & Hn & Ha & Hs). simpl.
  destruct (sn_is_node sn), (sn_has_text sn); lia.
Qed.

Lemma buf_len_nonneg `{cfg : SiloConfig} buf : layout_ok → 0 ≤ buf_len buf.
Proof.
  intros Hok. induction buf as [|c buf IH]; [done|].
  rewrite buf_len_cons. pose proof (chunk_size_nonneg c Hok). lia.
Qed.

(** Every record starts before the end of the buffer. *)
Lemma node_positions_bound `{cfg : SiloConfig} buf :
  layout_ok → ∀ pos p, p ∈ node_positions pos buf →
  pos ≤ p < pos + buf_len buf.
Proof.
  intros Hok. induction buf as [|c buf IH]; intros pos p Hp; simpl in Hp.
  - by apply elem_of_nil in Hp.
  - rewrite buf_len_cons. pose proof (chunk_size_nonneg c Hok) as Hc.
    pose proof (buf_len_nonneg buf Hok) as Hb.
    destruct c as [hdr|sn|attr|bytes];
      try (specialize (IH _ _ Hp); lia).
    pose proof (chunk_size_node_pos sn Hok) as Hsn.
    apply elem_of_cons in Hp as [->|Hp]; [lia|].
    specialize (IH _ _ Hp). lia.
Qed.

Lemma get_node_position `{cfg : SiloConfig} off buf :
  ∀ pos sn, xb_builder_get_node off pos buf = Some sn →
  off ∈ node_positions pos buf.
Proof.
  induction buf as [|c buf IH]; intros pos sn Hget; simpl in *; [done|].
  destruct c as [hdr|sn'|attr|bytes]; eauto.
  destruct (pos =? off) eqn:E.
  - apply Z.eqb_eq in E. subst. left.
  - right. eauto.
Qed.

(** Appending to the buffer does not move the records it holds. *)
Lemma get_node_app_Some `{cfg : SiloConfig} off buf suffix :
  ∀ pos sn, xb_builder_get_node off pos buf = Some sn →
  xb_builder_get_node off pos (buf ++ suffix) = Some sn.
Proof.
  induction buf as [|c buf IH]; intros pos sn Hget; simpl in *; [done|].
  destruct c as [hdr|sn'|attr|bytes]; eauto.
  destruct (pos =? off); eauto.
Qed.

Lemma get_node_app_fresh `{cfg : SiloConfig} off buf suffix :
  ∀ pos, off ∉ node_positions pos buf →
  xb_builder_get_node off pos (buf ++ suffix)
  = xb_builder_get_node off (pos + buf_len buf) suffix.
Proof.
  induction buf as [|c buf IH]; intros pos Hfresh.
  - simpl. f_equal. unfold buf_len. simpl. lia.
  - rewrite buf_len_cons.
    replace (pos + (chunk_size c + buf_len buf))
      with (pos + chunk_size c + buf_len buf) by lia.
    cbn [app xb_builder_get_node]. cbn [node_positions] in Hfresh.
    destruct c as [hdr|sn'|attr|bytes]; try (by apply IH).
    apply not_elem_of_cons in Hfresh as [Hne Hfresh].
    destruct (pos =? off) eqn:E; [apply Z.eqb_eq in E; congruence|].
    by apply IH.
Qed.

(** An assignment through a record pointer changes that record only. *)
Lemma get_node_alter `{cfg : SiloConfig} f off1 off2 buf :
  (∀ sn, chunk_size (ChunkNode (f sn)) = chunk_size (ChunkNode sn)) →
  ∀ pos,
    xb_builder_get_node off2 pos (buf_alter_node f off1 pos buf)
    = if decide (off1 = off2)
      then f <$> xb_builder_get_node off1 pos buf
      else xb_builder_get_node off2 pos buf.
Proof.
  intros Hf. induction buf as [|c buf IH]; intros pos.
  - simpl. by case_decide.
  - destruct c as [hdr|sn|attr|bytes]; cbn [buf_alter_node xb_builder_get_node];
      try apply IH.
    destruct (pos =? off1) eqn:E1.
    + apply Z.eqb_eq in E1. subst off1.
      cbn [xb_builder_get_node]. case_decide as Hd.
      * subst off2. rewrite Z.eqb_refl. reflexivity.
      * apply Z.eqb_neq in Hd. rewrite Hd, Hf. reflexivity.
    + cbn [xb_builder_get_node]. rewrite IH.
      destruct (pos =? off2) eqn:E2; [|done].
      apply Z.eqb_eq in E2. subst off2. apply Z.eqb_neq in E1.
      by rewrite decide_False.
Qed.

Lemma sn_set_parent_size `{cfg : SiloConfig} parent sn :
  chunk_size (ChunkNode (sn_set_parent parent sn)) = chunk_size (ChunkNode sn).
Proof. reflexivity. Qed.

Lemma sn_set_next_size `{cfg : SiloConfig} next sn :
  chunk_size (ChunkNode (sn_set_next next sn)) = chunk_size (ChunkNode sn).
Proof. reflexivity. Qed.

(** ** The offsets that the write pass records *)

Lemma emitted_ids_content heap heap' visits :
  content_kept heap heap' → emitted_ids heap' visits = emitted_ids heap visits.
Proof.
  intros Hc. induction visits as [|v visits IH]; simpl; [done|].
  destruct (v_data v) as [id|]; [|done].
  by rewrite (content_kept_live heap heap' id Hc), IH.
Qed.

Lemma written_inv_app `{cfg : SiloConfig} buf suffix heap ids :
  written_inv buf heap ids → written_inv (buf ++ suffix) heap ids.
Proof.
  intros [Hrec Hinj]. split; [|done]. intros id Hid.
  destruct (Hrec id Hid) as (sn & Hget & ?). exists sn.
  split; [by apply get_node_app_Some|done].
Qed.

(** Writing one node: its record starts at the end of the buffer, after
    every record written before. *)
Lemma write_node_written `{cfg : SiloConfig} helper heap id ids :
  layout_ok →
  written_inv (nt_buf helper) heap ids →
  id ∉ ids → (id < length heap)%nat →
  buf_len (nt_buf helper) < 4294967296 →
  written_inv (nt_buf (fst (xb_builder_nodetab_write_node helper heap id)))
              (snd (xb_builder_nodetab_write_node helper heap id))
              (ids ++ [id]).
Proof.
  intros Hok [Hrec Hinj] Hnew Hid Hlen.
  unfold xb_builder_nodetab_write_node. simpl.
  set (buf := nt_buf helper) in *.
  pose proof (buf_len_nonneg buf Hok) as Hnn.
  set (bn' := xb_builder_node_set_offset (heap !!! id) (buf_len buf)).
  assert (Hoff : bn_offset bn' = buf_len buf).
  { unfold bn'. simpl. unfold u32. apply Z.mod_small. lia. }
  assert (Hold : ∀ id', id' ∈ ids →
            (<[id := bn']> heap) !!! id' = heap !!! id').
  { intros id' Hid'. apply list_lookup_total_insert_ne. congruence. }
  assert (Hself : (<[id := bn']> heap) !!! id = bn').
  { by apply list_lookup_total_insert_eq. }
  assert (Hbefore : ∀ id', id' ∈ ids → bn_offset (heap !!! id') < buf_len buf).
  { intros id' Hid'. destruct (Hrec id' Hid') as (sn & Hget & _).
    apply get_node_position in Hget.
    apply (node_positions_bound buf Hok) in Hget. lia. }
  split.
  - intros id' Hid'. apply elem_of_app in Hid' as [Hid'|Hid'].
    + rewrite (Hold id' Hid'). destruct (Hrec id' Hid') as (sn & Hget & ?).
      exists sn. split; [by apply get_node_app_Some|done].
    + apply list_elem_of_singleton in Hid'. subst id'. rewrite Hself, Hoff.
      rewrite get_node_app_fresh.
      * simpl. rewrite Z.eqb_refl. eexists. split; [reflexivity|done].
      * intros Hin. apply (node_positions_bound buf Hok) in Hin. lia.
  - intros id1 id2 H1 H2.
    apply elem_of_app in H1 as [H1|H1]; apply elem_of_app in H2 as [H2|H2].
    + rewrite (Hold _ H1), (Hold _ H2). by apply Hinj.
    + apply list_elem_of_singleton in H2. subst id2.
      rewrite (Hold _ H1), Hself, Hoff. intros Heq.
      specialize (Hbefore _ H1). lia.
    + apply list_elem_of_singleton in H1. subst id1.
      rewrite (Hold _ H2), Hself, Hoff. intros Heq.
      specialize (Hbefore _ H2). lia.
    + apply list_elem_of_singleton in H1. apply list_elem_of_singleton in H2.
      by subst.
Qed.

Lemma write_cb_len_mono `{cfg : SiloConfig} st n :
  layout_ok →
  buf_len (nt_buf (fst st))
  ≤ buf_len (nt_buf (fst (xb_builder_nodetab_write_cb st n))).
Proof.
  intros Hok. destruct (write_cb_appends st n) as (suffix & ->).
  rewrite buf_len_app. pose proof (buf_len_nonneg suffix Hok). lia.
Qed.

Lemma write_pass_len_mono `{cfg : SiloConfig} visits st :
  layout_ok →
  buf_len (nt_buf (fst st))
  ≤ buf_len (nt_buf (fst (fold_left xb_builder_nodetab_write_cb visits st))).
Proof.
  intros Hok. destruct (write_pass_appends visits st) as (suffix & ->).
  rewrite buf_len_app. pose proof (buf_len_nonneg suffix Hok). lia.
Qed.

Lemma write_cb_skipped `{cfg : SiloConfig} helper heap v :
  emitted heap (v_data v) = false →
  xb_builder_nodetab_write_cb (helper, heap) v = (helper, heap).
Proof.
  unfold xb_builder_nodetab_write_cb, emitted.
  destruct (v_data v) as [id|]; [|done]. by intros ->.
Qed.

Lemma write_cb_emitted `{cfg : SiloConfig} helper heap v id :
  v_data v = Some id → live heap id = true →
  xb_builder_nodetab_write_cb (helper, heap) v
  = let helper1 :=
      MkNodetab (nt_buf helper
                 ++ repeat (ChunkNode sentinel)
                      (Z.to_nat (nt_level helper - v_depth v + 1)))
                (nt_level helper) in
    (MkNodetab
       (nt_buf (fst (xb_builder_nodetab_write_node helper1 heap id)))
       (v_depth v),
     snd (xb_builder_nodetab_write_node helper1 heap id)).
Proof.
  intros Hd Hlive. unfold xb_builder_nodetab_write_cb.
  rewrite Hd, Hlive, iter_write_sentinel. reflexivity.
Qed.

(** The write pass: when no node object is written twice, every node
    written has the offset of its record in its slot. *)
Lemma write_pass_written `{cfg : SiloConfig} heap0 visits :
  layout_ok →
  ∀ helper heap ids,
    content_kept heap0 heap →
    written_inv (nt_buf helper) heap ids →
    NoDup (ids ++ emitted_ids heap0 visits) →
    (∀ id, id ∈ emitted_ids heap0 visits → (id < length heap0)%nat) →
    let st := fold_left xb_builder_nodetab_write_cb visits (helper, heap) in
    buf_len (nt_buf (fst st)) < 4294967296 →
    written_inv (nt_buf (fst st)) (snd st) (ids ++ emitted_ids heap0 visits).
Proof.
  intros Hok. induction visits as [|v visits IH];
    intros helper heap ids Hkept Hinv Hnodup Hvalid; cbn [fold_left].
  - intros _. simpl. by rewrite app_nil_r.
  - pose proof (write_cb_content (helper, heap) v) as Hstep.
    pose proof (write_pass_len_mono visits
                  (xb_builder_nodetab_write_cb (helper, heap) v) Hok) as Hmono.
    cbn [emitted_ids] in Hnodup, Hvalid |- *. cbn [fst snd] in Hstep.
    destruct (v_data v) as [id|] eqn:Hd.
    2:{ rewrite write_cb_skipped by (by rewrite Hd). by apply IH. }
    rewrite <- (content_kept_live heap0 heap id Hkept) in Hnodup, Hvalid |- *.
    destruct (live heap id) eqn:Hlive.
    2:{ rewrite write_cb_skipped by (by rewrite Hd). by apply IH. }
    rewrite (write_cb_emitted helper heap v id Hd Hlive) in Hstep, Hmono |- *.
    set (helper1 := MkNodetab _ (nt_level helper)) in *.
    pose proof (write_node_written helper1 heap id ids Hok) as Hnode.
    assert (Hgrow : buf_len (nt_buf helper1)
                    ≤ buf_len (nt_buf (fst (xb_builder_nodetab_write_node
                                              helper1 heap id)))).
    { unfold xb_builder_nodetab_write_node. simpl. rewrite !buf_len_app.
      pose proof (buf_len_nonneg
        (ChunkNode (MkSiloNode true (bool_decide (bn_text (heap !!! id) ≠ None))
           (Z.of_nat (length (bn_attrs (heap !!! id))))
           (bn_element_idx (heap !!! id)) 0 0 (bn_text_idx (heap !!! id)))
         :: map (fun ba => ChunkAttr (MkSiloAttr (name_idx ba) (value_idx ba)))
              (bn_attrs (heap !!! id))) Hok). lia. }
    cbn [fst snd nt_buf] in Hmono |- *. intros Hlen.
    assert (Hnew : id ∉ ids).
    { apply NoDup_app in Hnodup as (_ & Hdisj & _). intros Hin.
      apply (Hdisj id Hin). left. }
    assert (Hid : (id < length heap)%nat).
    { destruct Hkept as [-> _]. apply Hvalid. left. }
    assert (Hinv1 : written_inv (nt_buf helper1) heap ids).
    { unfold helper1. cbn [nt_buf]. by apply written_inv_app. }
    specialize (Hnode Hinv1 Hnew Hid ltac:(lia)).
    replace (ids ++ id :: emitted_ids heap0 visits)
      with ((ids ++ [id]) ++ emitted_ids heap0 visits)
      by (by rewrite <- app_assoc).
    apply (IH (MkNodetab
                 (nt_buf (fst (xb_builder_nodetab_write_node helper1 heap id)))
                 (v_depth v))
              (snd (xb_builder_nodetab_write_node helper1 heap id))
              (ids ++ [id])).
    + by eapply content_kept_trans.
    + exact Hnode.
    + by rewrite <- app_assoc.
    + intros id' Hid'. apply Hvalid. by right.
    + exact Hlen.
Qed.

(** ** The links that the fix-up pass writes *)

Lemma fix_cb_get `{cfg : SiloConfig} heap buf n off :
  xb_builder_get_node off 0 (xb_builder_nodetab_fix_cb heap buf n)
  = match v_data n with
    | Some id =>
        if live heap id && bool_decide (bn_offset (heap !!! id) = off)
        then fix_record heap n <$> xb_builder_get_node off 0 buf
        else xb_builder_get_node off 0 buf
    | None => xb_builder_get_node off 0 buf
    end.
Proof.
  unfold xb_builder_nodetab_fix_cb, fix_record.
  destruct (v_data n) as [id|]; [|done].
  destruct (live heap id); simpl; [|done].
  case_bool_decide as Hoff.
  - rewrite Hoff.
    destruct (v_parent n) as [[id2|]|], (v_next n) as [data2|];
      rewrite ?get_node_alter by (intros; reflexivity);
      rewrite ?decide_True by done;
      by destruct (xb_builder_get_node off 0 buf).
  - destruct (v_parent n) as [[id2|]|], (v_next n) as [data2|];
      rewrite ?get_node_alter by (intros; reflexivity);
      by rewrite ?decide_False by done.
Qed.

(** The pass leaves alone the records that belong to no node it visits. *)
Lemma fix_pass_frame `{cfg : SiloConfig} heap visits off :
  (∀ id, id ∈ emitted_ids heap visits → bn_offset (heap !!! id) ≠ off) →
  ∀ buf, xb_builder_get_node off 0
           (fold_left (xb_builder_nodetab_fix_cb heap) visits buf)
         = xb_builder_get_node off 0 buf.
Proof.
  induction visits as [|v visits IH]; intros Hother buf; cbn [fold_left];
    [done|].
  cbn [emitted_ids] in Hother. rewrite IH.
  - rewrite fix_cb_get. destruct (v_data v) as [id|]; [|done].
    destruct (live heap id); [|done]. simpl.
    rewrite bool_decide_false; [done|]. apply Hother. left.
  - intros id Hid. apply Hother. destruct (v_data v) as [id0|]; [|done].
    destruct (live heap id0); [by right|done].
Qed.

(** When every node written has its own record, still with zero links,
    the pass gives the record of each node the links of its visit. *)
Lemma fix_pass_links `{cfg : SiloConfig} heap visits :
  NoDup (emitted_ids heap visits) →
  ∀ buf,
    written_inv buf heap (emitted_ids heap visits) →
    ∀ v id, v ∈ visits → v_data v = Some id → live heap id = true →
      ∃ sn,
        xb_builder_get_node (bn_offset (heap !!! id)) 0
          (fold_left (xb_builder_nodetab_fix_cb heap) visits buf) = Some sn
        ∧ sn_is_node sn = true
        ∧ sn_parent sn = fixed_parent heap v
        ∧ sn_next sn = fixed_next heap v.
Proof.
  induction visits as [|v0 visits IH]; intros Hnodup buf [Hrec Hinj] v id Hv Hd
    Hlive; [by apply elem_of_nil in Hv|].
  cbn [fold_left]. cbn [emitted_ids] in Hnodup, Hrec, Hinj.
  destruct (v_data v0) as [id0|] eqn:Hd0.
  2:{ assert (Hfix : xb_builder_nodetab_fix_cb heap buf v0 = buf).
      { unfold xb_builder_nodetab_fix_cb. by rewrite Hd0. }
      rewrite Hfix. apply elem_of_cons in Hv as [->|Hv]; [congruence|].
      by apply IH. }
  destruct (live heap id0) eqn:Hlive0.
  2:{ assert (Hfix : xb_builder_nodetab_fix_cb heap buf v0 = buf).
      { unfold xb_builder_nodetab_fix_cb. by rewrite Hd0, Hlive0. }
      rewrite Hfix. apply elem_of_cons in Hv as [->|Hv]; [congruence|].
      by apply IH. }
  apply NoDup_cons in Hnodup as [Hnotin Hnodup].
  assert (Hothers : ∀ id', id' ∈ emitted_ids heap visits →
            bn_offset (heap !!! id') ≠ bn_offset (heap !!! id0)).
  { intros id' Hid' Heq. apply Hnotin.
    rewrite <- (Hinj id' id0); [done|by right|left|done]. }
  apply elem_of_cons in Hv as [->|Hv].
  - rewrite Hd0 in Hd. injection Hd as <-.
    rewrite (fix_pass_frame heap visits _ Hothers), fix_cb_get, Hd0, Hlive0.
    rewrite bool_decide_true by done. simpl.
    destruct (Hrec id0) as (sn & -> & Hnode & Hparent & Hnext); [left|].
    simpl. eexists. split; [reflexivity|].
    unfold fix_record, fixed_parent, fixed_next.
    destruct (v_parent v0) as [[id2|]|], (v_next v0) as [data2|]; done.
  - apply IH; [done| |done..]. split.
    + intros id' Hid'. rewrite fix_cb_get, Hd0, Hlive0. simpl.
      rewrite bool_decide_false by (intros Heq; by apply (Hothers id')).
      apply Hrec. by right.
    + intros id1 id2 H1 H2. apply Hinj; by right.
Qed.

(** What the node-table passes do about the links. When no node object is
    written twice and the blob stays below 2^32 bytes, the record of every
    node written starts at the offset kept in its node object, and the
    fix-up pass has set its [parent] field to the offset of the node object
    of its parent (zero under the synthetic root) and its [next] field to
    the offset slot of the node object of the sibling that follows it
    immediately, ignored or not (zero for a last sibling). *)
Theorem nodetab_links `{cfg : SiloConfig} (guid_acc : string) (root : GNode)
    (heap : Store) :
  layout_ok →
  NoDup (emitted_ids heap (g_node_traverse_pre_order root)) →
  (∀ id, id ∈ emitted_ids heap (g_node_traverse_pre_order root) →
     (id < length heap)%nat) →
  buf_len (fst (compile_tree guid_acc root heap)) < 4294967296 →
  ∀ v id,
    v ∈ g_node_traverse_pre_order root → v_data v = Some id →
    live heap id = true →
    ∃ sn,
      xb_builder_get_node
        (bn_offset (snd (compile_tree guid_acc root heap) !!! id)) 0
        (fst (compile_tree guid_acc root heap)) = Some sn
      ∧ sn_is_node sn = true
      ∧ sn_parent sn = fixed_parent (snd (compile_tree guid_acc root heap)) v
      ∧ sn_next sn = fixed_next (snd (compile_tree guid_acc root heap)) v.
Proof.
  intros Hok. set (visits := g_node_traverse_pre_order root).
  intros Hnodup Hvalid. unfold compile_tree. fold visits.
  pose proof (strtab_passes_content (g_node_traverse_level_order root) heap)
    as H4.
  destruct (fold_left xb_builder_strtab_text_cb _ _) as [[hash strtab] heap4].
  simpl in H4.
  set (hdr := MkHeader _ _ _ _ _).
  pose proof (write_pass_written heap visits Hok
                (MkNodetab [ChunkHeader hdr] 0) heap4 [] H4) as Hwritten.
  pose proof (fold_content_kept _ snd write_cb_content visits
                (MkNodetab [ChunkHeader hdr] 0, heap4)) as H5.
  destruct (fold_left xb_builder_nodetab_write_cb visits _)
    as [helper heap5].
  cbn [fst snd nt_buf] in Hwritten, H5. rewrite iter_write_sentinel.
  cbn [fst snd nt_buf]. intros Hlen v id Hv Hd Hlive.
  set (buf := nt_buf helper ++ repeat (ChunkNode sentinel) _) in *.
  rewrite buf_len_app, fix_pass_len in Hlen.
  pose proof (buf_len_nonneg [ChunkStrtab strtab] Hok) as Hs.
  assert (Hbuf : buf_len (nt_buf helper) < 4294967296).
  { unfold buf in Hlen. rewrite buf_len_app in Hlen.
    pose proof (buf_len_nonneg (repeat (ChunkNode sentinel)
                  (Z.to_nat (nt_level helper - 1))) Hok). lia. }
  assert (H05 : content_kept heap heap5) by (by eapply content_kept_trans).
  assert (Hinv : written_inv buf heap5 (emitted_ids heap5 visits)).
  { rewrite (emitted_ids_content heap heap5 visits H05).
    apply written_inv_app. apply Hwritten; [|done..].
    split; [intros ? Hin|intros ? ? Hin]; by apply elem_of_nil in Hin. }
  destruct (fix_pass_links heap5 visits) with (buf := buf) (v := v) (id := id)
    as (sn & Hget & Hrest); [|done..| |].
  - by rewrite (emitted_ids_content heap heap5 visits H05).
  - by rewrite (content_kept_live heap heap5 id H05).
  - exists sn. split; [by apply get_node_app_Some|done].
Qed.

(** ** The general results at work *)

Example hello_tree_built :
  compile_imports 0 [hello_import]
    (MkHelper (MkGNode None []) None 0 ∅ [] None ["en"; "C"]) []
  = Some (MkHelper hello_root (Some []) 0 ∅ [] None ["en"; "C"],
          hello_store, GOk tt).
Proof. vm_compute. reflexivity. Qed.

Example nodetab_size_exact_hello :
  ∃ hdr nodetab strtab,
    fst (compile_tree (cfg := example_config) "hello.xml" hello_root hello_store)
      = ChunkHeader hdr :: nodetab ++ [ChunkStrtab strtab]
    ∧ hdr_strtab hdr
      = u32 (buf_len (cfg := example_config) (ChunkHeader hdr :: nodetab)).
Proof.
  exact (nodetab_size_exact (cfg := example_config) "hello.xml" hello_root
           hello_store eq_refl eq_refl eq_refl).
Qed.

Example nodetab_links_hello :
  ∃ sn,
    xb_builder_get_node (cfg := example_config) 46 0
      (fst (compile_tree (cfg := example_config) "hello.xml" hello_root
              hello_store)) = Some sn
    ∧ sn_is_node sn = true ∧ sn_parent sn = 32 ∧ sn_next sn = 0.
Proof.
  destruct (nodetab_links (cfg := example_config) "hello.xml" hello_root
              hello_store)
    with (v := MkVisit (Some 1%nat) 3 (Some (Some 0%nat)) None) (id := 1%nat)
    as (sn & Hget & Hnode & Hparent & Hnext).
  - unfold layout_ok. simpl. lia.
  - vm_compute. apply NoDup_cons. split; [|apply NoDup_singleton].
    intros Hin. apply list_elem_of_singleton in Hin. discriminate Hin.
  - intros id Hid. vm_compute in Hid.
    repeat (apply elem_of_cons in Hid as [->|Hid]; [simpl; lia|]).
    by apply elem_of_nil in Hid.
  - vm_compute. reflexivity.
  - vm_compute. right. right. left.
  - reflexivity.
  - reflexivity.
  - exists sn. split; [exact Hget|]. split; [exact Hnode|].
    split; [by rewrite Hparent|by rewrite Hnext].
Qed.

(** The info tree shared by two imports: the node object of [info] is
    written twice, and its offset slot keeps the second offset, 95. The
    fix-up of both visits goes to the record at 95; the record of the first
    copy, at 46 under [a] (at 32), keeps a zero [parent]. *)
Example shared_info_first_copy_not_fixed :
  let self := xb_builder_import
                (xb_builder_import xb_builder_new plain_import)
                second_plain_import in
  let blob := compiled_blob (cfg := example_config) ["en"; "C"] self 0
                info_store in
  map (fun sn => (sn_element_name sn, sn_parent sn, sn_next sn))
      (blob_nodes blob)
  = [(0, 0, 81); (4, 0, 0); (9, 0, 0); (2, 0, 0); (4, 81, 0); (9, 95, 0)]
  ∧ (sn_parent <$> xb_builder_get_node (cfg := example_config) 46 0 blob)
    = Some 0
  ∧ (sn_parent <$> xb_builder_get_node (cfg := example_config) 95 0 blob)
    = Some 81.
Proof. repeat split; vm_compute; reflexivity. Qed.

(** * Further properties of the builder *)

(** ** The accumulator after a sequence of imports *)

Lemma append_guid_nonempty acc token :
  acc ≠ "" → xb_builder_append_guid acc token = acc +:+ "&" +:+ token.
Proof.
  intros Hne. unfold xb_builder_append_guid.
  destruct acc as [|c acc]; [done|]. cbn [String.length Nat.ltb Nat.leb].
  by rewrite string_append_assoc.
Qed.

Lemma append_guid_fold_nonempty tokens :
  ∀ acc, acc ≠ "" →
    fold_left xb_builder_append_guid tokens acc = String.concat "&" (acc :: tokens).
Proof.
  induction tokens as [|t ts IH]; intros acc Hne; [done|].
  cbn [fold_left]. rewrite append_guid_nonempty by done.
  rewrite IH by (by destruct acc).
  cbn [String.concat]. destruct ts as [|u us]; [done|].
  by rewrite !string_append_assoc.
Qed.

Lemma append_guid_fold tokens :
  fold_left xb_builder_append_guid tokens "" = String.concat "&" (skip_empty tokens).
Proof.
  induction tokens as [|t ts IH]; [done|].
  destruct t as [|c t].
  - cbn [fold_left skip_empty]. exact IH.
  - cbn [fold_left skip_empty].
    change (xb_builder_append_guid "" (String c t)) with (String c t).
    by apply append_guid_fold_nonempty.
Qed.

Lemma import_fold imports :
  ∀ self,
    b_imports (fold_left xb_builder_import imports self) = b_imports self ++ imports
    ∧ b_guid (fold_left xb_builder_import imports self)
      = fold_left xb_builder_append_guid (map imp_guid imports) (b_guid self)
    ∧ b_nodes (fold_left xb_builder_import imports self) = b_nodes self
    ∧ b_silo (fold_left xb_builder_import imports self) = b_silo self.
Proof.
  induction imports as [|import rest IH]; intros self.
  - by rewrite app_nil_r.
  - cbn [fold_left map]. destruct (IH (xb_builder_import self import)) as (-> & -> & -> & ->).
    cbn [xb_builder_import b_imports b_guid b_nodes b_silo].
    by rewrite <- app_assoc.
Qed.

(** X1. After a sequence of imports into a new builder
    ([xb_builder_import_xml], [xb_builder_import_file]) the builder holds
    the imports in the order of the calls, and the accumulator is their
    identities joined by [&], where the empty identities that come first
    are left out: the separator is only written once the accumulator is not
    empty. *)
Theorem import_sequence_guid (imports : list XbBuilderImport) :
  let self := fold_left xb_builder_import imports xb_builder_new in
  b_imports self = imports
  ∧ b_guid self = String.concat "&" (skip_empty (map imp_guid imports)).
Proof.
  cbn zeta. destruct (import_fold imports xb_builder_new) as (-> & -> & _).
  split; [done|]. apply append_guid_fold.
Qed.

(** ** The layout of the string table *)

Lemma first_occurrences_notin seen strs s :
  s ∈ first_occurrences seen strs → (s ∉ seen) ∧ s ∈ strs.
Proof.
  revert seen. induction strs as [|t rest IH]; intros seen Hin; cbn in Hin.
  - by apply elem_of_nil in Hin.
  - case_decide as Ht.
    + destruct (IH _ Hin). split; [done|]. by right.
    + apply elem_of_cons in Hin as [->|Hin].
      * split; [done|]. by left.
      * destruct (IH _ Hin) as [Hn Hr]. split; [|by right].
        intros Hs. apply Hn. by right.
Qed.

Lemma intern_all_layout strs :
  ∀ hash strtab seen,
    (∀ s, s ∈ seen ↔ is_Some (hash !! s)) →
    let fo := first_occurrences seen strs in
    let st := intern_all strs (hash, strtab) in
    snd st = strtab ++ flat_map strtab_entry fo
    ∧ (∀ s, s ∈ seen → fst st !! s = hash !! s)
    ∧ (∀ i s, fo !! i = Some s →
         fst st !! s
         = Some (u32 (Z.of_nat (length (strtab ++ flat_map strtab_entry (take i fo))))))
    ∧ (∀ s, is_Some (fst st !! s) ↔ s ∈ seen ∨ s ∈ strs)
    ∧ size (fst st) = (size hash + length fo)%nat.
Proof.
  induction strs as [|str rest IH]; intros hash strtab seen Hseen; cbn zeta.
  - cbn. rewrite app_nil_r. split; [done|]. split; [done|]. split; [done|].
    split; [|lia]. intros s. rewrite <- Hseen. split; [by left|].
    intros [?|H]; [done|]. by apply elem_of_nil in H.
  - rewrite intern_all_cons. cbn [first_occurrences].
    unfold xb_builder_compile_add_to_strtab.
    case_decide as Hin.
    + pose proof (proj1 (Hseen str) Hin) as [o Ho]. rewrite Ho. cbn [fst snd].
      destruct (IH hash strtab seen Hseen) as (H1 & H2 & H3 & H4 & H5).
      split; [done|]. split; [done|]. split; [done|]. split; [|done].
      intros s. rewrite H4. rewrite elem_of_cons. split; [tauto|].
      intros [?|[->|?]]; tauto.
    + destruct (hash !! str) as [o|] eqn:Ho.
      { exfalso. apply Hin, Hseen. by eexists. }
      cbn [fst snd].
      set (idx := u32 (Z.of_nat (length strtab))).
      assert (Hseen' : ∀ s, s ∈ str :: seen ↔ is_Some (<[str := idx]> hash !! s)).
      { intros s. rewrite elem_of_cons. destruct (decide (s = str)) as [->|Hne].
        - rewrite lookup_insert_eq. split; [by eexists|by left].
        - rewrite lookup_insert_ne by done. rewrite <- Hseen. split; [|tauto].
          intros [?|?]; done. }
      destruct (IH (<[str := idx]> hash)
                   (strtab ++ list_ascii_of_string str ++ [NUL]) (str :: seen) Hseen')
        as (H1 & H2 & H3 & H4 & H5).
      split.
      { rewrite H1. cbn [flat_map]. unfold strtab_entry at 2. by rewrite <- !app_assoc. }
      split.
      { intros s Hs. rewrite H2 by (by right). rewrite lookup_insert_ne; [done|].
        intros ->. done. }
      split.
      { intros [|i] s Hi.
        - cbn in Hi. injection Hi as <-. rewrite H2 by (by left).
          rewrite lookup_insert_eq. cbn [take flat_map]. by rewrite app_nil_r.
        - cbn in Hi. rewrite (H3 i s Hi). cbn [take flat_map].
          unfold strtab_entry at 2. by rewrite <- !app_assoc. }
      split.
      { intros s. rewrite H4. rewrite !elem_of_cons. tauto. }
      rewrite H5. rewrite map_size_insert_None by done. cbn [length]. lia.
Qed.

(** X2. Interning a sequence of strings into an empty table gives the
    strings in the order of their first occurrence, each once and followed
    by a NUL; the offset recorded for a string is the number of bytes before
    it, as a [guint32]; the table knows exactly the strings interned, and
    their number is the number of distinct strings. *)
Theorem strtab_layout (strs : list string) :
  let hash := fst (intern_all strs (∅, [])) in
  let strtab := snd (intern_all strs (∅, [])) in
  let distinct := first_occurrences [] strs in
  strtab = flat_map strtab_entry distinct
  ∧ (∀ i s, distinct !! i = Some s →
       hash !! s
       = Some (u32 (Z.of_nat (length (flat_map strtab_entry (take i distinct))))))
  ∧ (∀ s, is_Some (hash !! s) ↔ s ∈ strs)
  ∧ size hash = length distinct.
Proof.
  cbn zeta.
  destruct (intern_all_layout strs ∅ [] [])
    as (H1 & _ & H3 & H4 & H5).
  { intros s. rewrite lookup_empty. split.
    - intros H. by apply elem_of_nil in H.
    - by intros [? ?]. }
  split; [exact H1|]. split; [exact H3|]. split.
  - intros s. rewrite H4. split; [|by right].
    intros [H|H]; [by apply elem_of_nil in H|done].
  - rewrite H5. by rewrite map_size_empty.
Qed.

(** ** Manually built nodes, and what compile returns *)

Lemma compile_nodes_mirror nodes :
  ∀ root,
    compile_nodes nodes root
    = Some (MkGNode (g_data root) (g_children root ++ map gnode_of_bnode nodes)).
Proof.
  induction nodes as [|bn rest IH]; intros root.
  - cbn. rewrite app_nil_r. by destruct root.
  - cbn [compile_nodes].
    rewrite (xb_builder_compile_node_tree_spec bn root [] root eq_refl).
    cbn [g_node_alter mbind option_bind]. rewrite IH. cbn [g_data g_children map].
    by rewrite <- app_assoc.
Qed.

Lemma import_node_fold bns :
  ∀ self,
    b_nodes (fold_left xb_builder_import_node bns self) = b_nodes self ++ bns
    ∧ b_imports (fold_left xb_builder_import_node bns self) = b_imports self
    ∧ b_guid (fold_left xb_builder_import_node bns self) = b_guid self
    ∧ b_silo (fold_left xb_builder_import_node bns self) = b_silo self.
Proof.
  induction bns as [|bn rest IH]; intros self.
  - by rewrite app_nil_r.
  - cbn [fold_left]. destruct (IH (xb_builder_import_node self bn)) as (-> & -> & -> & ->).
    cbn. by rewrite <- app_assoc.
Qed.

(** X3. [xb_builder_import_node] only adds the node tree to the builder:
    the accumulator and the imports stay as they are. At compile the trees
    added are put under the root after the nodes that are there, in the
    order in which they were added, each as the mirror of the node tree:
    [GNode]s that point to the node objects themselves. *)
Theorem import_node_mirrored (bns : list BNode) (self : XbBuilder) (root : GNode) :
  let self' := fold_left xb_builder_import_node bns self in
  b_guid self' = b_guid self
  ∧ b_imports self' = b_imports self
  ∧ compile_nodes (b_nodes self') root
    = Some (MkGNode (g_data root)
              (g_children root ++ map gnode_of_bnode (b_nodes self ++ bns))).
Proof.
  cbn zeta. destruct (import_node_fold bns self) as (-> & -> & -> & _).
  split; [done|]. split; [done|]. apply compile_nodes_mirror.
Qed.

Lemma compile_import_total helper heap import :
  is_Some (g_node_get (h_root helper) []) →
  well_nested import →
  h_current helper = Some [] →
  ∃ helper' heap' r,
    xb_builder_compile_import helper heap import = Some (helper', heap', r)
    ∧ grows (h_root helper) (h_root helper').
Proof.
  intros Hroot [d Hd] Hcur. unfold xb_builder_compile_import.
  destruct (g_markup_parse_context_parse_total (imp_events import)
              (helper_set_info helper (imp_info import)) heap [] d)
    as (helper' & heap' & p' & -> & _ & _ & Hgrows & _).
  { split; [exact Hcur|done]. }
  { exact Hd. }
  cbn [mbind option_bind]. cbn in Hgrows.
  destruct (imp_error import); [by eauto|]. case_decide; eauto.
Qed.

Lemma compile_imports_total flags imports :
  Forall well_nested imports →
  ∀ helper heap,
    ∃ helper' heap' r,
      compile_imports flags imports helper heap = Some (helper', heap', r).
Proof.
  induction 1 as [|import rest Himport _ IH]; intros helper heap.
  - cbn. eauto.
  - cbn [compile_imports].
    destruct (compile_import_total
                (helper_set_tree helper (h_root helper) (Some [])) heap import)
      as (helper1 & heap1 & r & -> & _); [done..|].
    cbn [mbind option_bind]. destruct r as [u|e]; [apply IH|].
    destruct (flag_set flags _); [apply IH|eauto].
Qed.

Lemma compile_tree_loads `{cfg : SiloConfig} guid_acc root heap self :
  xb_silo_load_from_bytes self (fst (compile_tree guid_acc root heap))
  = GOk (MkSilo (Some (fst (compile_tree guid_acc root heap)))
                (Some (uuid_unparse (compile_guid guid_acc)))).
Proof.
  destruct (compile_tree_header guid_acc root heap)
    as (hdr & rest & Hblob & Hmagic & Hver & _ & Hg).
  rewrite Hblob. unfold xb_silo_load_from_bytes.
  rewrite Hmagic, Hver, !Z.eqb_refl. cbn [negb]. by rewrite Hg.
Qed.

(** What a compile returns when the node tree has been built. *)
Lemma xb_builder_compile_ok `{cfg : SiloConfig} locales self flags heap helper heap1 root :
  compile_imports flags (b_imports self)
    (MkHelper (MkGNode None []) None flags ∅ [] None locales) heap
    = Some (helper, heap1, GOk tt) →
  compile_nodes (b_nodes self) (h_root helper) = Some root →
  let silo := MkSilo (Some (fst (compile_tree (b_guid self) root heap1)))
                (Some (uuid_unparse (compile_guid (b_guid self)))) in
  xb_builder_compile locales self flags heap
  = Some (builder_set_silo self silo, snd (compile_tree (b_guid self) root heap1),
          GOk silo).
Proof.
  intros Himports Hnodes. unfold xb_builder_compile. rewrite Himports.
  cbn [mbind option_bind]. rewrite Hnodes. cbn [mbind option_bind].
  pose proof (compile_tree_loads (b_guid self) root heap1 (b_silo self)) as Hload.
  destruct (compile_tree (b_guid self) root heap1) as [blob heap2].
  cbn [fst snd] in *. by rewrite Hload.
Qed.

Lemma xb_builder_compile_inv `{cfg : SiloConfig} locales self flags heap self' heap' silo :
  xb_builder_compile locales self flags heap = Some (self', heap', GOk silo) →
  ∃ helper heap1 root,
    compile_imports flags (b_imports self)
      (MkHelper (MkGNode None []) None flags ∅ [] None locales) heap
      = Some (helper, heap1, GOk tt)
    ∧ compile_nodes (b_nodes self) (h_root helper) = Some root
    ∧ silo = MkSilo (Some (fst (compile_tree (b_guid self) root heap1)))
               (Some (uuid_unparse (compile_guid (b_guid self))))
    ∧ self' = builder_set_silo self silo
    ∧ heap' = snd (compile_tree (b_guid self) root heap1).
Proof.
  intros Hc.
  destruct (compile_imports flags (b_imports self)
              (MkHelper (MkGNode None []) None flags ∅ [] None locales) heap)
    as [[[helper heap1] [[]|e]]|] eqn:Himports.
  - destruct (compile_nodes (b_nodes self) (h_root helper)) as [root|] eqn:Hnodes.
    + rewrite (xb_builder_compile_ok _ _ _ _ _ _ _ Himports Hnodes) in Hc.
      injection Hc as <- <- <-. by exists helper, heap1, root.
    + unfold xb_builder_compile in Hc. rewrite Himports in Hc.
      cbn [mbind option_bind] in Hc. by rewrite Hnodes in Hc.
  - unfold xb_builder_compile in Hc. by rewrite Himports in Hc.
  - unfold xb_builder_compile in Hc. by rewrite Himports in Hc.
Qed.

(** X4. With [IGNORE_INVALID], compile returns a silo whatever the imports
    hold: no error of an import reaches the caller, and the blob that the
    passes write is always accepted by the loader (it has the magic and the
    version). The silo is bound to the blob, it is the silo of the builder,
    and its GUID is that of the accumulator. The streams only have to be
    such that no end tag comes without its start tag, as the tokenizer
    guarantees. *)
Theorem compile_ignore_invalid_succeeds `{cfg : SiloConfig} (locales : list string)
    (self : XbBuilder) (flags : Z) (heap : Store) :
  flag_set flags XB_BUILDER_COMPILE_FLAG_IGNORE_INVALID = true →
  Forall well_nested (b_imports self) →
  ∃ heap' silo blob,
    xb_builder_compile locales self flags heap
      = Some (builder_set_silo self silo, heap', GOk silo)
    ∧ silo_blob silo = Some blob
    ∧ silo_guid silo = Some (uuid_unparse (compile_guid (b_guid self))).
Proof.
  intros Hflag Hnested.
  destruct (compile_imports_total flags (b_imports self) Hnested
              (MkHelper (MkGNode None []) None flags ∅ [] None locales) heap)
    as (helper & heap1 & r & Himports).
  pose proof (compile_imports_ignore_invalid flags (b_imports self) Hflag
                _ _ _ _ _ Himports) as ->.
  destruct (compile_nodes_grows (b_nodes self) (h_root helper))
    as (root & Hnodes & _).
  rewrite (xb_builder_compile_ok _ _ _ _ _ _ _ Himports Hnodes).
  eexists _, _, _. split; [reflexivity|]. done.
Qed.

Lemma compile_ignore_invalid_succeeds_witness :
  ∃ heap' silo blob,
    xb_builder_compile (cfg := example_config) ["en"; "C"]
      (xb_builder_import
         (xb_builder_import xb_builder_new
            (MkImport "bad.xml" None [StartElement "a" []] None))
         hello_import)
      XB_BUILDER_COMPILE_FLAG_IGNORE_INVALID []
      = Some (builder_set_silo
                (xb_builder_import
                   (xb_builder_import xb_builder_new
                      (MkImport "bad.xml" None [StartElement "a" []] None))
                   hello_import) silo, heap', GOk silo)
    ∧ silo_blob silo = Some blob
    ∧ silo_guid silo = Some (uuid_unparse (compile_guid (cfg := example_config)
                                             "bad.xml&hello.xml")).
Proof.
  apply (compile_ignore_invalid_succeeds (cfg := example_config)).
  - reflexivity.
  - repeat constructor; by eexists.
Defined.

(** ** The GUID of a compiled silo, and ensure *)

Lemma compile_guid_nonempty `{cfg : SiloConfig} guid_acc :
  guid_acc ≠ "" →
  compile_guid guid_acc = _uuid_generate_sha1 uuid_clear (bytes_of_string guid_acc).
Proof. intros Hne. unfold compile_guid. by destruct guid_acc. Qed.

Lemma xb_silo_load_from_bytes_guid `{cfg : SiloConfig} self blob silo :
  xb_silo_load_from_bytes self blob = GOk silo →
  ∃ hdr rest, blob = ChunkHeader hdr :: rest
              ∧ silo = MkSilo (Some blob) (Some (uuid_unparse (hdr_guid hdr))).
Proof.
  unfold xb_silo_load_from_bytes. destruct blob as [|[hdr| | |] rest]; try done.
  destruct (negb _); [done|]. destruct (negb _); [done|].
  intros [= <-]. by exists hdr, rest.
Qed.

(** X5. The GUID of a compiled silo is the GUID that [xb_builder_ensure]
    computes for the builder with [xb_builder_generate_guid], when the
    accumulator is not empty: the header field and the string that ensure
    compares come from the same hash. Compile leaves the accumulator as it
    is and makes the silo the silo of the builder. *)
Theorem compile_guid_is_generate_guid `{cfg : SiloConfig} (locales : list string)
    (self self' : XbBuilder) (flags : Z) (heap heap' : Store) (silo : XbSilo) :
  b_guid self ≠ "" →
  xb_builder_compile locales self flags heap = Some (self', heap', GOk silo) →
  silo_guid silo = Some (xb_builder_generate_guid self)
  ∧ b_silo self' = silo
  ∧ b_guid self' = b_guid self.
Proof.
  intros Hne Hc.
  destruct (xb_builder_compile_inv _ _ _ _ _ _ _ Hc)
    as (helper & heap1 & root & _ & _ & -> & -> & _).
  cbn [silo_guid builder_set_silo b_silo b_guid].
  by rewrite compile_guid_nonempty.
Qed.

Lemma compile_guid_is_generate_guid_witness :
  ∃ self' heap' silo,
    xb_builder_compile (cfg := example_config) ["en"; "C"]
      (xb_builder_import xb_builder_new hello_import) 0 []
    = Some (self', heap', GOk silo)
    ∧ silo_guid silo
      = Some (xb_builder_generate_guid (cfg := example_config)
                (xb_builder_import xb_builder_new hello_import)).
Proof.
  destruct (xb_builder_compile (cfg := example_config) ["en"; "C"]
              (xb_builder_import xb_builder_new hello_import) 0 [])
    as [[[self' heap'] [silo|e]]|] eqn:Hcompile;
    [|by vm_compute in Hcompile..].
  exists self', heap', silo. split; [reflexivity|].
  refine (proj1 (compile_guid_is_generate_guid (cfg := example_config)
                   ["en"; "C"] _ self' 0 [] heap' silo _ Hcompile)).
  vm_compute. discriminate.
Defined.

Lemma ensure_fallback_inv `{cfg : SiloConfig} locales self file flags heap world
    self' heap' world' effects silo :
  ensure_fallback locales self file flags heap world
    = Some (self', heap', world', effects, GOk silo) →
  ∃ blob,
    xb_builder_compile locales self flags heap = Some (self', heap', GOk silo)
    ∧ silo_blob silo = Some blob
    ∧ world' = MkWorld (<[file := blob]> (w_files world)) (w_readonly world)
    ∧ w_readonly world = false
    ∧ effects = [EffCompile; EffSave file blob].
Proof.
  unfold ensure_fallback.
  destruct (xb_builder_compile locales self flags heap)
    as [[[self1 heap1] [silo1|e]]|]; cbn [mbind option_bind]; [|done..].
  unfold xb_silo_save_to_file.
  destruct (silo_blob silo1) as [blob|] eqn:Hblob; [|done].
  destruct (w_readonly world) eqn:Hro; [done|].
  intros [= <- <- <- <- <-]. exists blob. by rewrite Hblob.
Qed.

(** X6. Ensure is idempotent: after an ensure that returned a silo, by
    whichever of its three ways, the silo is the silo of the builder, and
    another ensure on the same file returns the same silo and leaves the
    builder, the store and the files as they are, without compiling and
    without writing, whatever flags and locales it is given. *)
Theorem ensure_twice `{cfg : SiloConfig} (locales locales2 : list string)
    (self self' : XbBuilder) (file : string) (flags flags2 : Z)
    (heap heap' : Store) (world world' : World) (effects : list Effect)
    (silo : XbSilo) :
  xb_builder_ensure locales self file flags heap world
    = Some (self', heap', world', effects, GOk silo) →
  b_silo self' = silo
  ∧ xb_builder_ensure locales2 self' file flags2 heap' world'
    = Some (self', heap', world', [], GOk silo).
Proof.
  intros He.
  assert (Hfb : ensure_fallback locales self file flags heap world
                  = Some (self', heap', world', effects, GOk silo) →
                b_silo self' = silo
                ∧ xb_builder_ensure locales2 self' file flags2 heap' world'
                  = Some (self', heap', world', [], GOk silo)).
  { intros Hf.
    destruct (ensure_fallback_inv _ _ _ _ _ _ _ _ _ _ _ Hf)
      as (blob & Hc & Hblob & -> & _ & _).
    destruct (xb_builder_compile_inv _ _ _ _ _ _ _ Hc)
      as (helper & heap1 & root & _ & _ & Hsilo & -> & _).
    split; [done|].
    unfold xb_builder_ensure, xb_silo_load_from_file.
    cbn [w_files]. rewrite lookup_insert_eq.
    rewrite Hsilo in Hblob. cbn [silo_blob] in Hblob. injection Hblob as <-.
    rewrite compile_tree_loads. rewrite <- Hsilo.
    cbn [builder_set_silo b_silo]. by rewrite decide_True. }
  unfold xb_builder_ensure in He.
  destruct (xb_silo_load_from_file xb_silo_new file world) as [silo_tmp|e] eqn:Hload;
    [|by apply Hfb].
  case_decide as Hg1.
  { injection He as <- <- <- <- <-. split; [done|].
    unfold xb_builder_ensure. rewrite Hload. by rewrite decide_True. }
  case_decide as Hg2; [|by apply Hfb].
  destruct (silo_blob silo_tmp) as [blob|] eqn:Hblob; [|done].
  cbn [mbind option_bind] in He.
  destruct (xb_silo_load_from_bytes (b_silo self) blob) as [silo1|e] eqn:Hl1; [|done].
  injection He as <- <- <- <- <-. split; [done|].
  unfold xb_builder_ensure. rewrite Hload.
  unfold xb_silo_load_from_file in Hload.
  destruct (w_files world !! file) as [blob'|]; [|done].
  pose proof (xb_silo_load_from_bytes_blob _ _ _ Hload) as Hb.
  rewrite Hblob in Hb. injection Hb as <-.
  rewrite (xb_silo_load_from_bytes_any (b_silo self) xb_silo_new) in Hl1.
  rewrite Hload in Hl1. injection Hl1 as <-.
  cbn [builder_set_silo b_silo]. by rewrite decide_True.
Qed.

Lemma ensure_twice_witness :
  let self := xb_builder_import xb_builder_new hello_import in
  ∃ self' heap' world' effects silo,
    xb_builder_ensure (cfg := example_config) ["en"; "C"] self "f.xmlb" 0 []
      (MkWorld ∅ false)
    = Some (self', heap', world', effects, GOk silo)
    ∧ effects ≠ []
    ∧ xb_builder_ensure (cfg := example_config) ["fr"] self' "f.xmlb"
        XB_BUILDER_COMPILE_FLAG_NATIVE_LANGS heap' world'
      = Some (self', heap', world', [], GOk silo).
Proof.
  intros self.
  destruct (xb_builder_ensure (cfg := example_config) ["en"; "C"] self "f.xmlb" 0 []
              (MkWorld ∅ false))
    as [[[[[self' heap'] world'] effects] [silo|e]]|] eqn:Hensure;
    [|by vm_compute in Hensure..].
  exists self', heap', world', effects, silo. split; [reflexivity|].
  split.
  - vm_compute in Hensure. injection Hensure as <- <- <- <- <-. discriminate.
  - exact (proj2 (ensure_twice (cfg := example_config) ["en"; "C"] ["fr"] self self'
                    "f.xmlb" 0 XB_BUILDER_COMPILE_FLAG_NATIVE_LANGS [] heap'
                    (MkWorld ∅ false) world' effects silo Hensure)).
Defined.

(** ** The file as a cache *)

(** X7. The file is a cache keyed by the accumulator alone. When the file
    holds the blob that a builder with a non-empty accumulator compiled,
    ensure of any builder with the same accumulator that has not that silo
    loaded (a new builder, say) rebinds its silo to the file and returns it,
    without compiling and without writing: its own imports, flags and
    locales are not looked at. *)
Theorem ensure_reuses_file_of_same_accumulator `{cfg : SiloConfig}
    (locales1 locales2 : list string) (self1 self1' self2 : XbBuilder)
    (flags1 flags2 : Z) (heap1 heap1' heap2 : Store) (silo1 : XbSilo)
    (file : string) (world : World) :
  b_guid self1 ≠ "" →
  b_guid self2 = b_guid self1 →
  xb_builder_compile locales1 self1 flags1 heap1 = Some (self1', heap1', GOk silo1) →
  w_files world !! file = silo_blob silo1 →
  silo_guid (b_silo self2) ≠ silo_guid silo1 →
  xb_builder_ensure locales2 self2 file flags2 heap2 world
  = Some (builder_set_silo self2 silo1, heap2, world, [], GOk silo1).
Proof.
  intros Hne Hsame Hc Hfile Hother.
  destruct (xb_builder_compile_inv _ _ _ _ _ _ _ Hc)
    as (helper & heap3 & root & _ & _ & Hsilo & _ & _).
  unfold xb_builder_ensure, xb_silo_load_from_file. rewrite Hfile, Hsilo.
  cbn [silo_blob]. rewrite compile_tree_loads. rewrite <- Hsilo.
  rewrite decide_False by done.
  rewrite decide_True.
  2:{ rewrite Hsilo. cbn [silo_guid]. unfold xb_builder_generate_guid.
      by rewrite Hsame, compile_guid_nonempty. }
  rewrite Hsilo at 1. cbn [silo_blob mbind option_bind].
  rewrite compile_tree_loads. by rewrite <- Hsilo.
Qed.

Lemma ensure_reuses_file_of_same_accumulator_witness :
  let self1 := xb_builder_import xb_builder_new hello_import in
  let self2 := xb_builder_import xb_builder_new
                 (MkImport "hello.xml" None [] None) in
  ∃ self1' heap1' silo1,
    xb_builder_compile (cfg := example_config) ["en"; "C"] self1 0 []
      = Some (self1', heap1', GOk silo1)
    ∧ xb_builder_ensure (cfg := example_config) ["en"; "C"] self2 "f.xmlb" 0 []
        (MkWorld {[ "f.xmlb" := default [] (silo_blob silo1) ]} true)
      = Some (builder_set_silo self2 silo1, [],
              MkWorld {[ "f.xmlb" := default [] (silo_blob silo1) ]} true, [],
              GOk silo1).
Proof.
  intros self1 self2.
  destruct (xb_builder_compile (cfg := example_config) ["en"; "C"] self1 0 [])
    as [[[self1' heap1'] [silo1|e]]|] eqn:Hcompile;
    [|by vm_compute in Hcompile..].
  exists self1', heap1', silo1. split; [reflexivity|].
  apply (ensure_reuses_file_of_same_accumulator (cfg := example_config)
           ["en"; "C"] ["en"; "C"] self1 self1' self2 0 0 [] heap1' [] silo1
           "f.xmlb" _ ltac:(vm_compute; discriminate) eq_refl Hcompile).
  - vm_compute in Hcompile. injection Hcompile as <- <- <-. vm_compute. reflexivity.
  - vm_compute in Hcompile. injection Hcompile as <- <- <-. vm_compute. discriminate.
Defined.

Lemma zero_guid_not_generated `{cfg : SiloConfig} :
  uuid_unparse (repeat 0 16)
  ≠ uuid_unparse (_uuid_generate_sha1 uuid_clear (bytes_of_string "")).
Proof.
  unfold _uuid_generate_sha1.
  destruct HAVE_UUID_GENERATE_SHA1; vm_compute; discriminate.
Qed.

(** X8. With an empty accumulator the file is never reused. Compile then
    leaves the [guid] field zero, while ensure compares the GUID of the file
    with the hash of the empty accumulator, which is not zero: when the file
    holds what such a builder compiled and the builder has not that silo
    loaded, ensure compiles again. This is the case of a builder that only
    has manually built nodes, which do not reach the accumulator. *)
Theorem ensure_empty_accumulator_recompiles `{cfg : SiloConfig}
    (locales1 locales2 : list string) (self1 self1' self2 self2' : XbBuilder)
    (flags1 flags2 : Z) (heap1 heap1' heap2 heap2' : Store) (silo1 : XbSilo)
    (file : string) (world world' : World) (effects : list Effect)
    (r : gresult XbSilo) :
  b_guid self1 = "" →
  b_guid self2 = "" →
  xb_builder_compile locales1 self1 flags1 heap1 = Some (self1', heap1', GOk silo1) →
  w_files world !! file = silo_blob silo1 →
  silo_guid (b_silo self2) ≠ silo_guid silo1 →
  xb_builder_ensure locales2 self2 file flags2 heap2 world
    = Some (self2', heap2', world', effects, r) →
  head effects = Some EffCompile.
Proof.
  intros He1 He2 Hc Hfile Hother Hensure.
  destruct (xb_builder_compile_inv _ _ _ _ _ _ _ Hc)
    as (helper & heap3 & root & _ & _ & Hsilo & _ & _).
  assert (Hfb : ensure_fallback locales2 self2 file flags2 heap2 world
                  = Some (self2', heap2', world', effects, r) →
                head effects = Some EffCompile).
  { unfold ensure_fallback.
    destruct (xb_builder_compile locales2 self2 flags2 heap2)
      as [[[self3 heap4] [silo3|e]]|]; cbn [mbind option_bind]; [| |done].
    - destruct (xb_silo_save_to_file silo3 file world); by intros [= <- <- <- <- <-].
    - by intros [= <- <- <- <- <-]. }
  unfold xb_builder_ensure, xb_silo_load_from_file in Hensure.
  rewrite Hfile, Hsilo in Hensure. cbn [silo_blob] in Hensure.
  rewrite compile_tree_loads in Hensure. rewrite <- Hsilo in Hensure.
  rewrite decide_False in Hensure by done.
  rewrite decide_False in Hensure; [by apply Hfb|].
  rewrite Hsilo. cbn [silo_guid]. unfold xb_builder_generate_guid.
  rewrite He1, He2. intros [= Heq]. by apply zero_guid_not_generated in Heq.
Qed.

Lemma ensure_empty_accumulator_recompiles_witness :
  let self := xb_builder_import_node xb_builder_new (MkBNode 0 []) in
  ∃ self' heap' silo1 self2' heap2' world' effects r,
    xb_builder_compile (cfg := example_config) ["en"; "C"] self 0
      [xb_builder_node_new "a"]
      = Some (self', heap', GOk silo1)
    ∧ xb_builder_ensure (cfg := example_config) ["en"; "C"] self "f.xmlb" 0
        [xb_builder_node_new "a"]
        (MkWorld {[ "f.xmlb" := default [] (silo_blob silo1) ]} false)
      = Some (self2', heap2', world', effects, r)
    ∧ head effects = Some EffCompile.
Proof.
  intros self.
  destruct (xb_builder_compile (cfg := example_config) ["en"; "C"] self 0
              [xb_builder_node_new "a"])
    as [[[self' heap'] [silo1|e]]|] eqn:Hcompile;
    [|by vm_compute in Hcompile..].
  destruct (xb_builder_ensure (cfg := example_config) ["en"; "C"] self "f.xmlb" 0
              [xb_builder_node_new "a"]
              (MkWorld {[ "f.xmlb" := default [] (silo_blob silo1) ]} false))
    as [[[[[self2' heap2'] world'] effects] r]|] eqn:Hensure.
  2:{ vm_compute in Hcompile. injection Hcompile as <- <- <-.
      by vm_compute in Hensure. }
  exists self', heap', silo1, self2', heap2', world', effects, r.
  split; [reflexivity|]. split; [exact Hensure|].
  refine (ensure_empty_accumulator_recompiles (cfg := example_config)
           ["en"; "C"] ["en"; "C"] self self' self self2' 0 0
           [xb_builder_node_new "a"] heap' [xb_builder_node_new "a"] heap2' silo1
           "f.xmlb"
           (MkWorld {[ "f.xmlb" := default [] (silo_blob silo1) ]} false)
           world' effects r eq_refl eq_refl Hcompile _ _ Hensure).
  - vm_compute in Hcompile. injection Hcompile as <- <- <-. vm_compute. reflexivity.
  - vm_compute in Hcompile. injection Hcompile as <- <- <-. vm_compute. discriminate.
Defined.

(** ** The tree that the parser builds *)

Lemma forallb_insert {A} (f : A → bool) (l : list A) i x y :
  l !! i = Some x → forallb f l = true → f y = true →
  forallb f (<[i := y]> l) = true.
Proof.
  intros Hi Hl Hy. rewrite insert_take_drop by (by eapply lookup_lt_Some).
  rewrite <- (take_drop_middle l i x Hi) in Hl.
  rewrite forallb_app in *. cbn [forallb] in *.
  apply andb_prop in Hl as [H1 H2]. apply andb_prop in H2 as [_ H2].
  by rewrite H1, Hy, H2.
Qed.

Lemma forallb_lookup {A} (f : A → bool) (l : list A) i x :
  l !! i = Some x → forallb f l = true → f x = true.
Proof.
  intros Hi Hl. rewrite forallb_forall in Hl. apply Hl.
  apply list_elem_of_In. by eapply list_elem_of_lookup_2.
Qed.

Lemma parsed_ok_mono heap heap' n0 n :
  (length heap ≤ length heap')%nat →
  (∀ id, (id < length heap)%nat → live heap' id = live heap id) →
  ∀ parent_live,
    parsed_ok heap n0 parent_live n = true →
    parsed_ok heap' n0 parent_live n = true.
Proof.
  intros Hlen Hlive. induction n as [data children IH] using GNode_ind.
  intros parent_live. cbn [parsed_ok]. destruct data as [id|]; [|done].
  intros H. apply andb_prop in H as [H Hch]. apply andb_prop in H as [H Hpl].
  apply andb_prop in H as [Hlo Hhi].
  apply Nat.ltb_lt in Hhi. rewrite (Hlive id Hhi).
  rewrite Hlo, Hpl. rewrite (proj2 (Nat.ltb_lt id (length heap')) ltac:(lia)).
  cbn [andb]. rewrite forallb_forall in *. intros c Hc.
  rewrite Forall_forall in IH. apply IH; [by apply list_elem_of_In|by apply Hch].
Qed.

Lemma parsed_ok_alter heap n0 c p :
  ∀ root n root' parent_live,
    g_node_get root p = Some n →
    g_node_alter (fun m => MkGNode (g_data m) (g_children m ++ [c])) root p
      = Some root' →
    parsed_ok heap n0 parent_live root = true →
    (∀ id, g_data n = Some id → parsed_ok heap n0 (live heap id) c = true) →
    parsed_ok heap n0 parent_live root' = true.
Proof.
  induction p as [|i p IH]; intros root n root' parent_live Hget Halter Hok Hc.
  - cbn in Hget, Halter. injection Hget as <-. injection Halter as <-.
    destruct root as [data children]. cbn [parsed_ok g_data g_children] in *.
    destruct data as [id|]; [|done].
    apply andb_prop in Hok as [H Hch]. rewrite H. cbn [andb].
    rewrite forallb_app, Hch. cbn [forallb andb]. by rewrite (Hc id eq_refl).
  - cbn [g_node_get g_node_alter] in Hget, Halter.
    destruct (g_children root !! i) as [ci|] eqn:Hi; [|done].
    cbn [mbind option_bind] in Hget, Halter.
    destruct (g_node_alter _ ci p) as [ci'|] eqn:Hci'; [|done].
    cbn [mbind option_bind] in Halter. injection Halter as <-.
    destruct root as [data children]. cbn [parsed_ok g_data g_children] in *.
    destruct data as [id|]; [|done].
    apply andb_prop in Hok as [H Hch]. rewrite H. cbn [andb].
    eapply forallb_insert; [exact Hi|exact Hch|].
    eapply IH; [exact Hget|exact Hci'| |exact Hc].
    by eapply forallb_lookup.
Qed.

Lemma gnode_ids_alter c p :
  ∀ root n root',
    g_node_get root p = Some n →
    g_node_alter (fun m => MkGNode (g_data m) (g_children m ++ [c])) root p
      = Some root' →
    gnode_ids root' ≡ₚ gnode_ids root ++ gnode_ids c.
Proof.
  induction p as [|i p IH]; intros root n root' Hget Halter.
  - cbn in Hget, Halter. injection Hget as <-. injection Halter as <-.
    destruct root as [data children]. cbn [gnode_ids g_data g_children].
    rewrite flat_map_app. cbn [flat_map]. by rewrite app_nil_r, app_assoc.
  - cbn [g_node_get g_node_alter] in Hget, Halter.
    destruct (g_children root !! i) as [ci|] eqn:Hi; [|done].
    cbn [mbind option_bind] in Hget, Halter.
    destruct (g_node_alter _ ci p) as [ci'|] eqn:Hci'; [|done].
    cbn [mbind option_bind] in Halter. injection Halter as <-.
    destruct root as [data children]. cbn [gnode_ids g_data g_children] in *.
    rewrite insert_take_drop by (by eapply lookup_lt_Some).
    replace (flat_map gnode_ids children)
      with (flat_map gnode_ids (take i children ++ ci :: drop (S i) children))
      by (by rewrite take_drop_middle).
    rewrite !flat_map_app. cbn [flat_map].
    rewrite (IH ci n ci' Hget Hci').
    rewrite <- !app_assoc. do 3 f_equiv. apply Permutation_app_comm.
Qed.

Lemma parsed_ok_closed heap n0 n :
  ∀ parent_live,
    parsed_ok heap n0 parent_live n = true →
    live_closed heap n = true
    ∧ (parent_live = false → none_emitted heap n = true)
    ∧ Forall (fun id => (n0 ≤ id < length heap)%nat) (gnode_ids n).
Proof.
  induction n as [data children IH] using GNode_ind. intros parent_live.
  cbn [parsed_ok live_closed none_emitted gnode_ids].
  destruct data as [id|]; [|done]. cbn [emitted].
  intros H. apply andb_prop in H as [H Hch]. apply andb_prop in H as [H Hpl].
  apply andb_prop in H as [Hlo Hhi].
  apply Nat.leb_le in Hlo. apply Nat.ltb_lt in Hhi.
  rewrite forallb_forall in Hch. rewrite Forall_forall in IH.
  assert (Hkids : ∀ c, In c children →
            live_closed heap c = true
            ∧ (live heap id = false → none_emitted heap c = true)
            ∧ Forall (fun id => (n0 ≤ id < length heap)%nat) (gnode_ids c)).
  { intros c Hc. apply (IH c); [by apply list_elem_of_In|by apply Hch]. }
  split; [|split].
  - destruct (live heap id) eqn:Hlive; apply forallb_forall; intros c Hc;
      by apply Hkids.
  - intros ->. cbn [orb] in Hpl. apply negb_true_iff in Hpl. rewrite Hpl.
    cbn [negb andb]. apply forallb_forall. intros c Hc. by apply Hkids.
  - constructor; [lia|]. apply Forall_flat_map, Forall_forall.
    intros c Hc. apply Hkids. by apply list_elem_of_In.
Qed.

Lemma has_flag_add_literal bn :
  xb_builder_node_has_flag
    (xb_builder_node_add_flag bn XB_BUILDER_NODE_FLAG_LITERAL_TEXT)
    XB_BUILDER_NODE_FLAG_IGNORE_CDATA
  = xb_builder_node_has_flag bn XB_BUILDER_NODE_FLAG_IGNORE_CDATA.
Proof.
  unfold xb_builder_node_has_flag, xb_builder_node_add_flag. cbn [bn_flags].
  rewrite Z.land_lor_distr_l.
  change (Z.land XB_BUILDER_NODE_FLAG_LITERAL_TEXT XB_BUILDER_NODE_FLAG_IGNORE_CDATA)
    with 0.
  by rewrite Z.lor_0_r.
Qed.

Lemma live_insert (heap : Store) id bn :
  xb_builder_node_has_flag bn XB_BUILDER_NODE_FLAG_IGNORE_CDATA
  = xb_builder_node_has_flag (heap !!! id) XB_BUILDER_NODE_FLAG_IGNORE_CDATA →
  ∀ j, live (<[id := bn]> heap) j = live heap j.
Proof.
  intros Hflag j. unfold live. destruct (decide (j = id)) as [->|Hne].
  - destruct (decide (id < length heap)%nat) as [Hlt|Hge].
    + rewrite list_lookup_total_insert_eq by done. by rewrite Hflag.
    + by rewrite list_insert_ge by lia.
  - by rewrite list_lookup_total_insert_ne.
Qed.

Lemma start_element_node_ignored helper (heap : Store) pid name attrs :
  live heap pid = false →
  xb_builder_node_has_flag
    (start_element_node helper heap (Some pid) name attrs)
    XB_BUILDER_NODE_FLAG_IGNORE_CDATA = true.
Proof.
  unfold live. intros Hp. apply negb_false_iff in Hp.
  unfold start_element_node. rewrite Hp. rewrite has_flag_add_flag.
  cbn [negb andb]. apply has_flag_add_flag.
Qed.

Lemma g_node_get_ids p :
  ∀ root n id,
    g_node_get root p = Some n → g_data n = Some id → id ∈ gnode_ids root.
Proof.
  induction p as [|i p IH]; intros root n id Hget Hd.
  - cbn in Hget. injection Hget as <-. destruct root as [data children].
    cbn in *. subst data. by left.
  - cbn [g_node_get] in Hget.
    destruct (g_children root !! i) as [ci|] eqn:Hi; [|done].
    cbn [mbind option_bind] in Hget. destruct root as [data children].
    cbn [gnode_ids g_children] in *. apply elem_of_app. right.
    apply list_elem_of_In, in_flat_map. exists ci.
    split; [by apply list_elem_of_In; eapply list_elem_of_lookup_2|].
    apply list_elem_of_In. by eapply IH.
Qed.

Lemma parsed_tree_ids n0 heap root :
  parsed_tree n0 heap root →
  Forall (fun id => (n0 ≤ id < length heap)%nat) (gnode_ids root).
Proof.
  intros (_ & Hroot & Hok & _). destruct root as [data children].
  cbn in Hroot. subst data. cbn [gnode_ids app g_children] in *.
  apply Forall_flat_map, Forall_forall. intros c Hc.
  rewrite forallb_forall in Hok.
  apply (parsed_ok_closed heap n0 c true), Hok. by apply list_elem_of_In.
Qed.

(** Appending a leaf for a new object under the node at [p]. *)
Lemma parsed_tree_append n0 (heap : Store) root p n root' bn :
  parsed_tree n0 heap root →
  g_node_get root p = Some n →
  g_node_alter
    (fun m => MkGNode (g_data m) (g_children m ++ [MkGNode (Some (length heap)) []]))
    root p = Some root' →
  (∀ pid, g_data n = Some pid → live heap pid = false →
     xb_builder_node_has_flag bn XB_BUILDER_NODE_FLAG_IGNORE_CDATA = true) →
  parsed_tree n0 (heap ++ [bn]) root'.
Proof.
  intros Htree Hget Halter Hbn.
  pose proof (parsed_tree_ids _ _ _ Htree) as Hids.
  destruct Htree as (Hlen & Hroot & Hok & Hnodup).
  assert (Hlive : ∀ id, (id < length heap)%nat →
            live (heap ++ [bn]) id = live heap id).
  { intros id Hid. unfold live. by rewrite lookup_total_app_l. }
  assert (Hok' : forallb (parsed_ok (heap ++ [bn]) n0 true) (g_children root) = true).
  { rewrite forallb_forall in *. intros c Hc.
    apply (parsed_ok_mono heap); [rewrite length_app; lia|done|by apply Hok]. }
  assert (Hleaf : ∀ parent_live,
            (parent_live = false → live (heap ++ [bn]) (length heap) = false) →
            parsed_ok (heap ++ [bn]) n0 parent_live
              (MkGNode (Some (length heap)) []) = true).
  { intros parent_live Hpl. cbn [parsed_ok forallb].
    rewrite (proj2 (Nat.leb_le _ _) Hlen).
    rewrite (proj2 (Nat.ltb_lt (length heap) (length (heap ++ [bn]))))
      by (rewrite length_app; cbn; lia).
    destruct parent_live; [done|]. by rewrite Hpl. }
  split; [rewrite length_app; lia|]. split; [|split].
  - destruct p; cbn in Halter.
    + by injection Halter as <-.
    + destruct (g_children root !! n1); [|done]. cbn in Halter.
      destruct (g_node_alter _ _ _); [|done]. by injection Halter as <-.
  - destruct p as [|i p]; cbn [g_node_get g_node_alter] in Hget, Halter.
    + injection Halter as <-. cbn [g_children].
      rewrite forallb_app, Hok'. cbn [forallb andb]. by rewrite Hleaf.
    + destruct (g_children root !! i) as [ci|] eqn:Hi; [|done].
      cbn [mbind option_bind] in Hget, Halter.
      destruct (g_node_alter _ ci p) as [ci'|] eqn:Hci'; [|done].
      cbn [mbind option_bind] in Halter. injection Halter as <-.
      cbn [g_children]. eapply forallb_insert; [exact Hi|exact Hok'|].
      eapply parsed_ok_alter; [exact Hget|exact Hci'|by eapply forallb_lookup|].
      intros pid Hpid. apply Hleaf. intros Hpl.
      assert (Hin : pid ∈ gnode_ids root).
      { eapply (g_node_get_ids (i :: p)); [|exact Hpid].
        cbn [g_node_get]. rewrite Hi. exact Hget. }
      rewrite Forall_forall in Hids. specialize (Hids pid Hin).
      rewrite Hlive in Hpl by lia.
      unfold live. rewrite lookup_total_app_r by lia.
      rewrite Nat.sub_diag. cbn. by rewrite (Hbn pid Hpid Hpl).
  - rewrite (gnode_ids_alter _ _ _ _ _ Hget Halter). cbn [gnode_ids flat_map app].
    apply NoDup_app. split; [done|]. split; [|apply NoDup_singleton].
    intros id Hid Hin. apply list_elem_of_singleton in Hin. subst id.
    rewrite Forall_forall in Hids. specialize (Hids _ Hid). lia.
Qed.

Lemma parsed_tree_update n0 (heap : Store) root id bn :
  xb_builder_node_has_flag bn XB_BUILDER_NODE_FLAG_IGNORE_CDATA
  = xb_builder_node_has_flag (heap !!! id) XB_BUILDER_NODE_FLAG_IGNORE_CDATA →
  parsed_tree n0 heap root → parsed_tree n0 (<[id := bn]> heap) root.
Proof.
  intros Hflag (Hlen & Hroot & Hok & Hnodup).
  split; [by rewrite length_insert|]. split; [done|]. split; [|done].
  rewrite forallb_forall in *. intros c Hc.
  apply (parsed_ok_mono heap); [by rewrite length_insert| |by apply Hok].
  intros j _. by apply live_insert.
Qed.

Lemma parser_callback_parsed n0 ev helper heap helper' heap' :
  h_info helper = None →
  parsed_tree n0 heap (h_root helper) →
  parser_callback ev helper heap = Some (helper', heap') →
  parsed_tree n0 heap' (h_root helper') ∧ h_info helper' = None.
Proof.
  intros Hinfo Htree Hcb. destruct ev as [name attrs|name|text]; cbn in Hcb.
  - unfold xb_builder_compile_start_element_cb in Hcb.
    destruct (h_current helper) as [p|]; [|done]. cbn [mbind option_bind] in Hcb.
    destruct (g_node_get (h_root helper) p) as [n|] eqn:Hget; [|done].
    cbn [mbind option_bind] in Hcb. unfold g_node_append_data in Hcb.
    rewrite Hget in Hcb. cbn [mbind option_bind] in Hcb.
    destruct (g_node_alter _ (h_root helper) p) as [root'|] eqn:Halter; [|done].
    cbn [mbind option_bind] in Hcb. injection Hcb as <- <-.
    split; [|done]. cbn [helper_set_tree h_root].
    eapply parsed_tree_append; [exact Htree|exact Hget|exact Halter|].
    intros pid -> Hpid. by apply start_element_node_ignored.
  - unfold xb_builder_compile_end_element_cb in Hcb.
    destruct (h_current helper) as [p|]; [|done]. cbn [mbind option_bind] in Hcb.
    rewrite Hinfo in Hcb.
    destruct (decide (g_node_parent p = Some []));
      cbn [mbind option_bind] in Hcb; by injection Hcb as <- <-.
  - unfold xb_builder_compile_text_cb in Hcb.
    destruct (h_current helper) as [p|]; [|done]. cbn [mbind option_bind] in Hcb.
    destruct (g_node_get (h_root helper) p) as [n|]; [|done].
    cbn [mbind option_bind] in Hcb.
    destruct (g_data n) as [id|]; [|by injection Hcb as <- <-].
    destruct (String.length text =? 0)%nat; [by injection Hcb as <- <-|].
    destruct (xb_builder_node_has_flag _ _) eqn:Hign; [by injection Hcb as <- <-|].
    destruct (all_whitespace text); [by injection Hcb as <- <-|].
    injection Hcb as <- <-. split; [|done].
    apply parsed_tree_update; [|done].
    destruct (flag_set _ _); [|by rewrite Hign].
    change (xb_builder_node_has_flag
              (xb_builder_node_add_flag (heap !!! id) XB_BUILDER_NODE_FLAG_LITERAL_TEXT)
              XB_BUILDER_NODE_FLAG_IGNORE_CDATA
            = xb_builder_node_has_flag (heap !!! id) XB_BUILDER_NODE_FLAG_IGNORE_CDATA).
    apply has_flag_add_literal.
Qed.

Lemma g_markup_parse_context_parse_parsed n0 events :
  ∀ helper heap helper' heap',
    h_info helper = None →
    parsed_tree n0 heap (h_root helper) →
    g_markup_parse_context_parse events helper heap = Some (helper', heap') →
    parsed_tree n0 heap' (h_root helper') ∧ h_info helper' = None.
Proof.
  induction events as [|ev events IH]; intros helper heap helper' heap' Hinfo Htree;
    cbn [g_markup_parse_context_parse].
  - by intros [= <- <-].
  - destruct (parser_callback ev helper heap) as [[h1 heap1]|] eqn:Hcb; [|done].
    cbn [mbind option_bind]. intros Hrest.
    destruct (parser_callback_parsed n0 ev helper heap h1 heap1 Hinfo Htree Hcb)
      as [Htree1 Hinfo1].
    by eapply IH.
Qed.

Lemma compile_imports_parsed n0 flags imports :
  Forall (fun import => imp_info import = None) imports →
  ∀ helper heap helper' heap' r,
    parsed_tree n0 heap (h_root helper) →
    compile_imports flags imports helper heap = Some (helper', heap', r) →
    parsed_tree n0 heap' (h_root helper').
Proof.
  induction 1 as [|import rest Hinfo _ IH];
    intros helper heap helper' heap' r Htree; cbn [compile_imports].
  - by intros [= <- <- <-].
  - unfold xb_builder_compile_import.
    destruct (g_markup_parse_context_parse (imp_events import) _ heap)
      as [[h1 heap1]|] eqn:Hparse; [|done].
    cbn [mbind option_bind].
    destruct (g_markup_parse_context_parse_parsed n0 _
                (helper_set_info (helper_set_tree helper (h_root helper) (Some []))
                                 (imp_info import))
                heap h1 heap1 Hinfo Htree Hparse) as [Htree1 _].
    destruct (imp_error import) as [e|]; cbn [mbind option_bind].
    + destruct (flag_set flags _); [by apply IH|]. by intros [= <- <- <-].
    + case_decide; cbn [mbind option_bind]; [by apply IH|].
      destruct (flag_set flags _); [by apply IH|]. by intros [= <- <- <-].
Qed.

(** ** The node table of a compiled builder *)

Lemma forallb_ext_in {A} (f g : A → bool) (l : list A) :
  (∀ x, In x l → f x = g x) → forallb f l = forallb g l.
Proof.
  induction l as [|x l IH]; intros H; [done|]. cbn [forallb].
  rewrite (H x) by (by left). rewrite IH; [done|]. intros y Hy. apply H. by right.
Qed.

Lemma live_closed_ext heap heap' n :
  (∀ id, id ∈ gnode_ids n → live heap' id = live heap id) →
  live_closed heap' n = live_closed heap n
  ∧ none_emitted heap' n = none_emitted heap n.
Proof.
  induction n as [data children IH] using GNode_ind. intros Hlive.
  cbn [gnode_ids live_closed none_emitted] in *.
  assert (He : emitted heap' data = emitted heap data).
  { destruct data as [id|]; [|done]. cbn [emitted]. apply Hlive. by left. }
  assert (Hkids : ∀ c, In c children →
            live_closed heap' c = live_closed heap c
            ∧ none_emitted heap' c = none_emitted heap c).
  { intros c Hc. rewrite Forall_forall in IH. apply IH; [by apply list_elem_of_In|].
    intros id Hid. apply Hlive. apply elem_of_app. right.
    apply list_elem_of_In, in_flat_map. exists c. split; [done|].
    by apply list_elem_of_In. }
  rewrite He.
  rewrite (forallb_ext_in (live_closed heap') (live_closed heap))
    by (intros c Hc; by apply Hkids).
  rewrite (forallb_ext_in (none_emitted heap') (none_emitted heap))
    by (intros c Hc; by apply Hkids).
  done.
Qed.

Lemma gnode_of_bnode_ids bn : gnode_ids (gnode_of_bnode bn) = bnode_ids bn.
Proof.
  induction bn as [id children IH] using BNode_ind.
  cbn [gnode_of_bnode gnode_ids bnode_ids app]. f_equal.
  induction IH as [|c cs Hc _ IHcs]; [done|]. cbn [map flat_map].
  by rewrite Hc, IHcs.
Qed.




(** The tree on which the passes of a compile run, when no import carries
    an info tree. *)
Lemma compile_tree_built locales self flags heap helper heap1 root :
  Forall (fun import => imp_info import = None) (b_imports self) →
  compile_imports flags (b_imports self) (compile_helper_new flags locales) heap
    = Some (helper, heap1, GOk tt) →
  compile_nodes (b_nodes self) (h_root helper) = Some root →
  parsed_tree (length heap) heap1 (h_root helper)
  ∧ (∀ id, (id < length heap)%nat → heap1 !!! id = heap !!! id)
  ∧ root = MkGNode None (g_children (h_root helper)
                         ++ map gnode_of_bnode (b_nodes self)).
Proof.
  intros Hinfo Himports Hnodes.
  assert (Htree : parsed_tree (length heap) heap1 (h_root helper)).
  { eapply compile_imports_parsed; [exact Hinfo| |exact Himports].
    split; [done|]. split; [done|]. split; [done|]. constructor. }
  split; [done|]. split.
  - eapply (compile_imports_inv (length heap)); [| |exact Himports]; done.
  - rewrite compile_nodes_mirror in Hnodes. injection Hnodes as <-.
    by rewrite (proj1 (proj2 Htree)).
Qed.

Lemma manual_nodes_closed heap heap1 nodes :
  Forall (manual_node_ok heap) nodes →
  (∀ id, (id < length heap)%nat → heap1 !!! id = heap !!! id) →
  forallb (live_closed heap1) (map gnode_of_bnode nodes) = true.
Proof.
  intros Hok Hkeep. induction Hok as [|bn rest [Hids Hclosed] _ IH]; [done|].
  cbn [map forallb]. rewrite IH, andb_true_r.
  destruct (live_closed_ext heap heap1 (gnode_of_bnode bn)) as [-> _]; [|done].
  intros id Hid. rewrite gnode_of_bnode_ids in Hid.
  rewrite Forall_forall in Hids. unfold live. by rewrite Hkeep by (by apply Hids).
Qed.

(** The tree on which the passes run has no live node under an ignored
    one, when no import carries an info tree and the manually built trees
    have none. *)
Lemma compile_closed_forest locales self flags heap helper heap1 root :
  Forall (fun import => imp_info import = None) (b_imports self) →
  Forall (manual_node_ok heap) (b_nodes self) →
  compile_imports flags (b_imports self) (compile_helper_new flags locales) heap
    = Some (helper, heap1, GOk tt) →
  compile_nodes (b_nodes self) (h_root helper) = Some root →
  g_data root = None
  ∧ forallb (live_closed heap1) (g_children root) = true.
Proof.
  intros Hinfo Hmanual Himports Hnodes.
  destruct (compile_tree_built _ _ _ _ _ _ _ Hinfo Himports Hnodes)
    as (Htree & Hkeep & Hroot).
  rewrite Hroot. split; [done|]. cbn [g_children]. rewrite forallb_app.
  rewrite (manual_nodes_closed heap heap1 _ Hmanual Hkeep), andb_true_r.
  destruct Htree as (_ & _ & Hok & _).
  rewrite forallb_forall in *. intros c Hc.
  by apply (parsed_ok_closed heap1 (length heap) c true), Hok.
Qed.

(** X9. When no import carries an info tree and no manually built tree has
    a live node under an ignored one, the [strtab] field of the header of
    the blob that [xb_builder_compile] returns is the offset at which the
    string table starts (as a [guint32]): the size pass is exact, whatever
    the flags, the locales and the documents, failed imports included. The
    size pass counts one byte for a sentinel, so this is for a layout whose
    sentinel is written in one byte. *)
Theorem compile_strtab_offset_exact `{cfg : SiloConfig} (locales : list string)
    (self self' : XbBuilder) (flags : Z) (heap heap' : Store) (silo : XbSilo) :
  sizeof_sentinel = 1 →
  Forall (fun import => imp_info import = None) (b_imports self) →
  Forall (manual_node_ok heap) (b_nodes self) →
  xb_builder_compile locales self flags heap = Some (self', heap', GOk silo) →
  ∃ hdr nodetab strtab,
    silo_blob silo = Some (ChunkHeader hdr :: nodetab ++ [ChunkStrtab strtab])
    ∧ hdr_strtab hdr = u32 (buf_len (ChunkHeader hdr :: nodetab)).
Proof.
  intros Hsent Hinfo Hmanual Hc.
  destruct (xb_builder_compile_inv _ _ _ _ _ _ _ Hc)
    as (helper & heap1 & root & Himports & Hnodes & -> & _ & _).
  destruct (compile_closed_forest _ _ _ _ _ _ _ Hinfo Hmanual Himports Hnodes)
    as [Hroot Hclosed].
  destruct (nodetab_size_exact (b_guid self) root heap1 Hsent Hroot Hclosed)
    as (hdr & nodetab & strtab & Hblob & Hsize).
  exists hdr, nodetab, strtab. cbn [silo_blob]. by rewrite Hblob.
Qed.

Lemma compile_strtab_offset_exact_witness :
  ∃ self' heap' silo hdr nodetab strtab,
    xb_builder_compile (cfg := example_config) ["en"; "C"]
      (xb_builder_import xb_builder_new langs_import)
      XB_BUILDER_COMPILE_FLAG_NATIVE_LANGS []
      = Some (self', heap', GOk silo)
    ∧ silo_blob silo = Some (ChunkHeader hdr :: nodetab ++ [ChunkStrtab strtab])
    ∧ hdr_strtab hdr
      = u32 (buf_len (cfg := example_config) (ChunkHeader hdr :: nodetab)).
Proof.
  destruct (xb_builder_compile (cfg := example_config) ["en"; "C"]
              (xb_builder_import xb_builder_new langs_import)
              XB_BUILDER_COMPILE_FLAG_NATIVE_LANGS [])
    as [[[self' heap'] [silo|e]]|] eqn:Hcompile;
    [|by vm_compute in Hcompile..].
  assert (Hinfo : Forall (fun import => imp_info import = None)
                    (b_imports (xb_builder_import xb_builder_new langs_import)))
    by (by repeat constructor).
  assert (Hmanual : Forall (manual_node_ok [])
                      (b_nodes (xb_builder_import xb_builder_new langs_import)))
    by (by constructor).
  destruct (compile_strtab_offset_exact (cfg := example_config) ["en"; "C"]
              (xb_builder_import xb_builder_new langs_import) self'
              XB_BUILDER_COMPILE_FLAG_NATIVE_LANGS [] heap' silo eq_refl
              Hinfo Hmanual Hcompile)
    as (hdr & nodetab & strtab & Hblob & Hsize).
  exists self', heap', silo, hdr, nodetab, strtab.
  split; [reflexivity|]. split; [exact Hblob|exact Hsize].
Defined.




(** ** The parts of a compiled blob *)

Lemma compile_tree_eq `{cfg : SiloConfig} guid_acc root heap :
  let hdr := MkHeader XB_SILO_MAGIC_BYTES XB_SILO_VERSION (nodetab_size root heap)
               (Z.of_nat (size (fst (fst (strtab_tags_pass root heap)))))
               (compile_guid guid_acc) in
  let w := fold_left xb_builder_nodetab_write_cb (g_node_traverse_pre_order root)
             (MkNodetab [ChunkHeader hdr] 0, snd (strtab_passes root heap)) in
  compile_tree guid_acc root heap
  = (fold_left (xb_builder_nodetab_fix_cb (snd w)) (g_node_traverse_pre_order root)
       (nt_buf (fst w)
        ++ repeat (ChunkNode sentinel) (Z.to_nat (nt_level (fst w) - 1)))
     ++ [ChunkStrtab (snd (fst (strtab_passes root heap)))],
     snd w).
Proof.
  cbn zeta. unfold compile_tree, strtab_passes, strtab_tags_pass, nodetab_size.
  destruct (fold_left xb_builder_strtab_text_cb _ _) as [[hash strtab] heap1].
  cbn [fst snd].
  destruct (fold_left xb_builder_nodetab_write_cb _ _) as [helper heap2].
  cbn [fst snd]. by rewrite iter_write_sentinel.
Qed.

Lemma compile_tree_parts `{cfg : SiloConfig} guid_acc root heap :
  ∃ nodetab,
    fst (compile_tree guid_acc root heap)
    = ChunkHeader
        (MkHeader XB_SILO_MAGIC_BYTES XB_SILO_VERSION (nodetab_size root heap)
           (Z.of_nat (size (fst (fst (strtab_tags_pass root heap)))))
           (compile_guid guid_acc))
      :: nodetab ++ [ChunkStrtab (snd (fst (strtab_passes root heap)))].
Proof.
  rewrite compile_tree_eq. cbn [fst].
  set (hdr := MkHeader _ _ _ _ _).
  destruct (write_pass_appends (g_node_traverse_pre_order root)
              (MkNodetab [ChunkHeader hdr] 0, snd (strtab_passes root heap)))
    as (suffix & Hbuf).
  cbn [fst nt_buf] in Hbuf. rewrite Hbuf. cbn [app].
  destruct (fix_pass_header
              (snd (fold_left xb_builder_nodetab_write_cb
                      (g_node_traverse_pre_order root)
                      (MkNodetab [ChunkHeader hdr] 0, snd (strtab_passes root heap))))
              (g_node_traverse_pre_order root) hdr
              (suffix ++ repeat (ChunkNode sentinel)
                 (Z.to_nat (nt_level (fst (fold_left xb_builder_nodetab_write_cb
                      (g_node_traverse_pre_order root)
                      (MkNodetab [ChunkHeader hdr] 0,
                       snd (strtab_passes root heap)))) - 1))))
    as (rest & Hrest).
  rewrite Hrest. by exists rest.
Qed.

(** ** The tags in the string table *)

Lemma add_to_strtab_prefix hash strtab str :
  ∃ more, snd (xb_builder_compile_add_to_strtab hash strtab str) = strtab ++ more.
Proof.
  unfold xb_builder_compile_add_to_strtab. destruct (hash !! str).
  - exists []. by rewrite app_nil_r.
  - by eexists.
Qed.

Lemma intern_attrs_prefix field set attrs :
  ∀ hash strtab,
    ∃ more, snd (intern_attrs field set attrs hash strtab) = strtab ++ more.
Proof.
  induction attrs as [|attr rest IH]; intros hash strtab; cbn [intern_attrs].
  - exists []. by rewrite app_nil_r.
  - destruct (add_to_strtab_prefix hash strtab (field attr)) as (m1 & H1).
    destruct (xb_builder_compile_add_to_strtab hash strtab (field attr))
      as [[idx hash'] strtab'].
    cbn [snd] in H1. subst strtab'.
    destruct (IH hash' (strtab ++ m1)) as (m2 & H2).
    destruct (intern_attrs field set rest hash' (strtab ++ m1))
      as [[rest' hash''] strtab''].
    cbn [snd] in *. subst strtab''. exists (m1 ++ m2). by rewrite app_assoc.
Qed.

Lemma strtab_pass_prefix (cb : StrtabState → option nat → StrtabState) :
  (∀ st data, ∃ more, snd (fst (cb st data)) = snd (fst st) ++ more) →
  ∀ datas st,
    ∃ more, snd (fst (fold_left cb datas st)) = snd (fst st) ++ more.
Proof.
  intros Hcb. induction datas as [|data datas IH]; intros st; cbn [fold_left].
  - exists []. by rewrite app_nil_r.
  - destruct (IH (cb st data)) as (m2 & ->). destruct (Hcb st data) as (m1 & ->).
    exists (m1 ++ m2). by rewrite app_assoc.
Qed.

Lemma strtab_attr_name_cb_prefix st data :
  ∃ more, snd (fst (xb_builder_strtab_attr_name_cb st data)) = snd (fst st) ++ more.
Proof.
  destruct st as [[hash strtab] heap]. unfold xb_builder_strtab_attr_name_cb.
  destruct data as [id|]; [|exists []; by rewrite app_nil_r].
  destruct (negb (live heap id)); [exists []; by rewrite app_nil_r|].
  destruct (intern_attrs_prefix attr_name attr_set_name_idx
              (bn_attrs (heap !!! id)) hash strtab) as (more & H).
  destruct (intern_attrs _ _ _ _ _) as [[attrs hash'] strtab'].
  cbn [fst snd] in *. by exists more.
Qed.

Lemma strtab_attr_value_cb_prefix st data :
  ∃ more, snd (fst (xb_builder_strtab_attr_value_cb st data)) = snd (fst st) ++ more.
Proof.
  destruct st as [[hash strtab] heap]. unfold xb_builder_strtab_attr_value_cb.
  destruct data as [id|]; [|exists []; by rewrite app_nil_r].
  destruct (negb (live heap id)); [exists []; by rewrite app_nil_r|].
  destruct (intern_attrs_prefix attr_value attr_set_value_idx
              (bn_attrs (heap !!! id)) hash strtab) as (more & H).
  destruct (intern_attrs _ _ _ _ _) as [[attrs hash'] strtab'].
  cbn [fst snd] in *. by exists more.
Qed.

Lemma strtab_text_cb_prefix st data :
  ∃ more, snd (fst (xb_builder_strtab_text_cb st data)) = snd (fst st) ++ more.
Proof.
  destruct st as [[hash strtab] heap]. unfold xb_builder_strtab_text_cb.
  destruct data as [id|]; [|exists []; by rewrite app_nil_r].
  destruct (negb (live heap id)); [exists []; by rewrite app_nil_r|].
  destruct (bn_text (heap !!! id)) as [tmp|]; [|exists []; by rewrite app_nil_r].
  destruct (add_to_strtab_prefix hash strtab tmp) as (more & H).
  destruct (xb_builder_compile_add_to_strtab hash strtab tmp) as [[idx hash'] strtab'].
  cbn [fst snd] in *. by exists more.
Qed.

Lemma content_kept_element heap heap' id :
  content_kept heap heap' → bn_element (heap' !!! id) = bn_element (heap !!! id).
Proof.
  intros [_ Hc]. specialize (Hc id). unfold bn_content in Hc. by injection Hc.
Qed.

(** The first pass interns the tags of the live nodes, in level order. *)
Lemma element_pass_interns heap0 datas :
  ∀ hash strtab heap,
    content_kept heap0 heap →
    let st := fold_left xb_builder_strtab_element_names_cb datas
                (hash, strtab, heap) in
    fst st = intern_all (live_tags heap0 datas) (hash, strtab)
    ∧ content_kept heap0 (snd st).
Proof.
  induction datas as [|data datas IH]; intros hash strtab heap Hkept; cbn zeta.
  - done.
  - cbn [fold_left live_tags flat_map].
    pose proof (strtab_element_names_cb_content (hash, strtab, heap) data) as Hstep.
    unfold xb_builder_strtab_element_names_cb in *.
    destruct data as [id|]; [|by apply IH].
    rewrite (content_kept_live heap0 heap id Hkept) in *.
    destruct (live heap0 id) eqn:Hlive; cbn [negb app] in *; [|by apply IH].
    rewrite (content_kept_element heap0 heap id Hkept) in *.
    unfold intern_all. cbn [fold_left fst snd].
    destruct (xb_builder_compile_add_to_strtab hash strtab
                (bn_element (heap0 !!! id))) as [[idx hash'] strtab'].
    cbn [snd] in Hstep.
    apply IH. by eapply content_kept_trans.
Qed.

(** X11. The [strtab_ntags] field of the header of a compiled blob is the
    number of distinct tags of the nodes that are written, and the string
    table, the last record of the blob, starts with these tags, each once,
    in the order in which a level-order walk of the tree first meets
    them. *)
Theorem strtab_ntags_counts_tags `{cfg : SiloConfig} (guid_acc : string)
    (root : GNode) (heap : Store) :
  let tags :=
    first_occurrences [] (live_tags heap (g_node_traverse_level_order root)) in
  ∃ hdr nodetab more,
    fst (compile_tree guid_acc root heap)
    = ChunkHeader hdr :: nodetab
      ++ [ChunkStrtab (flat_map strtab_entry tags ++ more)]
    ∧ hdr_strtab_ntags hdr = Z.of_nat (length tags).
Proof.
  cbn zeta. destruct (compile_tree_parts guid_acc root heap) as (nodetab & Hblob).
  destruct (element_pass_interns heap (g_node_traverse_level_order root)
              ∅ [] heap (content_kept_refl heap)) as [Htags _].
  fold (strtab_tags_pass root heap) in Htags.
  destruct (intern_all_layout (live_tags heap (g_node_traverse_level_order root))
              ∅ [] [])
    as (Hlayout & _ & _ & _ & Hsize).
  { intros s. rewrite lookup_empty. split.
    - intros H. by apply elem_of_nil in H.
    - by intros [? ?]. }
  cbn zeta in Hlayout, Hsize. rewrite map_size_empty in Hsize.
  cbn [app] in Hlayout. rewrite Nat.add_0_l in Hsize.
  rewrite <- Htags in Hlayout, Hsize.
  assert (Hmore : ∃ more, snd (fst (strtab_passes root heap))
                          = snd (fst (strtab_tags_pass root heap)) ++ more).
  { unfold strtab_passes.
    destruct (strtab_pass_prefix _ strtab_text_cb_prefix
                (g_node_traverse_level_order root)
                (fold_left xb_builder_strtab_attr_value_cb
                   (g_node_traverse_level_order root)
                   (fold_left xb_builder_strtab_attr_name_cb
                      (g_node_traverse_level_order root)
                      (strtab_tags_pass root heap)))) as (m3 & ->).
    destruct (strtab_pass_prefix _ strtab_attr_value_cb_prefix
                (g_node_traverse_level_order root)
                (fold_left xb_builder_strtab_attr_name_cb
                   (g_node_traverse_level_order root)
                   (strtab_tags_pass root heap))) as (m2 & ->).
    destruct (strtab_pass_prefix _ strtab_attr_name_cb_prefix
                (g_node_traverse_level_order root)
                (strtab_tags_pass root heap)) as (m1 & ->).
    exists (m1 ++ m2 ++ m3). by rewrite <- !app_assoc. }
  destruct Hmore as (more & Hmore). rewrite Hmore, Hlayout in Hblob.
  eexists _, nodetab, more. split; [exact Hblob|].
  cbn [hdr_strtab_ntags]. by rewrite Hsize.
Qed.

(** ** Importing a directory *)

Lemma substring_all s : substring 0 (String.length s) s = s.
Proof. induction s as [|c s IH]; [done|]. cbn. by rewrite IH. Qed.

Lemma substring_app_r pre suf :
  substring (String.length pre) (String.length suf) (pre +:+ suf) = suf.
Proof. induction pre as [|c pre IH]; [apply substring_all|exact IH]. Qed.

Lemma string_length_app s1 s2 :
  String.length (s1 +:+ s2) = (String.length s1 + String.length s2)%nat.
Proof.
  induction s1 as [|c s1 IH]; [done|].
  change (String c s1 +:+ s2) with (String c (s1 +:+ s2)).
  cbn [String.length Nat.add]. by f_equal.
Qed.

Lemma substring_split n s :
  (n ≤ String.length s)%nat →
  s = substring 0 n s +:+ substring n (String.length s - n) s.
Proof.
  revert n. induction s as [|c s IH]; intros n Hn.
  - cbn in Hn. by replace n with 0%nat by lia.
  - destruct n as [|n].
    + rewrite Nat.sub_0_r, substring_all. by destruct s.
    + cbn in Hn. cbn [substring String.length Nat.sub].
      change (String c (substring 0 n s) +:+ ?x)
        with (String c (substring 0 n s +:+ x)).
      f_equal. apply IH. lia.
Qed.

(** [g_str_has_suffix] holds exactly of the strings that end with the
    suffix. *)
Lemma g_str_has_suffix_spec str suffix :
  g_str_has_suffix str suffix = true ↔ ∃ pre, str = pre +:+ suffix.
Proof.
  unfold g_str_has_suffix. split.
  - destruct (Nat.ltb_spec (String.length str) (String.length suffix)); [done|].
    intros Heq. apply String.eqb_eq in Heq.
    exists (substring 0 (String.length str - String.length suffix) str).
    set (n := (String.length str - String.length suffix)%nat) in *.
    transitivity (substring 0 n str +:+ substring n (String.length str - n) str);
      [apply substring_split; lia|].
    f_equal. replace (String.length str - n)%nat with (String.length suffix) by lia.
    exact Heq.
  - intros [pre ->]. rewrite string_length_app.
    destruct (Nat.ltb_spec (String.length pre + String.length suffix)
                (String.length suffix)); [lia|].
    replace (String.length pre + String.length suffix - String.length suffix)%nat
      with (String.length pre) by lia.
    rewrite substring_app_r. apply String.eqb_refl.
Qed.

Section ImportFilesProperties.

Variable xb_builder_import_new_file :
  string → option BNode → gresult XbBuilderImport.
Variable g_dir_open : string → gresult (list string).
Variable g_build_filename : string → string → string.

Lemma import_dir_names_ok path info names :
  ∀ self imports,
    Forall2
      (fun fn import =>
         xb_builder_import_new_file (g_build_filename path fn) info = GOk import)
      (List.filter is_xml_name names) imports →
    import_dir_names xb_builder_import_new_file g_build_filename self path info
      names
    = (fold_left xb_builder_import imports self, GOk tt).
Proof.
  induction names as [|fn rest IH]; intros self imports Hok; cbn [List.filter] in Hok.
  - by inversion Hok.
  - cbn [import_dir_names]. destruct (is_xml_name fn); [|by apply IH].
    inversion Hok as [|? import ? imports' Hfn Hrest]; subst.
    unfold xb_builder_import_file. rewrite Hfn. cbn [fold_left]. by apply IH.
Qed.

Lemma import_dir_names_app path info before after :
  ∀ self,
    import_dir_names xb_builder_import_new_file g_build_filename self path info
      (before ++ after)
    = match import_dir_names xb_builder_import_new_file g_build_filename self
              path info before with
      | (self', GOk _) =>
          import_dir_names xb_builder_import_new_file g_build_filename self'
            path info after
      | (self', GFail e) => (self', GFail e)
      end.
Proof.
  induction before as [|fn rest IH]; intros self; cbn [app import_dir_names].
  - done.
  - destruct (is_xml_name fn); [|apply IH].
    destruct (xb_builder_import_file _ self _ info) as [self' [[]|e]]; [apply IH|done].
Qed.

(** X12. [xb_builder_import_dir] imports the files of the directory whose
    names end in [.xml] or [.xml.gz], and only those, in the order in which
    the directory gives them, each as [xb_builder_import_file] does. It
    stops at the first file that cannot be imported and returns its error:
    the files imported before it stay in the builder and in its
    accumulator. A directory that cannot be opened leaves the builder as it
    was. *)
Theorem import_dir_imports_xml_files (self : XbBuilder) (path : string)
    (info : option BNode) :
  (∀ names imports,
     g_dir_open path = GOk names →
     Forall2
       (fun fn import =>
          xb_builder_import_new_file (g_build_filename path fn) info = GOk import)
       (List.filter is_xml_name names) imports →
     xb_builder_import_dir xb_builder_import_new_file g_dir_open
       g_build_filename self path info
     = (fold_left xb_builder_import imports self, GOk tt))
  ∧ (∀ before fn after imports e,
       g_dir_open path = GOk (before ++ fn :: after) →
       Forall2
         (fun fn import =>
            xb_builder_import_new_file (g_build_filename path fn) info = GOk import)
         (List.filter is_xml_name before) imports →
       is_xml_name fn = true →
       xb_builder_import_new_file (g_build_filename path fn) info = GFail e →
       xb_builder_import_dir xb_builder_import_new_file g_dir_open
         g_build_filename self path info
       = (fold_left xb_builder_import imports self, GFail e))
  ∧ (∀ e,
       g_dir_open path = GFail e →
       xb_builder_import_dir xb_builder_import_new_file g_dir_open
         g_build_filename self path info
       = (self, GFail e)).
Proof.
  unfold xb_builder_import_dir. split; [|split].
  - intros names imports -> Hok. by apply import_dir_names_ok.
  - intros before fn after imports e -> Hok Hxml Hfail.
    rewrite import_dir_names_app.
    rewrite (import_dir_names_ok path info before self imports Hok).
    cbn [import_dir_names]. rewrite Hxml. unfold xb_builder_import_file.
    by rewrite Hfail.
  - by intros e ->.
Qed.

End ImportFilesProperties.

Lemma import_dir_imports_xml_files_witness :
  let failed := MkGError "G_IO_ERROR" "G_IO_ERROR_NOT_FOUND" "no such file" in
  let new_file (file : string) (info : option BNode) :=
    if String.eqb file "d/bad.xml" then GFail failed
    else GOk (MkImport file info [] None) in
  let dir_open (path : string) : gresult (list string) :=
    GOk ["a.xml"; "notes.txt"; "b.xml.gz"; "bad.xml"; "c.xml"] in
  let build_filename (path fn : string) := path +:+ "/" +:+ fn in
  xb_builder_import_dir new_file dir_open build_filename xb_builder_new "d" None
  = (MkBuilder [MkImport "d/a.xml" None [] None; MkImport "d/b.xml.gz" None [] None]
               [] xb_silo_new "d/a.xml&d/b.xml.gz",
     GFail failed).
Proof.
  intros failed new_file dir_open build_filename.
  apply (proj1 (proj2 (import_dir_imports_xml_files new_file dir_open build_filename
                         xb_builder_new "d" None))
           ["a.xml"; "notes.txt"; "b.xml.gz"] "bad.xml" ["c.xml"]
           [MkImport "d/a.xml" None [] None; MkImport "d/b.xml.gz" None [] None]
           failed).
  - reflexivity.
  - vm_compute. repeat constructor.
  - reflexivity.
  - reflexivity.
Defined.

(** ** The records of the node table, in order *)

Lemma same_but_offset_refl heap : same_but_offset heap heap.
Proof. by split. Qed.

Lemma same_but_offset_trans h1 h2 h3 :
  same_but_offset h1 h2 → same_but_offset h2 h3 → same_but_offset h1 h3.
Proof.
  intros [L1 H1] [L2 H2]. split; [congruence|]. intros id.
  by rewrite H2, H1.
Qed.

Lemma same_but_offset_fields heap heap' id :
  same_but_offset heap heap' →
  live heap' id = live heap id
  ∧ node_record (heap' !!! id) = node_record (heap !!! id)
  ∧ attr_records (heap' !!! id) = attr_records (heap !!! id).
Proof.
  intros [_ H]. specialize (H id). unfold xb_builder_node_set_offset in H.
  injection H as He Ht Ha Hf Hei Hti.
  unfold live, xb_builder_node_has_flag, node_record, attr_records.
  by rewrite Ht, Ha, Hf, Hei, Hti.
Qed.

Lemma same_but_offset_insert (heap : Store) id off :
  same_but_offset heap
    (<[id := xb_builder_node_set_offset (heap !!! id) off]> heap).
Proof.
  split; [apply length_insert|]. intros j.
  destruct (decide (id = j)) as [<-|Hne].
  - destruct (decide (id < length heap)%nat) as [Hlt|Hge].
    + by rewrite list_lookup_total_insert_eq.
    + by rewrite list_insert_ge by lia.
  - by rewrite list_lookup_total_insert_ne.
Qed.

Lemma write_pass_chunks `{cfg : SiloConfig} heap0 visits :
  ∀ helper heap,
    same_but_offset heap0 heap →
    let st := fold_left xb_builder_nodetab_write_cb visits (helper, heap) in
    nt_buf (fst st)
    = nt_buf helper ++ written_chunks heap0 (nt_level helper) visits
    ∧ same_but_offset heap0 (snd st).
Proof.
  induction visits as [|v visits IH]; intros helper heap Hsame; cbn zeta.
  - cbn [fold_left written_chunks fst snd]. by rewrite app_nil_r.
  - cbn [fold_left written_chunks].
    destruct (v_data v) as [id|] eqn:Hd.
    2:{ rewrite write_cb_skipped by (by rewrite Hd). by apply IH. }
    destruct (same_but_offset_fields heap0 heap id Hsame) as (Hl & Hn & Ha).
    destruct (live heap0 id) eqn:Hlive.
    2:{ rewrite write_cb_skipped by (rewrite Hd; exact Hl). by apply IH. }
    rewrite (write_cb_emitted helper heap v id Hd Hl). cbn zeta.
    unfold xb_builder_nodetab_write_node. cbn [fst snd nt_buf nt_level].
    edestruct IH as [-> Hs].
    { eapply same_but_offset_trans; [exact Hsame|].
      apply same_but_offset_insert. }
    split; [|exact Hs]. cbn [nt_buf nt_level].
    fold (node_record (heap !!! id)). fold (attr_records (heap !!! id)).
    rewrite Hn, Ha. rewrite <- !app_assoc. by cbn [app].
Qed.

Lemma strip_links_alter `{cfg : SiloConfig} f off buf :
  (∀ sn, strip_links (ChunkNode (f sn)) = strip_links (ChunkNode sn)) →
  ∀ pos, map strip_links (buf_alter_node f off pos buf) = map strip_links buf.
Proof.
  intros Hf. induction buf as [|c buf IH]; intros pos; [done|].
  destruct c as [hdr|sn|attr|bytes]; cbn [buf_alter_node map];
    try (by rewrite IH).
  destruct (pos =? off); cbn [map]; [by rewrite Hf|by rewrite IH].
Qed.

Lemma strip_links_fix_cb `{cfg : SiloConfig} heap buf n :
  map strip_links (xb_builder_nodetab_fix_cb heap buf n) = map strip_links buf.
Proof.
  unfold xb_builder_nodetab_fix_cb.
  destruct (v_data n) as [id|]; [|done].
  destruct (negb (live heap id)); [done|].
  destruct (v_parent n) as [[id2|]|], (v_next n) as [data2|];
    rewrite ?strip_links_alter; done.
Qed.

Lemma strip_links_fix_pass `{cfg : SiloConfig} heap visits :
  ∀ buf, map strip_links (fold_left (xb_builder_nodetab_fix_cb heap) visits buf)
         = map strip_links buf.
Proof.
  induction visits as [|v visits IH]; intros buf; cbn [fold_left]; [done|].
  by rewrite IH, strip_links_fix_cb.
Qed.

Lemma strip_links_sentinels k :
  map strip_links (repeat (ChunkNode sentinel) k) = repeat (ChunkNode sentinel) k.
Proof. induction k as [|k IH]; [done|]. cbn [repeat map]. by rewrite IH. Qed.

Lemma strip_links_written heap level visits :
  map strip_links (written_chunks heap level visits)
  = written_chunks heap level visits.
Proof.
  revert level. induction visits as [|v visits IH]; intros level; [done|].
  cbn [written_chunks]. destruct (v_data v) as [id|]; [|apply IH].
  destruct (live heap id); [|apply IH].
  rewrite map_app, strip_links_sentinels. cbn [map]. rewrite map_app, IH.
  do 3 f_equal. unfold attr_records. rewrite map_map. by apply map_ext.
Qed.

(** The node table of a compiled blob, links apart: what the write pass
    appends for the nodes in pre-order, then the closing sentinels. *)
Lemma compile_tree_nodetab `{cfg : SiloConfig} guid_acc root heap :
  ∃ hdr nodetab,
    fst (compile_tree guid_acc root heap)
    = ChunkHeader hdr :: nodetab
      ++ [ChunkStrtab (snd (fst (strtab_passes root heap)))]
    ∧ map strip_links nodetab
      = written_chunks (snd (strtab_passes root heap)) 0
          (g_node_traverse_pre_order root)
        ++ repeat (ChunkNode sentinel)
             (Z.to_nat (level_after (snd (strtab_passes root heap)) 0
                          (g_node_traverse_pre_order root) - 1))
    ∧ same_but_offset (snd (strtab_passes root heap))
        (snd (compile_tree guid_acc root heap)).
Proof.
  rewrite compile_tree_eq. cbn [fst snd].
  set (hdr := MkHeader _ _ _ _ _).
  set (heap4 := snd (strtab_passes root heap)).
  set (visits := g_node_traverse_pre_order root).
  destruct (write_pass_chunks heap4 visits (MkNodetab [ChunkHeader hdr] 0) heap4
              (same_but_offset_refl heap4)) as [Hbuf Hsame].
  destruct (write_pass_len heap4 visits (MkNodetab [ChunkHeader hdr] 0) heap4
              (content_kept_refl heap4)) as [_ Hlevel].
  cbn [nt_buf nt_level] in *. rewrite Hbuf, Hlevel.
  set (w := fold_left xb_builder_nodetab_write_cb visits _) in *.
  cbn [app].
  destruct (fix_pass_header (snd w) visits hdr
              (written_chunks heap4 0 visits
               ++ repeat (ChunkNode sentinel)
                    (Z.to_nat (level_after heap4 0 visits - 1))))
    as (nodetab & Hfix).
  pose proof (strip_links_fix_pass (snd w) visits
                (ChunkHeader hdr
                 :: written_chunks heap4 0 visits
                    ++ repeat (ChunkNode sentinel)
                         (Z.to_nat (level_after heap4 0 visits - 1)))) as Hstrip.
  rewrite Hfix in Hstrip |- *. cbn [map] in Hstrip. injection Hstrip as Hstrip.
  exists hdr, nodetab. split; [done|]. split; [|done].
  by rewrite Hstrip, map_app, strip_links_written, strip_links_sentinels.
Qed.

(** ** Node records and sentinels balance *)

Lemma depth_walk_app buf1 buf2 :
  ∀ depth,
    depth_walk depth (buf1 ++ buf2)
    = depth' ← depth_walk depth buf1; depth_walk depth' buf2.
Proof.
  induction buf1 as [|c buf1 IH]; intros depth; [done|].
  destruct c as [hdr|sn|attr|bytes]; cbn [app depth_walk]; try apply IH.
  destruct (sn_is_node sn); [apply IH|]. destruct depth; [done|apply IH].
Qed.

Lemma depth_walk_sentinels k :
  ∀ depth, (k ≤ depth)%nat →
    depth_walk depth (repeat (ChunkNode sentinel) k) = Some (depth - k)%nat.
Proof.
  induction k as [|k IH]; intros depth Hk; cbn [repeat depth_walk].
  - by rewrite Nat.sub_0_r.
  - cbn [sentinel sn_is_node]. destruct depth as [|depth]; [lia|].
    rewrite IH by lia. done.
Qed.

Lemma depth_walk_attrs bn depth rest :
  depth_walk depth (attr_records bn ++ rest) = depth_walk depth rest.
Proof.
  unfold attr_records. induction (bn_attrs bn) as [|a l IH]; [done|].
  cbn [map app depth_walk]. exact IH.
Qed.

Lemma depth_walk_strip buf :
  ∀ depth, depth_walk depth (map strip_links buf) = depth_walk depth buf.
Proof.
  induction buf as [|c buf IH]; intros depth; [done|].
  destruct c as [hdr|sn|attr|bytes]; cbn [map strip_links depth_walk];
    try apply IH.
  cbn [sn_set_next sn_set_parent sn_is_node].
  destruct (sn_is_node sn); [apply IH|]. destruct depth; [done|apply IH].
Qed.

Lemma depth_walk_written heap visits :
  ∀ level, 0 ≤ level → depth_chain heap level visits →
    depth_walk (Z.to_nat (Z.max (level - 1) 0))
               (written_chunks heap level visits)
    = Some (Z.to_nat (Z.max (level_after heap level visits - 1) 0)).
Proof.
  induction visits as [|v visits IH]; intros level Hlevel Hchain;
    cbn [written_chunks level_after depth_chain] in *; [done|].
  unfold emitted in *. destruct (v_data v) as [id|]; [|by apply IH].
  destruct (live heap id); [|by apply IH].
  destruct Hchain as [Hd Hchain].
  rewrite depth_walk_app, depth_walk_sentinels by lia.
  cbn [mbind option_bind depth_walk node_record sn_is_node].
  rewrite depth_walk_attrs.
  replace (S (Z.to_nat (Z.max (level - 1) 0)
              - Z.to_nat (level - v_depth v + 1)))
    with (Z.to_nat (Z.max (v_depth v - 1) 0)) by lia.
  apply IH; [lia|done].
Qed.

Lemma nodetab_balanced `{cfg : SiloConfig} guid_acc root heap :
  g_data root = None →
  forallb (live_closed heap) (g_children root) = true →
  depth_walk 0 (fst (compile_tree guid_acc root heap)) = Some 0%nat.
Proof.
  intros Hroot Hclosed.
  destruct (compile_tree_nodetab guid_acc root heap)
    as (hdr & nodetab & -> & Hnodetab & _).
  set (heap4 := snd (strtab_passes root heap)) in *.
  set (visits := g_node_traverse_pre_order root) in *.
  assert (Hkept : content_kept heap heap4) by apply strtab_passes_content.
  assert (Hclosed4 : forallb (live_closed heap4) (g_children root) = true).
  { rewrite <- Hclosed. apply forallb_ext_in. intros c _.
    apply live_closed_ext. intros id _. by apply content_kept_live. }
  assert (Hchain : depth_chain heap4 0 visits).
  { unfold visits, g_node_traverse_pre_order. destruct root as [data children].
    cbn [g_data g_children] in *. subst data. rewrite pre_order_unfold.
    cbn [depth_chain emitted v_data].
    by apply live_closed_forest_chain. }
  cbn [depth_walk]. rewrite depth_walk_app.
  rewrite <- depth_walk_strip, Hnodetab, depth_walk_app.
  pose proof (depth_walk_written heap4 visits 0 ltac:(lia) Hchain) as Hwalk.
  change (Z.to_nat (Z.max (0 - 1) 0)) with 0%nat in Hwalk. rewrite Hwalk.
  cbn [mbind option_bind]. rewrite depth_walk_sentinels by lia.
  cbn [mbind option_bind depth_walk]. f_equal. lia.
Qed.

(** X13. In the node table of the blob that [xb_builder_compile] returns,
    the node records and the sentinels balance, when no import carries an
    info tree and no manually built tree has a live node under an ignored
    one: read front to back, with a node record opening an element and a
    sentinel closing the open one, no sentinel comes while no element is
    open, and no element is left open at the end. *)
Theorem compile_nodetab_balanced `{cfg : SiloConfig} (locales : list string)
    (self self' : XbBuilder) (flags : Z) (heap heap' : Store) (silo : XbSilo) :
  Forall (fun import => imp_info import = None) (b_imports self) →
  Forall (manual_node_ok heap) (b_nodes self) →
  xb_builder_compile locales self flags heap = Some (self', heap', GOk silo) →
  ∃ blob, silo_blob silo = Some blob ∧ depth_walk 0 blob = Some 0%nat.
Proof.
  intros Hinfo Hmanual Hc.
  destruct (xb_builder_compile_inv _ _ _ _ _ _ _ Hc)
    as (helper & heap1 & root & Himports & Hnodes & -> & _ & _).
  destruct (compile_closed_forest _ _ _ _ _ _ _ Hinfo Hmanual Himports Hnodes)
    as [Hroot Hclosed].
  eexists. split; [reflexivity|]. by apply nodetab_balanced.
Qed.

Lemma compile_nodetab_balanced_witness :
  ∃ self' heap' silo blob,
    xb_builder_compile (cfg := example_config) ["en"; "C"]
      (xb_builder_import xb_builder_new langs_import)
      XB_BUILDER_COMPILE_FLAG_NATIVE_LANGS []
      = Some (self', heap', GOk silo)
    ∧ silo_blob silo = Some blob
    ∧ depth_walk 0 blob = Some 0%nat.
Proof.
  destruct (xb_builder_compile (cfg := example_config) ["en"; "C"]
              (xb_builder_import xb_builder_new langs_import)
              XB_BUILDER_COMPILE_FLAG_NATIVE_LANGS [])
    as [[[self' heap'] [silo|e]]|] eqn:Hcompile;
    [|by vm_compute in Hcompile..].
  assert (Hinfo : Forall (fun import => imp_info import = None)
                    (b_imports (xb_builder_import xb_builder_new langs_import)))
    by (by repeat constructor).
  assert (Hmanual : Forall (manual_node_ok [])
                      (b_nodes (xb_builder_import xb_builder_new langs_import)))
    by (by constructor).
  destruct (compile_nodetab_balanced (cfg := example_config) ["en"; "C"]
              (xb_builder_import xb_builder_new langs_import) self'
              XB_BUILDER_COMPILE_FLAG_NATIVE_LANGS [] heap' silo
              Hinfo Hmanual Hcompile) as (blob & Hblob & Hwalk).
  exists self', heap', silo, blob.
  split; [reflexivity|]. split; [exact Hblob|exact Hwalk].
Defined.

(** ** The offsets that the string-table passes store *)












(** ** Reading back the node table *)














(** ** Parsing a document *)

Lemma XmlNode_ind (P : XmlNode → Prop) :
  (∀ text, P (XmlText text)) →
  (∀ name attrs content, Forall P content → P (XmlElement name attrs content)) →
  ∀ x, P x.
Proof.
  intros Htext Helem. fix IH 1. intros [text|name attrs content].
  - apply Htext.
  - apply Helem. induction content as [|c cs IHcs]; constructor;
      [apply IH|exact IHcs].
Qed.

Lemma xml_gnode_unfold graft first name attrs content :
  xml_gnode graft first (XmlElement name attrs content)
  = [MkGNode (Some first) (xml_gnodes (S first) content ++ graft)].
Proof. reflexivity. Qed.

Lemma xml_objects_length flags locales x :
  ∀ parent_ignored,
    length (xml_objects flags locales parent_ignored x) = xml_size x.
Proof.
  induction x as [text|name attrs content IH] using XmlNode_ind;
    intros parent_ignored; [done|].
  cbn [xml_objects xml_size length]. f_equal.
  generalize (xb_builder_node_has_flag
                (element_object flags locales parent_ignored name attrs)
                XB_BUILDER_NODE_FLAG_IGNORE_CDATA).
  intros ign. induction IH as [|c cs Hc _ IHcs]; [done|].
  cbn [flat_map map list_sum]. by rewrite length_app, Hc, IHcs.
Qed.

Lemma start_element_node_object helper (heap : Store) parent name attrs :
  start_element_node helper heap parent name attrs
  = element_object (h_flags helper) (h_locales helper)
      (match parent with
       | Some pid =>
           xb_builder_node_has_flag (heap !!! pid)
             XB_BUILDER_NODE_FLAG_IGNORE_CDATA
       | None => false
       end)
      name attrs.
Proof. unfold start_element_node, element_object. by destruct parent. Qed.

Lemma text_update_ignored flags bn text :
  xb_builder_node_has_flag (text_update flags bn text)
    XB_BUILDER_NODE_FLAG_IGNORE_CDATA
  = xb_builder_node_has_flag bn XB_BUILDER_NODE_FLAG_IGNORE_CDATA.
Proof.
  unfold text_update. destruct (String.length text =? 0)%nat; [done|].
  destruct (xb_builder_node_has_flag bn _) eqn:Hign; [done|].
  destruct (all_whitespace text); [done|].
  destruct (flag_set flags _); [|done].
  change (xb_builder_node_has_flag
            (xb_builder_node_add_flag bn XB_BUILDER_NODE_FLAG_LITERAL_TEXT)
            XB_BUILDER_NODE_FLAG_IGNORE_CDATA = false).
  unfold xb_builder_node_has_flag, xb_builder_node_add_flag in *.
  cbn [bn_flags]. rewrite Z.land_lor_distr_l.
  change (Z.land XB_BUILDER_NODE_FLAG_LITERAL_TEXT XB_BUILDER_NODE_FLAG_IGNORE_CDATA)
    with 0.
  by rewrite Z.lor_0_r.
Qed.

Lemma store_insert_same (heap : Store) id : <[id := heap !!! id]> heap = heap.
Proof.
  apply list_insert_id'. intros Hlt. by apply list_lookup_lookup_total_lt.
Qed.

(** The text callback on an open element, in terms of its node object. *)
Lemma text_cb_update text h root p n pid (heap : Store) :
  g_node_get root p = Some n → g_data n = Some pid → (pid < length heap)%nat →
  xb_builder_compile_text_cb text (helper_set_tree h root (Some p)) heap
  = Some (helper_set_tree h root (Some p),
          <[pid := text_update (h_flags h) (heap !!! pid) text]> heap).
Proof.
  intros Hget Hd Hlt. unfold xb_builder_compile_text_cb, text_update.
  cbn [helper_set_tree h_current h_root h_flags mbind option_bind].
  rewrite Hget. cbn [mbind option_bind]. rewrite Hd.
  destruct (String.length text =? 0)%nat; [by rewrite store_insert_same|].
  destruct (xb_builder_node_has_flag _ _); [by rewrite store_insert_same|].
  destruct (all_whitespace text); [by rewrite store_insert_same|]. done.
Qed.

Lemma g_node_alter_ext (F G : GNode → GNode) p :
  (∀ m, F m = G m) → ∀ root, g_node_alter F root p = g_node_alter G root p.
Proof.
  intros HFG. induction p as [|i p IH]; intros root; cbn [g_node_alter].
  - by rewrite HFG.
  - destruct (g_children root !! i) as [c|]; [|done]. cbn [mbind option_bind].
    by rewrite IH.
Qed.

Lemma g_node_alter_compose (F G : GNode → GNode) p :
  ∀ root root1,
    g_node_alter F root p = Some root1 →
    g_node_alter G root1 p = g_node_alter (fun m => G (F m)) root p.
Proof.
  induction p as [|i p IH]; intros root root1; cbn [g_node_alter].
  - by intros [= <-].
  - destruct (g_children root !! i) as [c|] eqn:Hi; [|done].
    cbn [mbind option_bind].
    destruct (g_node_alter F c p) as [c1|] eqn:Hc1; [|done].
    cbn [mbind option_bind]. intros [= <-]. cbn [g_children g_data].
    rewrite list_lookup_insert_eq by (by eapply lookup_lt_Some).
    cbn [mbind option_bind]. rewrite (IH c c1 Hc1).
    destruct (g_node_alter (fun m => G (F m)) c p) as [c2|]; [|done].
    cbn [mbind option_bind].
    by rewrite list_insert_insert_eq.
Qed.

(** Appending children twice is appending them at once. *)
Lemma g_node_alter_append_twice cs1 cs2 p root root1 :
  g_node_alter (fun m => MkGNode (g_data m) (g_children m ++ cs1)) root p
    = Some root1 →
  g_node_alter (fun m => MkGNode (g_data m) (g_children m ++ cs2)) root1 p
  = g_node_alter (fun m => MkGNode (g_data m) (g_children m ++ cs1 ++ cs2)) root p.
Proof.
  intros H1. rewrite (g_node_alter_compose _ _ p root root1 H1).
  apply g_node_alter_ext. intros m. cbn [g_data g_children].
  by rewrite <- app_assoc.
Qed.

Lemma apply_texts_ignored flags content :
  ∀ bn,
    xb_builder_node_has_flag (apply_texts flags content bn)
      XB_BUILDER_NODE_FLAG_IGNORE_CDATA
    = xb_builder_node_has_flag bn XB_BUILDER_NODE_FLAG_IGNORE_CDATA.
Proof.
  unfold apply_texts. induction content as [|x content IH]; intros bn; [done|].
  cbn [fold_left]. rewrite IH. destruct x; [apply text_update_ignored|done].
Qed.

Lemma g_node_alter_nil root p n :
  g_node_get root p = Some n →
  g_node_alter (fun m => MkGNode (g_data m) (g_children m ++ [])) root p
  = Some root.
Proof.
  revert root. induction p as [|i p IH]; intros root Hget;
    cbn [g_node_get g_node_alter] in *.
  - rewrite app_nil_r. by destruct root.
  - destruct (g_children root !! i) as [c|] eqn:Hi; [|done].
    cbn [mbind option_bind] in *. rewrite (IH c Hget). cbn [mbind option_bind].
    rewrite list_insert_id by done. by destruct root.
Qed.

Lemma g_markup_parse_context_parse_app events1 events2 :
  ∀ helper heap,
    g_markup_parse_context_parse (events1 ++ events2) helper heap
    = '(helper1, heap1) ← g_markup_parse_context_parse events1 helper heap;
      g_markup_parse_context_parse events2 helper1 heap1.
Proof.
  induction events1 as [|ev events1 IH]; intros helper heap;
    cbn [app g_markup_parse_context_parse]; [done|].
  destruct (parser_callback ev helper heap) as [[h1 heap1]|]; [|done].
  cbn [mbind option_bind]. apply IH.
Qed.

(** Parsing the content of an open element: the text chunks update its
    node object, and each child element is put under it with its subtree,
    its objects allocated after those that are there. *)
Lemma parse_content h content :
  Forall
    (fun x =>
       match x with
       | XmlText _ => True
       | XmlElement _ _ _ =>
           ∀ root p n (heap : Store),
             g_node_get root p = Some n → p ≠ [] →
             ∃ root',
               g_node_alter
                 (fun m => MkGNode (g_data m)
                             (g_children m ++ xml_gnode [] (length heap) x))
                 root p = Some root'
               ∧ g_markup_parse_context_parse (xml_events x)
                   (helper_set_tree h root (Some p)) heap
                 = Some (helper_set_tree h root' (Some p),
                         heap ++ xml_objects (h_flags h) (h_locales h)
                                   (match g_data n with
                                    | Some pid =>
                                        xb_builder_node_has_flag (heap !!! pid)
                                          XB_BUILDER_NODE_FLAG_IGNORE_CDATA
                                    | None => false
                                    end) x)
       end)
    content →
  ∀ root p n pid (heap : Store),
    g_node_get root p = Some n → g_data n = Some pid → p ≠ [] →
    (pid < length heap)%nat →
    ∃ root',
      g_node_alter
        (fun m => MkGNode (g_data m)
                    (g_children m ++ xml_gnodes (length heap) content))
        root p = Some root'
      ∧ g_markup_parse_context_parse (flat_map xml_events content)
          (helper_set_tree h root (Some p)) heap
        = Some (helper_set_tree h root' (Some p),
                <[pid := apply_texts (h_flags h) content (heap !!! pid)]> heap
                ++ flat_map
                     (xml_objects (h_flags h) (h_locales h)
                        (xb_builder_node_has_flag (heap !!! pid)
                           XB_BUILDER_NODE_FLAG_IGNORE_CDATA))
                     content).
Proof.
  induction 1 as [|x content Hx _ IH]; intros root p n pid heap Hget Hd Hp Hlt.
  - exists root. split; [by eapply g_node_alter_nil|].
    cbn [flat_map g_markup_parse_context_parse apply_texts fold_left].
    by rewrite app_nil_r, store_insert_same.
  - destruct x as [text|name attrs sub].
    + cbn [flat_map xml_events app g_markup_parse_context_parse parser_callback].
      rewrite (text_cb_update text h root p n pid heap Hget Hd Hlt).
      cbn [mbind option_bind].
      set (heap1 := <[pid := text_update (h_flags h) (heap !!! pid) text]> heap).
      assert (Hlen1 : length heap1 = length heap) by apply length_insert.
      destruct (IH root p n pid heap1 Hget Hd Hp ltac:(lia))
        as (root' & Halter & Hparse).
      exists root'. split.
      * cbn [xml_gnodes xml_gnode xml_size app]. rewrite Nat.add_0_r.
        by rewrite <- Hlen1.
      * rewrite Hparse. unfold heap1.
        rewrite list_lookup_total_insert_eq by done.
        rewrite list_insert_insert_eq, text_update_ignored. done.
    + cbn [flat_map]. rewrite g_markup_parse_context_parse_app.
      destruct (Hx root p n heap Hget Hp) as (root1 & Halter1 & Hparse1).
      rewrite Hparse1. cbn [mbind option_bind]. rewrite Hd.
      set (ign := xb_builder_node_has_flag (heap !!! pid)
                    XB_BUILDER_NODE_FLAG_IGNORE_CDATA).
      set (objs := xml_objects (h_flags h) (h_locales h) ign
                     (XmlElement name attrs sub)).
      assert (Hlen1 : length (heap ++ objs)
                      = (length heap + xml_size (XmlElement name attrs sub))%nat).
      { unfold objs. by rewrite length_app, xml_objects_length. }
      destruct (g_node_alter_append
                  (xml_gnode [] (length heap) (XmlElement name attrs sub))
                  root p n Hget) as (root1' & Halter1' & _ & Hget1).
      rewrite Halter1 in Halter1'. injection Halter1' as <-.
      destruct (IH root1 p _ pid (heap ++ objs) Hget1 Hd Hp ltac:(lia))
        as (root2 & Halter2 & Hparse2).
      exists root2. split.
      * cbn [xml_gnodes]. rewrite <- Hlen1.
        by rewrite <- (g_node_alter_append_twice _ _ p root root1 Halter1).
      * rewrite Hparse2. rewrite lookup_total_app_l by done. fold ign.
        rewrite insert_app_l by done. cbn [apply_texts fold_left flat_map].
        fold objs. by rewrite <- app_assoc.
Qed.

(** Parsing an element: a node for it under the open element, with the
    subtrees of its child elements, and at the top level the info tree of
    the import after them; the objects of its elements are allocated in
    document order. *)
Lemma parse_element h x :
  match x with
  | XmlText _ => True
  | XmlElement _ _ _ =>
      ∀ root p n (heap : Store),
        g_node_get root p = Some n →
        ∃ root',
          g_node_alter
            (fun m => MkGNode (g_data m)
                        (g_children m
                         ++ xml_gnode (if decide (p = [])
                                       then info_graft (h_info h) else [])
                                      (length heap) x))
            root p = Some root'
          ∧ g_markup_parse_context_parse (xml_events x)
              (helper_set_tree h root (Some p)) heap
            = Some (helper_set_tree h root' (Some p),
                    heap ++ xml_objects (h_flags h) (h_locales h)
                              (match g_data n with
                               | Some pid =>
                                   xb_builder_node_has_flag (heap !!! pid)
                                     XB_BUILDER_NODE_FLAG_IGNORE_CDATA
                               | None => false
                               end) x)
  end.
Proof.
  induction x as [text|name attrs content IH] using XmlNode_ind; [done|].
  intros root p n heap Hget.
  set (graft := if decide (p = []) then info_graft (h_info h) else []).
  set (L := length heap).
  set (parent_ign := match g_data n with
                     | Some pid =>
                         xb_builder_node_has_flag (heap !!! pid)
                           XB_BUILDER_NODE_FLAG_IGNORE_CDATA
                     | None => false
                     end).
  set (bn0 := element_object (h_flags h) (h_locales h) parent_ign name attrs).
  set (leaf := MkGNode (Some L) []).
  set (k := length (g_children n)).
  (* the start tag *)
  destruct (g_node_alter_append [leaf] root p n Hget)
    as (root1 & Halter1 & _ & Hget1).
  assert (Hleaf : g_node_get root1 (p ++ [k]) = Some leaf).
  { rewrite g_node_get_app, Hget1. cbn [mbind option_bind g_node_get g_children].
    unfold k. rewrite lookup_app_r by lia. by rewrite Nat.sub_diag. }
  assert (Hstart :
    xb_builder_compile_start_element_cb name attrs
      (helper_set_tree h root (Some p)) heap
    = Some (helper_set_tree h root1 (Some (p ++ [k])), heap ++ [bn0])).
  { unfold xb_builder_compile_start_element_cb, g_node_append_data.
    cbn [helper_set_tree h_current h_root mbind option_bind].
    rewrite Hget. cbn [mbind option_bind]. fold L leaf. rewrite Halter1.
    cbn [mbind option_bind]. rewrite start_element_node_object. done. }
  (* the content *)
  assert (Hcontent : Forall
    (fun x =>
       match x with
       | XmlText _ => True
       | XmlElement _ _ _ =>
           ∀ root p n (heap : Store),
             g_node_get root p = Some n → p ≠ [] →
             ∃ root',
               g_node_alter
                 (fun m => MkGNode (g_data m)
                             (g_children m ++ xml_gnode [] (length heap) x))
                 root p = Some root'
               ∧ g_markup_parse_context_parse (xml_events x)
                   (helper_set_tree h root (Some p)) heap
                 = Some (helper_set_tree h root' (Some p),
                         heap ++ xml_objects (h_flags h) (h_locales h)
                                   (match g_data n with
                                    | Some pid =>
                                        xb_builder_node_has_flag (heap !!! pid)
                                          XB_BUILDER_NODE_FLAG_IGNORE_CDATA
                                    | None => false
                                    end) x)
       end) content).
  { eapply Forall_impl; [exact IH|]. intros [t|nm at' sub] Hx; [done|].
    intros root0 p0 n0 heap0 Hget0 Hp0.
    destruct (Hx root0 p0 n0 heap0 Hget0) as (root' & Halter & Hparse).
    rewrite decide_False in Halter by done. by exists root'. }
  assert (HL : (L < length (heap ++ [bn0]))%nat).
  { rewrite length_app. cbn. unfold L. lia. }
  destruct (parse_content h content Hcontent root1 (p ++ [k]) leaf L
              (heap ++ [bn0]) Hleaf eq_refl ltac:(by destruct p) HL)
    as (root2 & Halter2 & Hparse2).
  assert (Hbn0 : (heap ++ [bn0]) !!! L = bn0).
  { unfold L. rewrite lookup_total_app_r by lia. by rewrite Nat.sub_diag. }
  rewrite Hbn0 in Hparse2.
  assert (Hlen1 : length (heap ++ [bn0]) = S L).
  { rewrite length_app. cbn. unfold L. lia. }
  rewrite Hlen1 in Halter2.
  assert (Hheap2 :
    <[L := apply_texts (h_flags h) content bn0]> (heap ++ [bn0])
    ++ flat_map (xml_objects (h_flags h) (h_locales h)
                   (xb_builder_node_has_flag bn0 XB_BUILDER_NODE_FLAG_IGNORE_CDATA))
                content
    = heap ++ xml_objects (h_flags h) (h_locales h) parent_ign
                (XmlElement name attrs content)).
  { unfold L. rewrite insert_app_r_alt by lia. rewrite Nat.sub_diag.
    cbn [xml_objects]. fold bn0. by rewrite <- app_assoc. }
  rewrite Hheap2 in Hparse2.
  (* the end tag *)
  destruct (g_node_alter_append (xml_gnodes (S L) content) root1 (p ++ [k]) leaf
              Hleaf) as (root2' & Halter2' & _ & Hget2).
  rewrite Halter2 in Halter2'. injection Halter2' as <-.
  destruct (g_node_alter_append graft root2 (p ++ [k]) _ Hget2)
    as (root3 & Halter3 & _ & _).
  assert (Hend : ∀ heap2,
    xb_builder_compile_end_element_cb name
      (helper_set_tree h root2 (Some (p ++ [k]))) heap2
    = Some (helper_set_tree h root3 (Some p), heap2)).
  { intros heap2. unfold xb_builder_compile_end_element_cb.
    cbn [helper_set_tree h_current h_root h_info mbind option_bind].
    assert (Hparent : g_node_parent (p ++ [k]) = Some p).
    { unfold g_node_parent. destruct (p ++ [k]) eqn:Hpk; [by destruct p|].
      rewrite <- Hpk. by rewrite removelast_last. }
    rewrite Hparent. unfold graft in Halter3.
    destruct (decide (p = [])) as [->|Hne].
    - rewrite decide_True by done. destruct (h_info h) as [info|];
        cbn [info_graft] in Halter3.
      + rewrite (xb_builder_compile_node_tree_spec info root2 _ _ Hget2).
        rewrite Halter3. done.
      + rewrite (g_node_alter_nil root2 _ _ Hget2) in Halter3.
        injection Halter3 as <-. done.
    - rewrite decide_False by congruence.
      rewrite (g_node_alter_nil root2 _ _ Hget2) in Halter3.
      injection Halter3 as <-. done. }
  (* the tree *)
  rewrite (g_node_alter_append_twice _ _ _ root1 root2 Halter2) in Halter3.
  unfold k in Halter3.
  rewrite (g_node_alter_child _ leaf p root root1 n Hget Halter1) in Halter3.
  exists root3. split.
  - rewrite xml_gnode_unfold. fold L. exact Halter3.
  - cbn [xml_events g_markup_parse_context_parse parser_callback].
    rewrite Hstart. cbn [mbind option_bind].
    rewrite g_markup_parse_context_parse_app, Hparse2.
    cbn [mbind option_bind g_markup_parse_context_parse parser_callback].
    rewrite Hend. done.
Qed.

(** X15. Compiling an import whose stream is a well-formed document, from
    the reset cursor: the import succeeds; the tree gets one more top-level
    node, for the root element, with the subtrees of its child elements in
    document order and after them the info tree of the import, if it has
    one; the node objects of the elements are allocated at the end of the
    store in document order, each as the start-element callback makes it
    and with the text that the text callback leaves in it. *)
Theorem compile_import_document (helper : XbBuilderCompileHelper) (heap : Store)
    (import : XbBuilderImport) (name : string) (attrs : list (string * string))
    (content : list XmlNode) :
  let doc := XmlElement name attrs content in
  h_current helper = Some [] →
  g_data (h_root helper) = None →
  imp_events import = xml_events doc →
  imp_error import = None →
  xb_builder_compile_import helper heap import
  = Some (helper_set_tree (helper_set_info helper (imp_info import))
            (MkGNode None
               (g_children (h_root helper)
                ++ xml_gnode (info_graft (imp_info import)) (length heap) doc))
            (Some []),
          heap ++ xml_objects (h_flags helper) (h_locales helper) false doc,
          GOk tt).
Proof.
  intros doc Hcur Hroot Hevents Herror. unfold xb_builder_compile_import.
  rewrite Hevents, Herror.
  set (h := helper_set_info helper (imp_info import)).
  assert (Hh : h = helper_set_tree h (h_root helper) (Some [])).
  { unfold h. destruct helper. cbn in *. by subst. }
  rewrite Hh at 1.
  destruct (parse_element h doc (h_root helper) [] (h_root helper) heap eq_refl)
    as (root' & Halter & Hparse).
  rewrite Hparse. cbn [mbind option_bind helper_set_tree h_current].
  case_decide; [|done]. rewrite Hroot.
  cbn [g_node_alter] in Halter. injection Halter as <-.
  rewrite decide_True by done. by rewrite Hroot.
Qed.

Lemma compile_import_document_witness :
  xb_builder_compile_import
    (MkHelper (MkGNode None []) (Some []) 0 ∅ [] None ["en"; "C"]) []
    (MkImport "p.xml" None
       [StartElement "p" []; Text "Hello "; StartElement "b" []; Text "big";
        EndElement "b"; Text " world"; EndElement "p"] None)
  = Some (MkHelper (MkGNode None [MkGNode (Some 0%nat) [MkGNode (Some 1%nat) []]])
            (Some []) 0 ∅ [] None ["en"; "C"],
          [xb_builder_node_set_text (xb_builder_node_new "p") " world";
           xb_builder_node_set_text (xb_builder_node_new "b") "big"],
          GOk tt).
Proof.
  exact (compile_import_document
           (MkHelper (MkGNode None []) (Some []) 0 ∅ [] None ["en"; "C"]) []
           (MkImport "p.xml" None
              [StartElement "p" []; Text "Hello "; StartElement "b" []; Text "big";
               EndElement "b"; Text " world"; EndElement "p"] None)
           "p" [] [XmlText "Hello "; XmlElement "b" [] [XmlText "big"];
                   XmlText " world"]
           eq_refl eq_refl eq_refl eq_refl).
Defined.

Lemma element_object_fields flags locales parent_ignored name attrs :
  let bn := element_object flags locales parent_ignored name attrs in
  bn_element bn = name
  ∧ bn_text bn = None
  ∧ (xb_builder_node_has_flag bn XB_BUILDER_NODE_FLAG_IGNORE_CDATA = true →
     bn_attrs bn = []).
Proof.
  cbn zeta. unfold element_object.
  set (bn1 := if parent_ignored then _ else _).
  assert (H1 : bn_element bn1 = name ∧ bn_text bn1 = None ∧ bn_attrs bn1 = []).
  { unfold bn1. by destruct parent_ignored. }
  set (bn2 := if _ && _ then _ else bn1).
  assert (H2 : bn_element bn2 = name ∧ bn_text bn2 = None ∧ bn_attrs bn2 = []).
  { unfold bn2. destruct (_ && _); [|done].
    destruct (check_locale_spec locales attrs bn1) as (_ & Ha & He & Ht).
    by rewrite Ha, He, Ht. }
  destruct H2 as (He & Ht & Ha).
  destruct (xb_builder_node_has_flag bn2 _) eqn:Hign; cbn [negb].
  - done.
  - destruct (add_attributes_spec attrs bn2) as (_ & Hf & He' & Ht').
    rewrite He', Ht', He, Ht. split; [done|]. split; [done|].
    unfold xb_builder_node_has_flag in *. rewrite Hf, Hign. done.
Qed.

Lemma apply_texts_text flags content :
  ∀ bn,
    bn_element (apply_texts flags content bn) = bn_element bn
    ∧ bn_attrs (apply_texts flags content bn) = bn_attrs bn
    ∧ bn_text (apply_texts flags content bn)
      = if xb_builder_node_has_flag bn XB_BUILDER_NODE_FLAG_IGNORE_CDATA
        then bn_text bn
        else match last (significant_texts content) with
             | Some text => Some text
             | None => bn_text bn
             end.
Proof.
  unfold apply_texts.
  induction content as [|x content IH]; intros bn; cbn [fold_left].
  - cbn. by destruct (xb_builder_node_has_flag bn _).
  - destruct x as [text|nm at' sub].
    2:{ cbn [significant_texts flat_map app]. apply IH. }
    destruct (IH (text_update flags bn text)) as (-> & -> & ->).
    rewrite text_update_ignored.
    cbn [significant_texts flat_map]. fold (significant_texts content).
    unfold text_update.
    destruct (String.length text =? 0)%nat; cbn [orb app]; [done|].
    destruct (xb_builder_node_has_flag bn _) eqn:Hign; [done|].
    destruct (all_whitespace text); cbn [app]; [done|].
    split; [by destruct (flag_set flags _)|].
    split; [by destruct (flag_set flags _)|].
    rewrite last_cons. by destruct (last (significant_texts content)).
Qed.

(** X16. The node object that the parser leaves for an element of a
    document: it has the tag of the element; when it is ignored (the parent
    is, or the language is not wanted) it has neither attributes nor text;
    otherwise its text is the last chunk of text directly in the element
    that is neither empty nor all white space, whatever child elements
    stand between the chunks: earlier chunks are overwritten. *)
Theorem element_text_is_last_chunk (h : XbBuilderCompileHelper) (root : GNode)
    (p : GNodePtr) (n : GNode) (heap heap' : Store)
    (helper' : XbBuilderCompileHelper) (name : string)
    (attrs : list (string * string)) (content : list XmlNode) :
  g_node_get root p = Some n →
  g_markup_parse_context_parse (xml_events (XmlElement name attrs content))
    (helper_set_tree h root (Some p)) heap = Some (helper', heap') →
  let bn := heap' !!! length heap in
  bn_element bn = name
  ∧ (live heap' (length heap) = false → bn_attrs bn = [] ∧ bn_text bn = None)
  ∧ (live heap' (length heap) = true →
     bn_text bn = last (significant_texts content)).
Proof.
  intros Hget Hparse.
  destruct (parse_element h (XmlElement name attrs content) root p n heap Hget)
    as (root' & _ & Hparse').
  rewrite Hparse' in Hparse. injection Hparse as _ <-. cbn zeta.
  unfold live. cbn [xml_objects].
  rewrite lookup_total_app_r by lia. rewrite Nat.sub_diag.
  cbn [lookup_total list_lookup_total].
  set (bn0 := element_object _ _ _ name attrs).
  destruct (element_object_fields (h_flags h) (h_locales h)
              (match g_data n with
               | Some pid =>
                   xb_builder_node_has_flag (heap !!! pid)
                     XB_BUILDER_NODE_FLAG_IGNORE_CDATA
               | None => false
               end) name attrs) as (He & Ht & Ha).
  fold bn0 in He, Ht, Ha.
  destruct (apply_texts_text (h_flags h) content bn0) as (-> & -> & ->).
  rewrite apply_texts_ignored. split; [done|]. split.
  - intros Hign. apply negb_false_iff in Hign. rewrite Hign. by rewrite Ha.
  - intros Hlive. apply negb_true_iff in Hlive. rewrite Hlive, Ht.
    by destruct (last (significant_texts content)).
Qed.

Lemma element_text_is_last_chunk_witness :
  ∃ helper' heap',
    g_markup_parse_context_parse
      (xml_events (XmlElement "p" []
                     [XmlText "Hello "; XmlElement "b" [] [XmlText "big"];
                      XmlText " world"; XmlText "  "]))
      (MkHelper (MkGNode None []) (Some []) 0 ∅ [] None ["en"; "C"]) []
    = Some (helper', heap')
    ∧ bn_text (heap' !!! 0%nat) = Some " world".
Proof.
  destruct (g_markup_parse_context_parse
      (xml_events (XmlElement "p" []
                     [XmlText "Hello "; XmlElement "b" [] [XmlText "big"];
                      XmlText " world"; XmlText "  "]))
      (MkHelper (MkGNode None []) (Some []) 0 ∅ [] None ["en"; "C"]) [])
    as [[helper' heap']|] eqn:Hparse; [|by vm_compute in Hparse].
  exists helper', heap'. split; [reflexivity|].
  destruct (element_text_is_last_chunk
              (MkHelper (MkGNode None []) (Some []) 0 ∅ [] None ["en"; "C"])
              (MkGNode None []) [] (MkGNode None []) [] heap' helper' "p" []
              [XmlText "Hello "; XmlElement "b" [] [XmlText "big"];
               XmlText " world"; XmlText "  "] eq_refl Hparse)
    as (_ & _ & Htext).
  cbn [length] in Htext. rewrite Htext; [reflexivity|].
  vm_compute in Hparse. injection Hparse as _ <-. reflexivity.
Defined.

(** ** What an import that fails leaves behind *)

Lemma parser_callback_count ev helper heap helper' heap' :
  h_info helper = None →
  parser_callback ev helper heap = Some (helper', heap') →
  h_info helper' = None
  ∧ length (gnode_ids (h_root helper'))
    = (length (gnode_ids (h_root helper)) + count_starts [ev])%nat
  ∧ length heap' = (length heap + count_starts [ev])%nat.
Proof.
  intros Hinfo Hcb. destruct ev as [name attrs|name|text]; cbn in Hcb.
  - unfold xb_builder_compile_start_element_cb in Hcb.
    destruct (h_current helper) as [p|]; [|done]. cbn [mbind option_bind] in Hcb.
    destruct (g_node_get (h_root helper) p) as [n|] eqn:Hget; [|done].
    cbn [mbind option_bind] in Hcb. unfold g_node_append_data in Hcb.
    rewrite Hget in Hcb. cbn [mbind option_bind] in Hcb.
    destruct (g_node_alter _ (h_root helper) p) as [root'|] eqn:Halter; [|done].
    cbn [mbind option_bind] in Hcb. injection Hcb as <- <-.
    split; [done|]. cbn [helper_set_tree h_root count_starts].
    rewrite (gnode_ids_alter _ _ _ _ _ Hget Halter), !length_app. cbn. lia.
  - unfold xb_builder_compile_end_element_cb in Hcb.
    destruct (h_current helper) as [p|]; [|done]. cbn [mbind option_bind] in Hcb.
    rewrite Hinfo in Hcb.
    destruct (decide (g_node_parent p = Some []));
      cbn [mbind option_bind] in Hcb; injection Hcb as <- <-;
      cbn [helper_set_tree h_root h_info count_starts]; by rewrite !Nat.add_0_r.
  - unfold xb_builder_compile_text_cb in Hcb.
    destruct (h_current helper) as [p|]; [|done]. cbn [mbind option_bind] in Hcb.
    destruct (g_node_get (h_root helper) p) as [n|]; [|done].
    cbn [mbind option_bind] in Hcb. cbn [count_starts]. rewrite !Nat.add_0_r.
    destruct (g_data n) as [id|]; [|by injection Hcb as <- <-].
    destruct (String.length text =? 0)%nat; [by injection Hcb as <- <-|].
    destruct (xb_builder_node_has_flag _ _); [by injection Hcb as <- <-|].
    destruct (all_whitespace text); [by injection Hcb as <- <-|].
    injection Hcb as <- <-. by rewrite length_insert.
Qed.

Lemma parse_count events :
  ∀ helper heap helper' heap',
    h_info helper = None →
    g_markup_parse_context_parse events helper heap = Some (helper', heap') →
    h_info helper' = None
    ∧ length (gnode_ids (h_root helper'))
      = (length (gnode_ids (h_root helper)) + count_starts events)%nat
    ∧ length heap' = (length heap + count_starts events)%nat.
Proof.
  induction events as [|ev events IH]; intros helper heap helper' heap' Hinfo;
    cbn [g_markup_parse_context_parse].
  - intros [= <- <-]. cbn. by rewrite !Nat.add_0_r.
  - destruct (parser_callback ev helper heap) as [[h1 heap1]|] eqn:Hcb; [|done].
    cbn [mbind option_bind]. intros Hrest.
    destruct (parser_callback_count ev helper heap h1 heap1 Hinfo Hcb)
      as (Hinfo1 & Hn1 & Hl1).
    destruct (IH h1 heap1 helper' heap' Hinfo1 Hrest) as (Hinfo2 & Hn2 & Hl2).
    split; [done|]. rewrite Hn2, Hl2, Hn1, Hl1.
    assert (count_starts (ev :: events)
            = (count_starts [ev] + count_starts events)%nat) as ->
      by (by destruct ev).
    lia.
Qed.

(** X17. With [IGNORE_INVALID], an import that fails is not undone: the
    loop goes on to the next import, and the elements that the failing
    import had opened stay in the tree and in the store. After the loop the
    tree has one node, and the store one object, for every start tag that
    the tokenizer reported, of the failed imports as of the others (imports
    without an info tree). *)
Theorem ignored_invalid_import_keeps_nodes (flags : Z)
    (imports : list XbBuilderImport) (helper helper' : XbBuilderCompileHelper)
    (heap heap' : Store) (r : gresult unit) :
  flag_set flags XB_BUILDER_COMPILE_FLAG_IGNORE_INVALID = true →
  Forall (fun import => imp_info import = None) imports →
  compile_imports flags imports helper heap = Some (helper', heap', r) →
  let starts :=
    list_sum (map (fun import => count_starts (imp_events import)) imports) in
  r = GOk tt
  ∧ length (gnode_ids (h_root helper'))
    = (length (gnode_ids (h_root helper)) + starts)%nat
  ∧ length heap' = (length heap + starts)%nat.
Proof.
  intros Hflag Hinfo. revert helper heap.
  induction Hinfo as [|import rest Himport _ IH]; intros helper heap;
    cbn [compile_imports map list_sum].
  - intros [= <- <- <-]. by rewrite !Nat.add_0_r.
  - unfold xb_builder_compile_import.
    destruct (g_markup_parse_context_parse (imp_events import) _ heap)
      as [[h1 heap1]|] eqn:Hparse; [|done].
    cbn [mbind option_bind].
    destruct (parse_count _
                (helper_set_info (helper_set_tree helper (h_root helper) (Some []))
                                 (imp_info import))
                heap h1 heap1 Himport Hparse) as (_ & Hn1 & Hl1).
    cbn [helper_set_info helper_set_tree h_root] in Hn1.
    assert (Hrest : compile_imports flags rest h1 heap1 = Some (helper', heap', r) →
              r = GOk tt
              ∧ length (gnode_ids (h_root helper'))
                = (length (gnode_ids (h_root helper))
                   + (count_starts (imp_events import)
                      + list_sum (map (fun import =>
                                         count_starts (imp_events import)) rest)))%nat
              ∧ length heap'
                = (length heap
                   + (count_starts (imp_events import)
                      + list_sum (map (fun import =>
                                         count_starts (imp_events import)) rest)))%nat).
    { intros Hc. destruct (IH h1 heap1 Hc) as (-> & Hn2 & Hl2).
      split; [done|]. rewrite Hn2, Hl2, Hn1, Hl1. lia. }
    destruct (imp_error import) as [e|]; cbn [mbind option_bind].
    + by rewrite Hflag.
    + case_decide; cbn [mbind option_bind]; [done|]. by rewrite Hflag.
Qed.

Lemma ignored_invalid_import_keeps_nodes_witness :
  ∃ helper' heap',
    compile_imports XB_BUILDER_COMPILE_FLAG_IGNORE_INVALID
      [MkImport "bad.xml" None [StartElement "a" []; StartElement "b" []] None;
       hello_import]
      (MkHelper (MkGNode None []) None XB_BUILDER_COMPILE_FLAG_IGNORE_INVALID
                ∅ [] None ["en"; "C"]) []
    = Some (helper', heap', GOk tt)
    ∧ length (gnode_ids (h_root helper')) = 4%nat
    ∧ length heap' = 4%nat.
Proof.
  destruct (compile_imports XB_BUILDER_COMPILE_FLAG_IGNORE_INVALID
      [MkImport "bad.xml" None [StartElement "a" []; StartElement "b" []] None;
       hello_import]
      (MkHelper (MkGNode None []) None XB_BUILDER_COMPILE_FLAG_IGNORE_INVALID
                ∅ [] None ["en"; "C"]) [])
    as [[[helper' heap'] r]|] eqn:Hc; [|by vm_compute in Hc].
  assert (Hinfo : Forall (fun import => imp_info import = None)
      [MkImport "bad.xml" None [StartElement "a" []; StartElement "b" []] None;
       hello_import]) by (by repeat constructor).
  destruct (ignored_invalid_import_keeps_nodes
              XB_BUILDER_COMPILE_FLAG_IGNORE_INVALID _ _ helper' [] heap' r
              eq_refl Hinfo Hc) as (-> & Hn & Hl).
  exists helper', heap'. split; [reflexivity|]. split; [exact Hn|exact Hl].
Defined.

(** ** The bytes of the GUID *)

Lemma sha1_digest_bytes msg :
  length (Sha1.digest msg) = 20%nat
  ∧ Forall (fun b => 0 ≤ b < 256) (Sha1.digest msg).
Proof.
  unfold Sha1.digest. generalize (Sha1.blocks (length (Sha1.pad msg)) Sha1.init
                                    (Sha1.pad msg)).
  intros s. split; [by rewrite !length_app|].
  assert (Hw : ∀ w, Forall (fun b => 0 ≤ b < 256) (Sha1.word_bytes w)).
  { intros w. unfold Sha1.word_bytes. apply Forall_map, Forall_forall.
    intros i _. cbn beta. change 255 with (Z.ones 8). rewrite Z.land_ones by lia.
    apply Z.mod_pos_bound. lia. }
  repeat (apply Forall_app; split); apply Hw.
Qed.

Lemma lor_byte a b : 0 ≤ a < 256 → 0 ≤ b < 256 → 0 ≤ Z.lor a b < 256.
Proof.
  intros Ha Hb. split; [apply Z.lor_nonneg; lia|].
  destruct (Z.eq_dec (Z.lor a b) 0) as [->|Hnz]; [lia|].
  assert (Hpos : 0 < Z.lor a b).
  { pose proof (proj2 (Z.lor_nonneg a b) ltac:(lia)). lia. }
  change 256 with (2 ^ 8). apply Z.log2_lt_pow2; [done|].
  rewrite Z.log2_lor by lia.
  assert (Hl : ∀ x, 0 ≤ x < 256 → Z.log2 x < 8).
  { intros x Hx. destruct (Z.eq_dec x 0) as [->|Hx0]; [done|].
    apply Z.log2_lt_pow2; lia. }
  pose proof (Hl a Ha). pose proof (Hl b Hb). lia.
Qed.

(** X18. The [guid] field that compile writes to the header is always
    sixteen bytes, each below 256: zero bytes for an empty accumulator, else
    the bytes of [_uuid_generate_sha1], with libuuid or with the GChecksum
    fallback. *)
Theorem compile_guid_sixteen_bytes `{cfg : SiloConfig} (guid_acc : string) :
  length (compile_guid guid_acc) = 16%nat
  ∧ Forall (fun b => 0 ≤ b < 256) (compile_guid guid_acc).
Proof.
  unfold compile_guid. destruct (0 <? String.length guid_acc)%nat.
  2:{ split; [done|]. repeat constructor; lia. }
  unfold _uuid_generate_sha1, uuid_generate_sha1.
  generalize (bytes_of_string guid_acc). intros name.
  destruct HAVE_UUID_GENERATE_SHA1.
  - destruct (sha1_digest_bytes (uuid_clear ++ name)) as [Hlen Hbytes].
    split; [rewrite !length_insert, length_take; lia|].
    apply Forall_insert; [apply Forall_insert; [by apply Forall_take|]|].
    + apply lor_byte; [|lia]. change 15 with (Z.ones 4).
      rewrite Z.land_ones by lia.
      pose proof (Z.mod_pos_bound (nth 6 (take 16 (Sha1.digest (uuid_clear ++ name))) 0)
                    (2 ^ 4) ltac:(lia)). lia.
    + apply lor_byte; [|lia]. change 63 with (Z.ones 6).
      rewrite Z.land_ones by lia.
      pose proof (Z.mod_pos_bound (nth 8 (take 16 (Sha1.digest (uuid_clear ++ name))) 0)
                    (2 ^ 6) ltac:(lia)). lia.
  - destruct (sha1_digest_bytes name) as [Hlen Hbytes]. split.
    + rewrite length_take. lia.
    + by apply Forall_take.
Qed.
